(** * Columnar: a fixed-schema column store loaded from CSV

    A shallow embedding of the class template [columnar::Columnar] and of
    its operations [try_read_from_csv], [get_column_view], [get_row] and
    [filter], followed by the properties of the loader, the accessors and
    the filter.

    Conventions of the embedding.
    - A [std::string] is a [string]; a [std::vector<T>] is the list of its
      elements together with the identity of the vector object, so that
      a view can be said to designate a vector and a copy to be a vector
      of its own.  An operation that creates vectors takes the first
      identity not yet in use.
    - The template parameter pack [ColumnTypes...] is a list of [ColTy].
    - [std::istringstream] and [std::ifstream] are a buffer of unread
      characters with the [eofbit] and [failbit] state flags.
    - A function returns [option] where the source has a loop on a stream
      ([None]: the loop cut short, shown not to happen) or subscripts a
      vector or a span ([None]: subscript past the end, undefined in the
      source, shown not to happen under the class invariant).
    - Integer widths are those of the LP64 data model, floating-point
      formats those of x86-64; the program runs in the "C" locale.
    - [std::from_chars] and [strtod] follow ISO C++ [charconv.from.chars]
      and ISO C 7.22.1.3. *)

From Stdlib Require Import ZArith QArith Ascii String.
From stdpp Require Import base option list strings numbers.

Open Scope string_scope.
Open Scope nat_scope.

(** * Error kinds and results *)

(** [enum class CsvError]. *)
Inductive CsvError : Type :=
  | FileNotFound
  | ParseError
  | InvalidFormat
  | ColumnNotFound
  | RowIndexOutOfBounds.

Global Instance CsvError_eq_dec : EqDecision CsvError.
Proof. solve_decision. Defined.

(** [Expected<T, E>]: a variant holding either a value or an error. *)
Inductive Expected (T E : Type) : Type :=
  | Value (v : T)
  | Unexpected (e : E).
Arguments Value {T E} v.
Arguments Unexpected {T E} e.

Definition has_value {T E} (r : Expected T E) : bool :=
  match r with Value _ => true | Unexpected _ => false end.

(** * Characters *)

Definition char_code (c : ascii) : nat := nat_of_ascii c.

Definition is_digit (c : ascii) : bool :=
  (48 <=? char_code c) && (char_code c <=? 57).

Definition digit_value (c : ascii) : Z := Z.of_nat (char_code c) - 48.

(** [isspace] in the "C" locale: space, and the controls from tab to
    carriage return. *)
Definition isspace (c : ascii) : bool :=
  (char_code c =? 32) || ((9 <=? char_code c) && (char_code c <=? 13)).

Definition to_lower (c : ascii) : ascii :=
  if (65 <=? char_code c) && (char_code c <=? 90)
  then ascii_of_nat (char_code c + 32) else c.

Definition is_hex_digit (c : ascii) : bool :=
  is_digit c || ((97 <=? char_code (to_lower c)) && (char_code (to_lower c) <=? 102)).

Definition hex_digit_value (c : ascii) : Z :=
  if is_digit c then digit_value c else Z.of_nat (char_code (to_lower c)) - 87.

(** Characters allowed between the parentheses of [nan(...)]. *)
Definition is_nchar (c : ascii) : bool :=
  is_digit c || Ascii.eqb c "_"
  || ((97 <=? char_code (to_lower c)) && (char_code (to_lower c) <=? 122)).

Definition is_empty (s : string) : bool :=
  match s with EmptyString => true | String _ _ => false end.

(** The longest prefix whose characters satisfy [p], and what follows it. *)
Fixpoint span_while (p : ascii -> bool) (s : string) : string * string :=
  match s with
  | EmptyString => (EmptyString, EmptyString)
  | String c r =>
      if p c then let '(a, b) := span_while p r in (String c a, b)
      else (EmptyString, s)
  end.

(** Value of a run of digits in the given base, most significant first. *)
Fixpoint digits_value (base : Z) (dv : ascii -> Z) (s : string) (acc : Z) : Z :=
  match s with
  | EmptyString => acc
  | String c r => digits_value base dv r (acc * base + dv c)
  end.

Definition decimal (s : string) : Z := digits_value 10 digit_value s 0.
Definition hexadecimal (s : string) : Z := digits_value 16 hex_digit_value s 0.

(** * Column types *)

(** The integer types [std::from_chars] is overloaded for. *)
Inductive IntKind : Type :=
  | Char | SChar | UChar | Short | UShort | Int | UInt
  | Long | ULong | LongLong | ULongLong.

Inductive FloatKind : Type := Float | Double | LongDouble.

(** The types admitted by the concept [ColumnType]. *)
Inductive ColTy : Type :=
  | TInt (k : IntKind)
  | TFloat (k : FloatKind)
  | TString.

Global Instance IntKind_eq_dec : EqDecision IntKind.
Proof. solve_decision. Defined.
Global Instance FloatKind_eq_dec : EqDecision FloatKind.
Proof. solve_decision. Defined.
Global Instance ColTy_eq_dec : EqDecision ColTy.
Proof. solve_decision. Defined.

Definition is_signed (k : IntKind) : bool :=
  match k with
  | Char | SChar | Short | Int | Long | LongLong => true
  | UChar | UShort | UInt | ULong | ULongLong => false
  end.

Definition int_bits (k : IntKind) : Z :=
  match k with
  | Char | SChar | UChar => 8
  | Short | UShort => 16
  | Int | UInt => 32
  | Long | ULong | LongLong | ULongLong => 64
  end.

Definition int_min (k : IntKind) : Z :=
  if is_signed k then - 2 ^ (int_bits k - 1) else 0.

Definition int_max (k : IntKind) : Z :=
  if is_signed k then 2 ^ (int_bits k - 1) - 1 else 2 ^ int_bits k - 1.

(** A floating-point datum as [strtod] delivers it.  A finite number is
    kept as its sign and the exact magnitude of the numeral read (reduced
    fraction); rounding to the binary format is not represented. *)
Inductive fp_value : Type :=
  | Finite (neg : bool) (mag : Q)
  | Infinity (neg : bool)
  | NaN (neg : bool).

(** * Range errors of IEEE 754 binary formats

    An instance of the decision [errno == ERANGE] taken by the C library,
    used to run the loader on examples.  Overflow: the magnitude is not
    below the midpoint between the largest finite number and the next power
    of two.  Underflow: a nonzero magnitude below the smallest normal number
    that is not a multiple of the subnormal spacing.  ISO C leaves the report
    of underflow to the implementation, hence the loader below takes the
    decision as a parameter. *)

Definition fmt_prec (k : FloatKind) : Z :=
  match k with Float => 24 | Double => 53 | LongDouble => 64 end.

Definition fmt_emax (k : FloatKind) : Z :=
  match k with Float => 127 | Double => 1023 | LongDouble => 16383 end.

Definition Qpow (b : Z) (e : Z) : Q :=
  if (0 <=? e)%Z then inject_Z (b ^ e) else Qinv (inject_Z (b ^ (- e))).

Definition overflow_threshold (k : FloatKind) : Q :=
  Qmult (inject_Z (2 ^ (fmt_prec k + 1) - 1)) (Qpow 2 (fmt_emax k - fmt_prec k)).

Definition min_normal (k : FloatKind) : Q := Qpow 2 (1 - fmt_emax k).

Definition subnormal_step (k : FloatKind) : Q :=
  Qpow 2 (2 - fmt_emax k - fmt_prec k).

Definition is_multiple (q step : Q) : bool :=
  Pos.eqb (Qden (Qred (Qdiv q step))) 1.

Definition ieee_range_error (k : FloatKind) (mag : Q) : bool :=
  Qle_bool (overflow_threshold k) mag
  || (negb (Qle_bool mag 0) && negb (Qle_bool (min_normal k) mag)
      && negb (is_multiple mag (subnormal_step k))).

(** * Input streams *)

(** The part of a [std::istream] the loader depends on: the characters not
    yet read and two state flags ([badbit] is never set by a string or file
    buffer that reads successfully). *)
Record istream : Type := mk_istream {
  rdbuf : string;
  eofbit : bool;
  failbit : bool
}.

(** [std::istringstream s(text)], or a file stream just opened on [text]. *)
Definition open_on (text : string) : istream :=
  {| rdbuf := text; eofbit := false; failbit := false |}.

Definition good (s : istream) : bool := negb (eofbit s) && negb (failbit s).

Definition set_failbit (s : istream) : istream :=
  {| rdbuf := rdbuf s; eofbit := eofbit s; failbit := true |}.

(** Characters up to the delimiter; [Some rest] when the delimiter was met
    (and dropped), [None] when the input ended first. *)
Fixpoint read_until (delim : ascii) (buf : string) : string * option string :=
  match buf with
  | EmptyString => (EmptyString, None)
  | String c r =>
      if Ascii.eqb c delim then (EmptyString, Some r)
      else let '(a, b) := read_until delim r in (String c a, b)
  end.

(** [std::getline(s, str, delim)].  The sentry fails on a stream that is not
    [good()] and sets [failbit].  Otherwise characters are appended to the
    erased [str] until the delimiter (extracted and dropped) or the end of
    the input ([eofbit]); extracting nothing at all sets [failbit].  The
    call succeeds when [failbit] is clear afterwards ([operator bool]);
    every caller reads [str] only after a successful call, so the string
    is returned on success only. *)
Definition getline (s : istream) (delim : ascii) : istream * option string :=
  if good s then
    match read_until delim (rdbuf s) with
    | (str, Some rest) =>
        ({| rdbuf := rest; eofbit := false; failbit := false |}, Some str)
    | (str, None) =>
        if is_empty str
        then ({| rdbuf := EmptyString; eofbit := true; failbit := true |}, None)
        else ({| rdbuf := EmptyString; eofbit := true; failbit := false |}, Some str)
    end
  else (set_failbit s, None).

(** [s >> str] for a [std::string]: the sentry skips leading white space
    and fails (setting [eofbit] and [failbit]) when the input ends there;
    then the characters up to the next white space are extracted. *)
Definition extract_word (s : istream) : istream * option string :=
  if good s then
    match snd (span_while isspace (rdbuf s)) with
    | EmptyString =>
        ({| rdbuf := EmptyString; eofbit := true; failbit := true |}, None)
    | String c r =>
        let '(w, rest) := span_while (fun x => negb (isspace x)) (String c r) in
        ({| rdbuf := rest; eofbit := is_empty rest; failbit := false |}, Some w)
    end
  else (set_failbit s, None).

(** * Parsing one field *)

(** [std::errc] as far as [std::from_chars] produces it. *)
Inductive errc : Type := errc_ok | invalid_argument | result_out_of_range.

Global Instance errc_eq_dec : EqDecision errc.
Proof. solve_decision. Defined.

(** [std::from_chars(first, last, value)] in base 10 for the integer type
    [k]: an optional minus sign (signed types only) and a nonempty run of
    digits.  Returns the offset of [ptr] from [first], the error code and
    the content of [value] afterwards (unchanged unless the code is ok). *)
Definition from_chars (k : IntKind) (s : string) (value : Z) : nat * errc * Z :=
  let '(neg, body) :=
    match s with
    | String "-"%char r => if is_signed k then (true, r) else (false, s)
    | _ => (false, s)
    end in
  let '(ds, rest) := span_while is_digit body in
  if is_empty ds then (0, invalid_argument, value)
  else
    let v := if neg : bool then (- decimal ds)%Z else decimal ds in
    let ptr := String.length s - String.length rest in
    if ((int_min k <=? v) && (v <=? int_max k))%Z then (ptr, errc_ok, v)
    else (ptr, result_out_of_range, value).

(** [parse_value<T>] for an integral [T]. *)
Definition parse_value_integral (k : IntKind) (str : string) : Expected Z CsvError :=
  let '(ptr, ec, value) := from_chars k str 0%Z in
  if negb (bool_decide (ec = errc_ok)) || negb (ptr =? String.length str)
  then Unexpected ParseError
  else Value value.

(** [parse_value<T>] for [std::string]. *)
Definition parse_value_string (str : string) : Expected string CsvError :=
  Value str.

(** ** The subject sequence of [strtod] (ISO C 7.22.1.3) *)

Definition strip_sign (s : string) : bool * string :=
  match s with
  | String "-"%char r => (true, r)
  | String "+"%char r => (false, r)
  | _ => (false, s)
  end.

(** [pat] is in lower case; the rest of [s] after a match ignoring case. *)
Fixpoint match_nocase (pat s : string) : option string :=
  match pat with
  | EmptyString => Some s
  | String p pat' =>
      match s with
      | String c r => if Ascii.eqb (to_lower c) p then match_nocase pat' r else None
      | EmptyString => None
      end
  end.

(** An exponent part introduced by [marker] ([e] or [p]): it is read only
    when at least one digit follows the optional sign. *)
Definition scan_exponent (marker : ascii) (s : string) : Z * string :=
  match s with
  | String c r =>
      if Ascii.eqb (to_lower c) marker then
        let '(neg, r') := strip_sign r in
        let '(ds, rest) := span_while is_digit r' in
        if is_empty ds then (0%Z, s)
        else ((if neg : bool then - decimal ds else decimal ds)%Z, rest)
      else (0%Z, s)
  | EmptyString => (0%Z, s)
  end.

(** Digits with an optional radix point, at least one digit in all. *)
Definition scan_mantissa (isd : ascii -> bool) (s : string)
  : option (string * string * string) :=
  let '(ip, r1) := span_while isd s in
  let '(fp, r2) :=
    match r1 with
    | String "."%char r => span_while isd r
    | _ => (EmptyString, r1)
    end in
  if is_empty ip && is_empty fp then None else Some (ip, fp, r2).

Definition scan_decimal (s : string) : option (Q * string) :=
  match scan_mantissa is_digit s with
  | None => None
  | Some (ip, fp, r2) =>
      let '(e, r3) := scan_exponent "e" r2 in
      Some (Qred (Qmult (inject_Z (decimal (ip ++ fp)))
                        (Qpow 10 (e - Z.of_nat (String.length fp)))), r3)
  end.

Definition scan_hex (s : string) : option (Q * string) :=
  match match_nocase "0x" s with
  | None => None
  | Some r =>
      match scan_mantissa is_hex_digit r with
      | None => None
      | Some (ip, fp, r2) =>
          let '(e, r3) := scan_exponent "p" r2 in
          Some (Qred (Qmult (inject_Z (hexadecimal (ip ++ fp)))
                            (Qpow 2 (e - 4 * Z.of_nat (String.length fp)))), r3)
      end
  end.

(** After [nan]: an optional parenthesised run of letters, digits and
    underscores. *)
Definition scan_nan_payload (s : string) : string :=
  match s with
  | String "("%char r =>
      match snd (span_while is_nchar r) with
      | String ")"%char r' => r'
      | _ => s
      end
  | _ => s
  end.

Inductive subject : Type :=
  | SubjNumber (mag : Q)
  | SubjInfinity
  | SubjNaN.

(** The longest of the forms [infinity], [inf], [nan...], hexadecimal and
    decimal that starts the input (their first characters tell them
    apart, except that [0x] without a hexadecimal digit reads as [0]). *)
Definition scan_subject (s : string) : option (subject * string) :=
  match match_nocase "infinity" s with
  | Some r => Some (SubjInfinity, r)
  | None =>
  match match_nocase "inf" s with
  | Some r => Some (SubjInfinity, r)
  | None =>
  match match_nocase "nan" s with
  | Some r => Some (SubjNaN, scan_nan_payload r)
  | None =>
  match scan_hex s with
  | Some (q, r) => Some (SubjNumber q, r)
  | None =>
  match scan_decimal s with
  | Some (q, r) => Some (SubjNumber q, r)
  | None => None
  end end end end end.

Section FloatingPoint.

(** The C library's decision to report [ERANGE] for a finite magnitude
    converted to the given format. *)
Variable range_error : FloatKind -> Q -> bool.

(** [strtod], [strtof] and [strtold]: leading white space is skipped, an
    optional sign and the subject sequence are read.  Returns the value,
    the offset of [*endptr] from [nptr] (0 when no conversion is performed)
    and whether [errno] was set to [ERANGE]. *)
Definition strtod (k : FloatKind) (nptr : string) : fp_value * nat * bool :=
  let '(neg, s) := strip_sign (snd (span_while isspace nptr)) in
  match scan_subject s with
  | None => (Finite false 0, 0, false)
  | Some (subj, rest) =>
      let endptr := String.length nptr - String.length rest in
      match subj with
      | SubjNumber q => (Finite neg q, endptr, range_error k q)
      | SubjInfinity => (Infinity neg, endptr, false)
      | SubjNaN => (NaN neg, endptr, false)
      end
  end.

(** The character [*end] where [end] points into [str_copy.c_str()]: the
    terminating null character at the end of the string. *)
Definition deref (s : string) (off : nat) : ascii :=
  match String.get off s with Some c => c | None => zero end.

(** [parse_value<T>] for a floating-point [T]. *)
Definition parse_value_floating (k : FloatKind) (str : string)
  : Expected fp_value CsvError :=
  let '(value, end_, erange) := strtod k str in
  if (end_ =? 0) || negb (Ascii.eqb (deref str end_) zero)
  then Unexpected ParseError
  else if erange then Unexpected ParseError
  else Value value.

End FloatingPoint.

(** * The table *)

(** A datum of one of the column types, in a container [F]: a
    [std::vector] for a column, a [std::span] for a view, the bare value
    for an element of a row tuple. *)
Inductive Typed (F : Type -> Type) : Type :=
  | OfInt (k : IntKind) (x : F Z)
  | OfFloat (k : FloatKind) (x : F fp_value)
  | OfString (x : F string).
Arguments OfInt {F} k x.
Arguments OfFloat {F} k x.
Arguments OfString {F} x.

(** The values of a column type. *)
Definition denote (T : ColTy) : Type :=
  match T with TInt _ => Z | TFloat _ => fp_value | TString => string end.

Definition type_of {F} (x : Typed F) : ColTy :=
  match x with
  | OfInt k _ => TInt k
  | OfFloat k _ => TFloat k
  | OfString _ => TString
  end.

Definition typed_map {F G : Type -> Type} (f : forall A, F A -> G A)
    (x : Typed F) : Typed G :=
  match x with
  | OfInt k v => OfInt k (f _ v)
  | OfFloat k v => OfFloat k (f _ v)
  | OfString v => OfString (f _ v)
  end.

Definition typed_mapM {F G : Type -> Type} (f : forall A, F A -> option (G A))
    (x : Typed F) : option (Typed G) :=
  match x with
  | OfInt k v => OfInt k <$> f _ v
  | OfFloat k v => OfFloat k <$> f _ v
  | OfString v => OfString <$> f _ v
  end.

Definition typed_get {F : Type -> Type} {R : Type} (f : forall A, F A -> R)
    (x : Typed F) : R :=
  match x with
  | OfInt _ v => f _ v
  | OfFloat _ v => f _ v
  | OfString v => f _ v
  end.

(** [std::is_same_v<T, ColumnT>]: the content when the types agree. *)
Definition as_type {F : Type -> Type} (T : ColTy) (x : Typed F)
  : option (F (denote T)) :=
  match T as T0 return option (F (denote T0)) with
  | TInt k =>
      match x with
      | OfInt k' v => if decide (k = k') then Some v else None
      | _ => None
      end
  | TFloat k =>
      match x with
      | OfFloat k' v => if decide (k = k') then Some v else None
      | _ => None
      end
  | TString =>
      match x with
      | OfString v => Some v
      | _ => None
      end
  end.

(** A [std::vector<A>]: the identity of the vector object, which owns its
    elements, and the elements. *)
Record vector (A : Type) : Type := mk_vector {
  object_id : nat;
  elems : list A
}.
Arguments mk_vector {A} object_id elems.
Arguments object_id {A} v.
Arguments elems {A} v.

(** A [std::span<const A>]: the vector whose storage it designates, and
    the elements seen through it. *)
Record span (A : Type) : Type := mk_span {
  viewed : nat;
  span_elems : list A
}.
Arguments mk_span {A} viewed span_elems.
Arguments viewed {A} s.
Arguments span_elems {A} s.

Abbreviation Column := (Typed vector).
Abbreviation ColumnView := (Typed span).
Abbreviation Cell := (Typed (fun A => A)).

(** [Columnar<ColumnTypes...>]: the tuple of column vectors, the array of
    names and the row count. *)
Record Columnar : Type := mk_Columnar {
  columns_ : list Column;
  names_ : list string;
  row_count_ : nat
}.

(** [std::span{column}]. *)
Definition span_over {A} (v : vector A) : span A :=
  {| viewed := object_id v; span_elems := elems v |}.

(** [v.push_back(x)]. *)
Definition push_back {A} (v : vector A) (x : A) : vector A :=
  {| object_id := object_id v; elems := elems v ++ [x] |}.

(** The copy constructor of a vector: a new object with equal elements. *)
Definition copy_vector (id : nat) {A} (v : vector A) : vector A :=
  {| object_id := id; elems := elems v |}.

Definition col_id (c : Column) : nat := typed_get (@object_id) c.
Definition col_size (c : Column) : nat := typed_get (fun A v => length (elems v)) c.

(** A default-constructed [std::vector<T>]. *)
Definition empty_column (T : ColTy) (id : nat) : Column :=
  match T with
  | TInt k => OfInt k (mk_vector id [])
  | TFloat k => OfFloat k (mk_vector id [])
  | TString => OfString (mk_vector id [])
  end.

(** [Columnar<ColumnTypes...> result;] where [fresh] is the first object
    identity not in use: empty vectors, empty names, no rows. *)
Definition default_construct (tys : list ColTy) (fresh : nat) : Columnar :=
  {| columns_ := imap (fun i T => empty_column T (fresh + i)) tys;
     names_ := replicate (length tys) EmptyString;
     row_count_ := 0 |}.

(** The copy constructor of the table, run by [Expected(const T&)]. *)
Definition copy_construct (t : Columnar) (fresh : nat) : Columnar :=
  {| columns_ := imap (fun i c => typed_map (@copy_vector (fresh + i)) c) (columns_ t);
     names_ := names_ t;
     row_count_ := row_count_ t |}.

Definition num_rows (t : Columnar) : nat := row_count_ t.

(** [kColumnCount], the size of the tuple of columns. *)
Definition num_cols (t : Columnar) : nat := length (columns_ t).

Definition column_names (t : Columnar) : list string := names_ t.

(** * Loading *)

(** What a path designates: the content of a file that can be opened. *)
Definition filesystem : Type := string -> option string.

Definition kCsvDelimiter : ascii := ",".
Definition newline : ascii := ascii_of_nat 10.

(** The header loop: [while (std::getline(header_stream, name, ','))].
    Each round that continues has extracted at least one character, so as
    many rounds as the line has characters, plus one, are enough; [None]
    is the loop cut short. *)
Fixpoint header_loop (fuel : nat) (kColumnCount : nat) (header_stream : istream)
    (col_idx : nat) (names : list string)
  : option (Expected (list string * nat) CsvError) :=
  match fuel with
  | 0 => None
  | S fuel' =>
      match getline header_stream kCsvDelimiter with
      | (_, None) => Some (Value (names, col_idx))
      | (header_stream', Some name) =>
          if kColumnCount <=? col_idx then Some (Unexpected InvalidFormat)
          else header_loop fuel' kColumnCount header_stream' (S col_idx)
                           (<[col_idx := name]> names)
      end
  end.

Section Loading.

(** The C library's decision to report [ERANGE], as above. *)
Variable range_error : FloatKind -> Q -> bool.

(** The body of the fold over the column positions: read the next field,
    parse it at the type of the column, append it to the column. *)
Definition parse_field (c : Column) (row_stream : istream)
  : bool * istream * Column :=
  match getline row_stream kCsvDelimiter with
  | (row_stream', None) => (false, row_stream', c)
  | (row_stream', Some value_str) =>
      match c with
      | OfInt k v =>
          match parse_value_integral k value_str with
          | Unexpected _ => (false, row_stream', c)
          | Value parsed => (true, row_stream', OfInt k (push_back v parsed))
          end
      | OfFloat k v =>
          match parse_value_floating range_error k value_str with
          | Unexpected _ => (false, row_stream', c)
          | Value parsed => (true, row_stream', OfFloat k (push_back v parsed))
          end
      | OfString v =>
          match parse_value_string value_str with
          | Unexpected _ => (false, row_stream', c)
          | Value parsed => (true, row_stream', OfString (push_back v parsed))
          end
      end
  end.

(** [((success = success && body<Is>()), ...)]: once a field has failed the
    remaining bodies are not run. *)
Fixpoint parse_fields (cols : list Column) (success : bool) (row_stream : istream)
  : bool * istream * list Column :=
  match cols with
  | [] => (success, row_stream, [])
  | c :: cols' =>
      if success then
        let '(ok, row_stream', c') := parse_field c row_stream in
        let '(s, rs, cs) := parse_fields cols' ok row_stream' in
        (s, rs, c' :: cs)
      else
        let '(s, rs, cs) := parse_fields cols' false row_stream in
        (s, rs, c :: cs)
  end.

(** One data line: the fields, then [if (row_stream >> value_str) return
    false]. *)
Definition parse_row (cols : list Column) (line : string) : bool * list Column :=
  let '(success, row_stream, cols') := parse_fields cols true (open_on line) in
  match extract_word row_stream with
  | (_, Some _) => (false, cols')
  | (_, None) => (success, cols')
  end.

(** The loop over the data lines: [while (std::getline(file, line))]. *)
Fixpoint read_rows (fuel : nat) (file : istream) (result : Columnar)
  : option (Expected Columnar CsvError) :=
  match fuel with
  | 0 => None
  | S fuel' =>
      match getline file newline with
      | (_, None) => Some (Value result)
      | (file', Some line) =>
          if is_empty line then read_rows fuel' file' result
          else
            let '(parse_success, cols) := parse_row (columns_ result) line in
            if negb parse_success then Some (Unexpected ParseError)
            else read_rows fuel' file'
                   {| columns_ := cols;
                      names_ := names_ result;
                      row_count_ := S (row_count_ result) |}
      end
  end.

(** [Columnar<ColumnTypes...>::try_read_from_csv(filepath)], for the
    column types [tys], with [fresh] the first object identity not in use.
    [None] would be a loop cut short, which does not happen. *)
Definition try_read_from_csv (tys : list ColTy) (fs : filesystem)
    (filepath : string) (fresh : nat) : option (Expected Columnar CsvError) :=
  match fs filepath with
  | None => Some (Unexpected FileNotFound)
  | Some content =>
      let result := default_construct tys fresh in
      match getline (open_on content) newline with
      | (_, None) => Some (Unexpected InvalidFormat)
      | (file, Some line) =>
          if is_empty line then Some (Unexpected InvalidFormat)
          else
            match header_loop (S (String.length line)) (length tys)
                              (open_on line) 0 (names_ result) with
            | None => None
            | Some (Unexpected e) => Some (Unexpected e)
            | Some (Value (names, col_idx)) =>
                if negb (col_idx =? length tys)
                then Some (Unexpected InvalidFormat)
                else
                  match read_rows (S (String.length content)) file
                          {| columns_ := columns_ result;
                             names_ := names;
                             row_count_ := row_count_ result |} with
                  | Some (Value r) =>
                      Some (Value (copy_construct r (fresh + length tys)))
                  | other => other
                  end
            end
      end
  end.

End Loading.

(** * Access *)

(** [get_column_view<I>()]: the view over the column at position [I].
    [static_assert(I < kColumnCount)] rejects any other position when the
    program is compiled; [None] stands for such a rejected program. *)
Definition get_column_view_at (I : nat) (t : Columnar) : option ColumnView :=
  typed_map (@span_over) <$> columns_ t !! I.

(** [get_column_view<T>(name)].  [std::find] gives the first position
    holding the name; the fold over the positions assigns [result] at that
    position when the column type is [T]; a [result] left at its initial
    [ColumnNotFound] is turned into [ParseError]. *)
Definition get_column_view (T : ColTy) (name : string) (t : Columnar)
  : Expected (span (denote T)) CsvError :=
  match list_find (fun n => n = name) (names_ t) with
  | None => Unexpected ColumnNotFound
  | Some (index, _) =>
      let result :=
        match get_column_view_at index t with
        | Some view =>
            match as_type T view with
            | Some s => Value s
            | None => Unexpected ColumnNotFound
            end
        | None => Unexpected ColumnNotFound
        end in
      match result with
      | Unexpected ColumnNotFound => Unexpected ParseError
      | _ => result
      end
  end.

(** [get_row(index)].  Subscripting a vector past its end has undefined
    behaviour: [None]. *)
Definition get_row (index : nat) (t : Columnar)
  : option (Expected (list Cell) CsvError) :=
  if row_count_ t <=? index then Some (Unexpected RowIndexOutOfBounds)
  else
    Value <$> mapM (typed_mapM (F := vector) (G := fun A => A)
                      (fun A v => elems v !! index))
                   (columns_ t).

(** * Filtering *)

(** [for (size_t i = 0; i < row_count_; ++i) if (predicate(column[i]))
    indices_to_keep.push_back(i);] over the positions [rows] still to
    visit.  Subscripting the span past its end is undefined: [None]. *)
Fixpoint select_rows {A} (predicate : A -> bool) (column_to_filter : span A)
    (rows : list nat) (indices_to_keep : list nat) : option (list nat) :=
  match rows with
  | [] => Some indices_to_keep
  | i :: rows' =>
      x ← span_elems column_to_filter !! i;
      select_rows predicate column_to_filter rows'
        (if predicate x then indices_to_keep ++ [i] else indices_to_keep)
  end.

(** [for (size_t idx : indices_to_keep) dst_column.push_back(src_column[idx])]
    into the empty vector [dst] of the result. *)
Definition gather {A} (indices_to_keep : list nat) (dst : nat) (src_column : vector A)
  : option (vector A) :=
  mk_vector dst <$> mapM (fun idx => elems src_column !! idx) indices_to_keep.

(** [filter<T>(column_name, predicate)], with [fresh] the first object
    identity not in use.  [None] is undefined behaviour. *)
Definition filter (T : ColTy) (column_name : string) (predicate : denote T -> bool)
    (t : Columnar) (fresh : nat) : option (Expected Columnar CsvError) :=
  match get_column_view T column_name t with
  | Unexpected e => Some (Unexpected e)
  | Value column_to_filter =>
      indices_to_keep ←
        select_rows predicate column_to_filter (seq 0 (row_count_ t)) [];
      columns ←
        mapM (fun '(i, src) =>
                typed_mapM (F := vector) (G := vector)
                           (fun A => gather indices_to_keep (fresh + i)) src)
             (imap (fun i src => (i, src)) (columns_ t));
      Some (Value (copy_construct
                     {| columns_ := columns;
                        names_ := names_ t;
                        row_count_ := length indices_to_keep |}
                     (fresh + num_cols t)))
  end.

(** * Notions used to state the properties *)

(** The strings that successive calls of [std::getline] with delimiter
    [delim] deliver on the text [s]: the pieces between delimiters, where a
    delimiter that ends the text does not open a further, empty piece. *)
Fixpoint pieces (delim : ascii) (s : string) : list string :=
  match s with
  | EmptyString => []
  | String c r =>
      if Ascii.eqb c delim then EmptyString :: pieces delim r
      else
        match pieces delim r with
        | [] => [String c EmptyString]
        | p :: ps => String c p :: ps
        end
  end.

Definition lines_of (content : string) : list string := pieces newline content.
Definition fields_of (line : string) : list string := pieces kCsvDelimiter line.

(** A blank line is an empty one; the others are the data lines that
    count. *)
Definition nonblank (lines : list string) : list string :=
  List.filter (fun l => negb (is_empty l)) lines.

(** What is left of a line once [n] fields and their delimiters are
    taken away. *)
Fixpoint remainder (n : nat) (line : string) : string :=
  match n with
  | 0 => line
  | S n' =>
      match read_until kCsvDelimiter line with
      | (_, Some r) => remainder n' r
      | (_, None) => EmptyString
      end
  end.

Fixpoint all_space (s : string) : bool :=
  match s with
  | EmptyString => true
  | String c r => isspace c && all_space r
  end.

(** The pieces a stream has still to deliver. *)
Definition stream_pieces (delim : ascii) (s : istream) : list string :=
  if good s then pieces delim (rdbuf s) else [].

Definition stream_remainder (n : nat) (s : istream) : string :=
  if good s then remainder n (rdbuf s) else EmptyString.

(** The elements of a column, of a view and of a row as tagged values. *)
Definition column_cells (c : Column) : list Cell :=
  match c with
  | OfInt k v => OfInt (F := fun A => A) k <$> elems v
  | OfFloat k v => OfFloat (F := fun A => A) k <$> elems v
  | OfString v => OfString (F := fun A => A) <$> elems v
  end.

Definition view_cells (s : ColumnView) : list Cell :=
  match s with
  | OfInt k v => OfInt (F := fun A => A) k <$> span_elems v
  | OfFloat k v => OfFloat (F := fun A => A) k <$> span_elems v
  | OfString v => OfString (F := fun A => A) <$> span_elems v
  end.

(** [c.push_back(x)] for a value of the column's type. *)
Definition push_cell (c : Column) (x : Cell) : Column :=
  match c, x with
  | OfInt k v, OfInt _ z => OfInt k (push_back v z)
  | OfFloat k v, OfFloat _ q => OfFloat k (push_back v q)
  | OfString v, OfString s => OfString (push_back v s)
  | _, _ => c
  end.

(** One more row in every column. *)
Definition append_row (t : Columnar) (row : list Cell) : Columnar :=
  {| columns_ := zip_with push_cell (columns_ t) row;
     names_ := names_ t;
     row_count_ := S (row_count_ t) |}.

(** The table as a matrix of tagged values, column by column. *)
Definition contents (t : Columnar) : list (list Cell) :=
  column_cells <$> columns_ t.

(** The table the loader hands over for the header fields [names] and the
    converted data lines [rows]: built in the vectors of [result], then
    copied into the returned [Expected]. *)
Definition table_of_rows (tys : list ColTy) (names : list string)
    (rows : list (list Cell)) (fresh : nat) : Columnar :=
  copy_construct
    (foldl append_row
       {| columns_ := columns_ (default_construct tys fresh);
          names_ := names;
          row_count_ := 0 |}
       rows)
    (fresh + length tys).

(** A value of the type [T] as a tagged value. *)
Definition tag (T : ColTy) : denote T -> Cell :=
  match T as T0 return denote T0 -> Cell with
  | TInt k => fun z => OfInt k z
  | TFloat k => fun x => OfFloat k x
  | TString => fun s => OfString s
  end.

(** Position [i] is the first one whose name is [name]. *)
Definition first_named (name : string) (t : Columnar) (i : nat) : Prop :=
  names_ t !! i = Some name /\ forall j, j < i -> names_ t !! j <> Some name.

(** The elements of [col] at the positions [idxs], in that order. *)
Definition pick {A} (idxs : list nat) (col : list A) : option (list A) :=
  mapM (fun i => col !! i) idxs.

(** The table holds the rows [rows] of the types [tys]. *)
Record holds_rows (tys : list ColTy) (rows : list (list Cell)) (t : Columnar)
  : Prop := {
  hr_types : type_of <$> columns_ t = tys;
  hr_count : row_count_ t = length rows;
  hr_sizes : Forall (fun col => length col = length rows) (contents t);
  hr_rows : forall i r, rows !! i = Some r ->
            mapM (fun col => col !! i) (contents t) = Some r
}.

(** The class invariant for the column types [tys]: the tuple of columns
    and the array of names have the shape the types dictate, and every
    column holds [row_count_] elements. *)
Record well_formed (tys : list ColTy) (t : Columnar) : Prop := {
  wf_types : type_of <$> columns_ t = tys;
  wf_names : length (names_ t) = length tys;
  wf_sizes : Forall (fun c => col_size c = row_count_ t) (columns_ t)
}.

(** Whether the predicate holds on the element at position [i] of a view. *)
Definition holds_at {A} (predicate : A -> bool) (view : span A) (i : nat) : bool :=
  match span_elems view !! i with
  | Some x => predicate x
  | None => false
  end.

Section Conversion.

Variable range_error : FloatKind -> Q -> bool.

(** A field converted at a column type: the three overloads of
    [parse_value]. *)
Definition convert (T : ColTy) (field : string) : option Cell :=
  match T with
  | TInt k =>
      match parse_value_integral k field with
      | Value z => Some (OfInt k z)
      | Unexpected _ => None
      end
  | TFloat k =>
      match parse_value_floating range_error k field with
      | Value x => Some (OfFloat k x)
      | Unexpected _ => None
      end
  | TString =>
      match parse_value_string field with
      | Value s => Some (OfString s)
      | Unexpected _ => None
      end
  end.

(** The fields of a line converted at the types of the columns, when
    there are enough of them. *)
Definition convert_fields (tys : list ColTy) (fs : list string) : option (list Cell) :=
  if length fs <? length tys then None
  else mapM (fun '(T, field) => convert T field) (zip tys fs).

(** A data line converted as a whole: a field for every column, each one
    converted at the type of its column, and nothing but white space after
    them. *)
Definition convert_row (tys : list ColTy) (line : string) : option (list Cell) :=
  if length (fields_of line) <? length tys then None
  else
    cells ← mapM (fun '(T, field) => convert T field) (zip tys (fields_of line));
    if all_space (remainder (length tys) line) then Some cells else None.

(** The outcome of loading, decided line by line: the file must open,
    start with a nonempty header of as many fields as there are columns,
    and every data line that is not blank must convert. *)
Definition load_outcome (tys : list ColTy) (file : option string) (fresh : nat)
  : Expected Columnar CsvError :=
  match file with
  | None => Unexpected FileNotFound
  | Some content =>
      match lines_of content with
      | [] => Unexpected InvalidFormat
      | header :: data =>
          if is_empty header then Unexpected InvalidFormat
          else if decide (length (fields_of header) = length tys) then
            match mapM (convert_row tys) (nonblank data) with
            | Some rows => Value (table_of_rows tys (fields_of header) rows fresh)
            | None => Unexpected ParseError
            end
          else Unexpected InvalidFormat
      end
  end.

End Conversion.

(** The array of names after the header loop has stored the fields [fs]
    from position [idx] on. *)
Fixpoint assign_names (idx : nat) (fs : list string) (names : list string)
  : list string :=
  match fs with
  | [] => names
  | f :: fs' => assign_names (S idx) fs' (<[idx := f]> names)
  end.

(** * Example files *)

Definition lf : string := String newline EmptyString.

(** The text whose lines are [ls], each ended by a line feed. *)
Definition unlines (ls : list string) : string :=
  fold_right (fun l text => l ++ lf ++ text) EmptyString ls.

(** The data files of the test suite, and a few more. *)
Definition example_fs : filesystem := fun path =>
  if String.eqb path "data/simple.csv"
  then Some (unlines ["id,value"; "1,10"; "2,20"; "3,30"; "4,40"; "5,50"])
  else if String.eqb path "data/empty_with_header.csv"
  then Some (unlines ["id,value"])
  else if String.eqb path "data/empty.csv"
  then Some EmptyString
  else if String.eqb path "data/trailing_space.csv"
  then Some (unlines ["id,value"; "1,10, "])
  else if String.eqb path "data/trailing_comma.csv"
  then Some (unlines ["id,value"; "1,10,"])
  else if String.eqb path "data/extra_field.csv"
  then Some (unlines ["id,value"; "1,10,7"])
  else if String.eqb path "data/twins.csv"
  then Some (unlines ["x,x"; "1,2.5"; "2,3.5"])
  else if String.eqb path "data/leading_space.csv"
  then Some (unlines ["energy"; " 1.5"])
  else None.

(** [Columnar<int, int>] loaded from [data/simple.csv] when no object
    exists yet. *)
Definition simple_table : Columnar :=
  {| columns_ := [OfInt Int (mk_vector 2 [1; 2; 3; 4; 5]%Z);
                  OfInt Int (mk_vector 3 [10; 20; 30; 40; 50]%Z)];
     names_ := ["id"; "value"];
     row_count_ := 5 |}.

(** [Columnar<int, double>] loaded from [data/twins.csv]: two columns
    under one name. *)
Definition twins_table : Columnar :=
  {| columns_ := [OfInt Int (mk_vector 2 [1; 2]%Z);
                  OfFloat Double
                    (mk_vector 3 [Finite false (5 # 2); Finite false (7 # 2)])];
     names_ := ["x"; "x"];
     row_count_ := 2 |}.

(** * Further notions *)

(** Every character of the string satisfies [p]. *)
Fixpoint string_forall (p : ascii -> bool) (s : string) : bool :=
  match s with
  | EmptyString => true
  | String c r => p c && string_forall p r
  end.

(** The last character of the string is [c]. *)
Fixpoint ends_with (c : ascii) (s : string) : bool :=
  match s with
  | EmptyString => false
  | String x EmptyString => Ascii.eqb x c
  | String _ r => ends_with c r
  end.

(** Splitting a text on a delimiter in the ordinary sense: one field more
    than the text has delimiters, so that a delimiter at the end of the
    text is followed by an empty field.  This is how "split on the
    delimiter" reads; what the loops over [std::getline] deliver is
    [pieces]. *)
Fixpoint split_on (delim : ascii) (s : string) : list string :=
  match s with
  | EmptyString => [EmptyString]
  | String c r =>
      if Ascii.eqb c delim then EmptyString :: split_on delim r
      else
        match split_on delim r with
        | [] => [String c EmptyString]
        | p :: ps => String c p :: ps
        end
  end.

(** [str] is a decimal numeral of [z] that the integer type [k] takes: a
    minus sign, for the signed types only, and one or more digits, with
    nothing before or after, denoting a number in the range of [k]. *)
Definition integer_numeral (k : IntKind) (str : string) (z : Z) : Prop :=
  exists (neg : bool) (ds : string),
    str = (if neg then "-" else "") ++ ds
    /\ ds <> EmptyString
    /\ string_forall is_digit ds = true
    /\ (neg = true -> is_signed k = true)
    /\ z = (if neg then - decimal ds else decimal ds)%Z
    /\ (int_min k <= z <= int_max k)%Z.

(** No character of the string is white space; none is the null
    character that ends a C string. *)
Definition no_space (s : string) : bool :=
  string_forall (fun c => negb (isspace c)) s.

Definition no_null (s : string) : bool :=
  string_forall (fun c => negb (Ascii.eqb c zero)) s.

(** The table [t'] has the names and the column types of [t], and in
    every column the elements of the column of [t] at the positions
    [kept], in that order. *)
Definition picked_from (kept : list nat) (t t' : Columnar) : Prop :=
  row_count_ t' = length kept
  /\ names_ t' = names_ t
  /\ Forall2 (fun c c' => type_of c' = type_of c
                          /\ pick kept (column_cells c) = Some (column_cells c'))
             (columns_ t) (columns_ t').

(** * More example files *)

(** The carriage return that precedes the line feed in a CR LF line
    ending. *)
Definition cr : string := String (ascii_of_nat 13) EmptyString.

(** Files that differ in what the loader does not look at, and files with
    white space where a numeral should end. *)
Definition more_fs : filesystem := fun path =>
  if String.eqb path "data/two_rows.csv"
  then Some (unlines ["id,value"; "1,10"; "2,20"])
  else if String.eqb path "data/empty_lines.csv"
  then Some (unlines ["id,value"; ""; "1,10"; ""; ""; "2,20"; ""])
  else if String.eqb path "data/no_final_line_feed.csv"
  then Some ("id,value" ++ lf ++ "1,10" ++ lf ++ "2,20")
  else if String.eqb path "data/header_comma.csv"
  then Some (unlines ["id,value,"; "1,10"; "2,20"])
  else if String.eqb path "data/white_line.csv"
  then Some (unlines ["id,value"; "1,10"; "  "])
  else if String.eqb path "data/crlf.csv"
  then Some (unlines ["id,value" ++ cr; "1,10" ++ cr])
  else None.

(** A data line that ends with a comma, for a table whose last column
    holds strings. *)
Definition final_comma_fs : filesystem := fun path =>
  if String.eqb path "data/final_comma.csv"
  then Some (unlines ["id,name"; "1,"])
  else None.

(** * Streams and pieces *)

Lemma read_until_pieces (d : ascii) (s : string) :
  s ≠ EmptyString ->
  match read_until d s with
  | (str, Some rest) => pieces d s = str :: pieces d rest
  | (str, None) => pieces d s = [str] /\ str ≠ EmptyString
  end.
Proof.
  induction s as [|c r IH]; [done|]. intros _. simpl.
  destruct (Ascii.eqb c d); [done|].
  destruct r as [|c' r'].
  - simpl. done.
  - specialize (IH ltac:(done)).
    destruct (read_until d (String c' r')) as [a [b|]].
    + by rewrite IH.
    + destruct IH as [-> _]. done.
Qed.

Lemma read_until_length (d : ascii) (s : string) :
  match read_until d s with
  | (str, Some rest) => String.length rest < String.length s
  | (str, None) => True
  end.
Proof.
  induction s as [|c r IH]; [done|]. simpl.
  destruct (Ascii.eqb c d); [lia|].
  destruct (read_until d r) as [a [b|]]; [lia|done].
Qed.

(** A successful [getline] delivers the next piece and leaves the others. *)
Lemma getline_Some (s s' : istream) (d : ascii) (x : string) :
  getline s d = (s', Some x) ->
  stream_pieces d s = x :: stream_pieces d s'
  /\ String.length (rdbuf s') < String.length (rdbuf s).
Proof.
  unfold getline, stream_pieces.
  destruct (good s) eqn:Hg; [|done].
  destruct (rdbuf s) as [|c r] eqn:Hbuf; [done|].
  pose proof (read_until_pieces d (String c r) ltac:(done)) as Hp.
  pose proof (read_until_length d (String c r)) as Hl.
  destruct (read_until d (String c r)) as [str [rest|]] eqn:Hr.
  - intros [= <- <-]. simpl. done.
  - destruct Hp as [Hp Hne]. destruct str; [done|].
    intros [= <- <-]. simpl. split; [done|lia].
Qed.

Lemma getline_remainder (s s' : istream) (x : string) (n : nat) :
  getline s kCsvDelimiter = (s', Some x) ->
  stream_remainder (S n) s = stream_remainder n s'.
Proof.
  unfold getline, stream_remainder.
  destruct (good s) eqn:Hg; [|done].
  cbn [remainder].
  destruct (read_until kCsvDelimiter (rdbuf s)) as [str [rest|]] eqn:Hr.
  - intros [= <- <-]. done.
  - destruct (is_empty str); [done|]. intros [= <- <-]. done.
Qed.

(** A failed [getline] means that no piece was left, and leaves the stream
    failed. *)
Lemma getline_None (s s' : istream) (d : ascii) :
  getline s d = (s', None) ->
  stream_pieces d s = [] /\ failbit s' = true.
Proof.
  unfold getline, stream_pieces.
  destruct (good s) eqn:Hg; [|by intros [= <-]].
  destruct (rdbuf s) as [|c r] eqn:Hbuf.
  - simpl. by intros [= <-].
  - pose proof (read_until_pieces d (String c r) ltac:(done)) as Hp.
    destruct (read_until d (String c r)) as [str [rest|]]; [done|].
    destruct Hp as [_ Hne]. by destruct str.
Qed.

Lemma span_while_all_space (s : string) :
  is_empty (snd (span_while isspace s)) = all_space s.
Proof.
  induction s as [|c r IH]; [done|]. simpl.
  destruct (isspace c); [|done]. simpl.
  destruct (span_while isspace r). done.
Qed.

(** [row_stream >> value_str] succeeds exactly when something other than
    white space is left on the stream. *)
Lemma extract_word_spec (s : istream) :
  snd (extract_word s) = None <-> all_space (stream_remainder 0 s) = true.
Proof.
  unfold extract_word, stream_remainder.
  destruct (good s); [|done]. cbn [remainder].
  rewrite <- span_while_all_space.
  destruct (snd (span_while isspace (rdbuf s))) as [|c r]; [done|].
  destruct (span_while _ (String c r)). simpl. done.
Qed.

(** * The header loop *)

Lemma assign_names_spec (fs : list string) (idx : nat) (names : list string) :
  idx + length fs <= length names ->
  assign_names idx fs names
  = (take idx names ++ fs ++ drop (idx + length fs) names)%list.
Proof.
  revert idx names. induction fs as [|f fs IH]; intros idx names Hlen; simpl in *.
  - by rewrite Nat.add_0_r, take_drop.
  - rewrite IH by (rewrite length_insert; lia).
    rewrite drop_insert_lt by lia.
    assert (is_Some (names !! idx)) as [x Hx] by (apply lookup_lt_is_Some; lia).
    rewrite (take_S_r (<[idx:=f]> names) idx f)
      by (apply list_lookup_insert_eq; lia).
    rewrite take_insert_ge by lia.
    rewrite <- app_assoc. simpl.
    by rewrite Nat.add_succ_r.
Qed.

Lemma assign_names_all (fs names : list string) :
  length fs = length names -> assign_names 0 fs names = fs.
Proof.
  intros Hlen. rewrite assign_names_spec by (simpl; lia). simpl.
  rewrite drop_ge by lia. by rewrite app_nil_r.
Qed.

(** With fuel beyond the length of the text, the header loop ends: it
    stores the pieces when they are at most [n], and fails otherwise. *)
Lemma header_loop_spec (fuel n : nat) (hs : istream) (idx : nat) (names : list string) :
  String.length (rdbuf hs) < fuel ->
  idx <= n ->
  header_loop fuel n hs idx names =
  Some (if decide (idx + length (stream_pieces kCsvDelimiter hs) <= n)
        then Value (assign_names idx (stream_pieces kCsvDelimiter hs) names,
                    idx + length (stream_pieces kCsvDelimiter hs))
        else Unexpected InvalidFormat).
Proof.
  revert hs idx names.
  induction fuel as [|fuel IH]; intros hs idx names Hfuel Hidx; [lia|].
  simpl. destruct (getline hs kCsvDelimiter) as [hs' [name|]] eqn:Hg.
  - apply getline_Some in Hg as [-> Hlen]. simpl.
    destruct (Nat.leb_spec n idx).
    + rewrite decide_False by lia. done.
    + rewrite IH by lia.
      replace (S idx + length (stream_pieces kCsvDelimiter hs'))
        with (idx + S (length (stream_pieces kCsvDelimiter hs'))) by lia.
      done.
  - apply getline_None in Hg as [-> _]. simpl.
    rewrite Nat.add_0_r. by rewrite decide_True by lia.
Qed.

(** * One data line *)

Section RowProperties.

Variable range_error : FloatKind -> Q -> bool.


Lemma convert_type (T : ColTy) (field : string) (x : Cell) :
  convert range_error T field = Some x -> type_of x = T.
Proof.
  destruct T as [k|k|]; simpl.
  - destruct (parse_value_integral k field); by intros [= <-].
  - destruct (parse_value_floating range_error k field); by intros [= <-].
  - by intros [= <-].
Qed.

Lemma push_cell_type (c : Column) (x : Cell) : type_of (push_cell c x) = type_of c.
Proof. by destruct c, x. Qed.

Lemma parse_field_spec (c : Column) (rs : istream) :
  parse_field range_error c rs =
  match getline rs kCsvDelimiter with
  | (rs', None) => (false, rs', c)
  | (rs', Some field) =>
      match convert range_error (type_of c) field with
      | Some x => (true, rs', push_cell c x)
      | None => (false, rs', c)
      end
  end.
Proof.
  unfold parse_field. destruct (getline rs kCsvDelimiter) as [rs' [field|]]; [|done].
  destruct c as [k v|k v|v]; simpl.
  - by destruct (parse_value_integral k field).
  - by destruct (parse_value_floating range_error k field).
  - done.
Qed.

Lemma parse_fields_false (cols : list Column) (rs : istream) :
  parse_fields range_error cols false rs = (false, rs, cols).
Proof. induction cols as [|c cols IH]; [done|]. simpl. by rewrite IH. Qed.

Lemma convert_fields_nil (T : ColTy) (tys : list ColTy) :
  convert_fields range_error (T :: tys) [] = None.
Proof. done. Qed.

Lemma convert_fields_cons (T : ColTy) (tys : list ColTy) (f : string)
    (fs : list string) :
  convert_fields range_error (T :: tys) (f :: fs) =
  x ← convert range_error T f;
  cells ← convert_fields range_error tys fs;
  Some (x :: cells).
Proof.
  unfold convert_fields.
  change (length (f :: fs) <? length (T :: tys)) with (length fs <? length tys).
  destruct (length fs <? length tys); simpl.
  - by destruct (convert range_error T f).
  - done.
Qed.

Lemma parse_fields_spec (cols : list Column) (rs : istream) :
  match parse_fields range_error cols true rs with
  | (success, rs', cols') =>
      match convert_fields range_error (type_of <$> cols)
                           (stream_pieces kCsvDelimiter rs) with
      | Some cells =>
          success = true /\ cols' = zip_with push_cell cols cells
          /\ stream_remainder 0 rs' = stream_remainder (length cols) rs
      | None => success = false
      end
  end.
Proof.
  revert rs. induction cols as [|c cols IH]; intros rs.
  - done.
  - cbn [parse_fields]. rewrite parse_field_spec.
    destruct (getline rs kCsvDelimiter) as [rs' [field|]] eqn:Hg.
    + pose proof (getline_remainder _ _ _ (length cols) Hg) as Hrem.
      apply getline_Some in Hg as [-> _].
      rewrite fmap_cons, convert_fields_cons.
      destruct (convert range_error (type_of c) field) as [x|] eqn:Hc.
      * specialize (IH rs').
        destruct (parse_fields range_error cols true rs') as [[s rs''] cols'].
        destruct (convert_fields range_error (type_of <$> cols)
                                 (stream_pieces kCsvDelimiter rs'))
          as [cells|]; simpl; [|done].
        destruct IH as (-> & -> & ->). by rewrite Hrem.
      * rewrite parse_fields_false. done.
    + apply getline_None in Hg as [-> _].
      rewrite parse_fields_false. done.
Qed.

Lemma convert_fields_shape (tys : list ColTy) (fs : list string) (cells : list Cell) :
  convert_fields range_error tys fs = Some cells -> type_of <$> cells = tys.
Proof.
  unfold convert_fields. destruct (Nat.ltb_spec (length fs) (length tys)); [done|].
  revert fs cells H. induction tys as [|T tys IH]; intros fs cells Hlen.
  - simpl. by intros [= <-].
  - destruct fs as [|f fs]; [simpl in Hlen; lia|]. simpl.
    destruct (convert range_error T f) as [x|] eqn:Hc; [|done]. simpl.
    destruct (mapM _ (zip tys fs)) as [cells'|] eqn:Hm; [|done]. simpl.
    intros [= <-]. simpl. f_equal; [by eapply convert_type|].
    eapply IH; [|done]. simpl in Hlen. lia.
Qed.

Lemma convert_row_fields (tys : list ColTy) (line : string) :
  convert_row range_error tys line =
  cells ← convert_fields range_error tys (fields_of line);
  if all_space (remainder (length tys) line) then Some cells else None.
Proof.
  unfold convert_row, convert_fields.
  by destruct (length (fields_of line) <? length tys).
Qed.

(** A data line is taken exactly when it converts as a whole, and then
    every column has received its value. *)
Lemma parse_row_spec (cols : list Column) (line : string) :
  match parse_row range_error cols line with
  | (success, cols') =>
      match convert_row range_error (type_of <$> cols) line with
      | Some cells => success = true /\ cols' = zip_with push_cell cols cells
      | None => success = false
      end
  end.
Proof.
  unfold parse_row. rewrite convert_row_fields.
  pose proof (parse_fields_spec cols (open_on line)) as Hf.
  destruct (parse_fields range_error cols true (open_on line)) as [[s rs'] cols'].
  change (stream_pieces kCsvDelimiter (open_on line)) with (fields_of line) in Hf.
  pose proof (extract_word_spec rs') as Hw.
  destruct (convert_fields range_error (type_of <$> cols) (fields_of line))
    as [cells|]; simpl.
  - destruct Hf as (-> & -> & Hrem).
    change (stream_remainder (length cols) (open_on line))
      with (remainder (length cols) line) in Hrem.
    rewrite length_fmap, <- Hrem.
    destruct (extract_word rs') as [? [w|]]; simpl in Hw.
    + destruct (all_space (stream_remainder 0 rs')); [|done].
      by destruct Hw as [_ Hw]; specialize (Hw eq_refl).
    + destruct Hw as [Hw _]. by rewrite Hw.
  - subst s. by destruct (extract_word rs') as [? [?|]].
Qed.

Lemma convert_row_shape (tys : list ColTy) (line : string) (cells : list Cell) :
  convert_row range_error tys line = Some cells -> type_of <$> cells = tys.
Proof.
  rewrite convert_row_fields. intros H.
  apply (convert_fields_shape tys (fields_of line)).
  destruct (convert_fields range_error tys (fields_of line)) as [cells'|]; [|done].
  simpl in H. by destruct (all_space (remainder (length tys) line)); simplify_eq.
Qed.

End RowProperties.

(** * The table as a matrix *)

Lemma push_cells_types (cols : list Column) (cells : list Cell) :
  length cells = length cols ->
  type_of <$> zip_with push_cell cols cells = type_of <$> cols.
Proof.
  revert cells. induction cols as [|c cols IH]; intros [|x cells] Hlen;
    simplify_eq/=; [done|].
  by rewrite push_cell_type, IH.
Qed.

Lemma column_cells_push (c : Column) (x : Cell) :
  type_of x = type_of c -> column_cells (push_cell c x) = (column_cells c ++ [x])%list.
Proof. destruct c, x; intros ?; simplify_eq/=; by rewrite fmap_app. Qed.

Lemma col_size_cells (c : Column) : col_size c = length (column_cells c).
Proof. destruct c; simpl; by rewrite length_fmap. Qed.

Lemma column_cells_copy (id : nat) (c : Column) :
  column_cells (typed_map (@copy_vector id) c) = column_cells c.
Proof. by destruct c. Qed.

Lemma type_of_copy (id : nat) (c : Column) :
  type_of (typed_map (@copy_vector id) c) = type_of c.
Proof. by destruct c. Qed.

Lemma col_id_copy (id : nat) (c : Column) :
  col_id (typed_map (@copy_vector id) c) = id.
Proof. by destruct c. Qed.

Lemma contents_copy (t : Columnar) (fresh : nat) :
  contents (copy_construct t fresh) = contents t.
Proof.
  unfold contents. simpl. apply list_eq. intros i.
  rewrite !list_lookup_fmap, list_lookup_imap.
  destruct (columns_ t !! i) as [c|]; [|done]. simpl.
  by rewrite column_cells_copy.
Qed.

Lemma types_copy (t : Columnar) (fresh : nat) :
  type_of <$> columns_ (copy_construct t fresh) = type_of <$> columns_ t.
Proof.
  simpl. apply list_eq. intros i.
  rewrite !list_lookup_fmap, list_lookup_imap.
  destruct (columns_ t !! i) as [c|]; [|done]. simpl.
  by rewrite type_of_copy.
Qed.

Lemma ids_copy (t : Columnar) (fresh i : nat) (c : Column) :
  columns_ (copy_construct t fresh) !! i = Some c -> col_id c = fresh + i.
Proof.
  simpl. rewrite list_lookup_imap.
  destruct (columns_ t !! i) as [c0|]; [|done]. simpl.
  intros [= <-]. apply col_id_copy.
Qed.

Lemma typed_lookup_cells (index : nat) (c : Column) :
  typed_mapM (F := vector) (G := fun A => A) (fun A v => elems v !! index) c
  = column_cells c !! index.
Proof. destruct c; simpl; by rewrite list_lookup_fmap. Qed.

Lemma mapM_cons_eq {A B} (f : A -> option B) (x : A) (l : list A) :
  mapM f (x :: l) = y ← f x; k ← mapM f l; Some (y :: k).
Proof. done. Qed.

Lemma mapM_compose {A B C} (f : B -> option C) (g : A -> B) (l : list A) :
  mapM f (g <$> l) = mapM (fun x => f (g x)) l.
Proof.
  induction l as [|x l IH]; [done|].
  by rewrite fmap_cons, !mapM_cons_eq, IH.
Qed.

(** A row is read across the matrix. *)
Lemma get_row_contents (index : nat) (t : Columnar) :
  get_row index t =
  if row_count_ t <=? index then Some (Unexpected RowIndexOutOfBounds)
  else Value <$> mapM (fun col => col !! index) (contents t).
Proof.
  unfold get_row, contents. destruct (row_count_ t <=? index); [done|].
  rewrite mapM_compose. f_equal. apply mapM_ext. intros c.
  apply typed_lookup_cells.
Qed.

Lemma contents_append_row (t : Columnar) (row : list Cell) :
  type_of <$> row = type_of <$> columns_ t ->
  contents (append_row t row)
  = zip_with (fun col x => (col ++ [x])%list) (contents t) row.
Proof.
  unfold contents. simpl. generalize (columns_ t). intros cols. revert row.
  induction cols as [|c cols IH]; intros [|x row] Hty; simplify_eq/=; [done|].
  rewrite column_cells_push by done. f_equal. by apply IH.
Qed.

Lemma mapM_lookup_snoc_old {A} (cols : list (list A)) (row : list A) (i : nat)
    (r : list A) :
  Forall (fun col => i < length col) cols ->
  length row = length cols ->
  mapM (fun col => col !! i) cols = Some r ->
  mapM (fun col => col !! i) (zip_with (fun col x => (col ++ [x])%list) cols row)
  = Some r.
Proof.
  revert row r. induction cols as [|col cols IH]; intros [|x row] r Hlt Hlen Hm;
    try done.
  apply Forall_cons_1 in Hlt as [Hcol Hlt]. injection Hlen as Hlen.
  cbn [zip_with]. rewrite mapM_cons_eq in Hm |- *.
  rewrite lookup_app_l by done.
  destruct (col !! i) as [y|]; [|done].
  destruct (mapM (fun col0 => col0 !! i) cols) as [r'|] eqn:Hr; [|done].
  by rewrite (IH row r').
Qed.

Lemma mapM_lookup_snoc_new {A} (cols : list (list A)) (row : list A) (n : nat) :
  Forall (fun col => length col = n) cols ->
  length row = length cols ->
  mapM (fun col => col !! n) (zip_with (fun col x => (col ++ [x])%list) cols row)
  = Some row.
Proof.
  revert row. induction cols as [|col cols IH]; intros [|x row] Hn Hlen; try done.
  apply Forall_cons_1 in Hn as [Hcol Hn]. injection Hlen as Hlen.
  cbn [zip_with]. rewrite mapM_cons_eq.
  rewrite lookup_app_r by lia. rewrite Hcol, Nat.sub_diag.
  by rewrite IH.
Qed.

Lemma holds_rows_append (tys : list ColTy) (rows : list (list Cell)) (t : Columnar)
    (row : list Cell) :
  holds_rows tys rows t ->
  type_of <$> row = tys ->
  holds_rows tys (rows ++ [row]) (append_row t row).
Proof.
  intros [Hty Hcount Hsizes Hrows] Hrow.
  assert (length row = length (contents t)) as Hlen.
  { unfold contents. rewrite length_fmap, <- (length_fmap type_of row), Hrow, <- Hty.
    by rewrite length_fmap. }
  split.
  - simpl. rewrite push_cells_types; [done|].
    by rewrite Hlen; unfold contents; rewrite length_fmap.
  - simpl. rewrite length_app. simpl. lia.
  - rewrite contents_append_row by congruence.
    rewrite length_app. simpl.
    revert Hsizes Hlen. generalize (contents t). clear. intros cols Hsizes.
    revert row. induction Hsizes as [|col cols Hcol _ IH]; intros [|x row] Hlen;
      simplify_eq/=; constructor.
    + rewrite length_app. simpl. lia.
    + by apply IH.
  - intros i r Hi. rewrite contents_append_row by congruence.
    apply lookup_app_Some in Hi as [Hi|[Hge Hi]].
    + apply mapM_lookup_snoc_old; [|done|by apply Hrows].
      apply lookup_lt_Some in Hi.
      eapply List.Forall_impl; [|exact Hsizes]. simpl. intros col ->. done.
    + destruct (i - length rows) as [|k] eqn:Hk; simplify_eq/=.
      assert (i = length rows) as -> by lia.
      by apply mapM_lookup_snoc_new.
Qed.

Lemma holds_rows_foldl (tys : list ColTy) (rows rows' : list (list Cell))
    (t : Columnar) :
  holds_rows tys rows t ->
  Forall (fun r => type_of <$> r = tys) rows' ->
  holds_rows tys (rows ++ rows') (foldl append_row t rows').
Proof.
  intros Ht Hrows'. revert rows t Ht.
  induction Hrows' as [|r rows' Hr _ IH]; intros rows t Ht.
  - by rewrite app_nil_r.
  - simpl. rewrite (cons_middle r rows rows'), app_assoc.
    apply IH. by apply holds_rows_append.
Qed.

Lemma names_foldl_append (t : Columnar) (rows : list (list Cell)) :
  names_ (foldl append_row t rows) = names_ t.
Proof.
  revert t. induction rows as [|r rows IH]; intros t; [done|].
  simpl. by rewrite IH.
Qed.

Lemma types_default (tys : list ColTy) (fresh : nat) :
  type_of <$> columns_ (default_construct tys fresh) = tys.
Proof.
  simpl. apply list_eq. intros i.
  rewrite list_lookup_fmap, list_lookup_imap.
  destruct (tys !! i) as [T|]; [|done]. by destruct T.
Qed.

Lemma contents_default (tys : list ColTy) (fresh : nat) :
  Forall (fun col => length col = 0) (contents (default_construct tys fresh)).
Proof.
  unfold contents. simpl. apply Forall_fmap, Forall_lookup. intros i c.
  rewrite list_lookup_imap. destruct (tys !! i) as [T|]; [|done].
  intros [= <-]. by destruct T.
Qed.

(** * The loader as a function of the lines *)

Section LoaderProperties.

Variable range_error : FloatKind -> Q -> bool.


(** With fuel beyond the length of the text, the loop over the data lines
    ends: with the table extended by every line that is not blank, or with
    [ParseError] when one of them does not convert. *)
Lemma read_rows_spec (fuel : nat) (file : istream) (result : Columnar) :
  String.length (rdbuf file) < fuel ->
  read_rows range_error fuel file result =
  Some match mapM (convert_row range_error (type_of <$> columns_ result))
                  (nonblank (stream_pieces newline file)) with
       | Some rows => Value (foldl append_row result rows)
       | None => Unexpected ParseError
       end.
Proof.
  revert file result. induction fuel as [|fuel IH]; intros file result Hfuel; [lia|].
  cbn [read_rows].
  destruct (getline file newline) as [file' [line|]] eqn:Hg.
  - apply getline_Some in Hg as [-> Hlen]. unfold nonblank. cbn [List.filter].
    destruct (is_empty line) eqn:He; cbn [negb].
    + by rewrite IH by lia.
    + pose proof (parse_row_spec range_error (columns_ result) line) as Hrow.
      destruct (parse_row range_error (columns_ result) line) as [s cols'].
      cbn [mapM].
      destruct (convert_row range_error (type_of <$> columns_ result) line)
        as [cells|] eqn:Hc.
      * destruct Hrow as [-> ->]. cbn [negb]. rewrite IH by lia. cbn [columns_].
        apply convert_row_shape in Hc.
        rewrite push_cells_types
          by (rewrite <- (length_fmap type_of cells), Hc, length_fmap; done).
        fold (nonblank (stream_pieces newline file')).
        destruct (mapM _ (nonblank (stream_pieces newline file'))); done.
      * subst s. done.
  - apply getline_None in Hg as [-> _]. done.
Qed.

(** The loader always returns, with the outcome decided line by line. *)
Lemma try_read_from_csv_spec (tys : list ColTy) (fs : filesystem)
    (filepath : string) (fresh : nat) :
  try_read_from_csv range_error tys fs filepath fresh
  = Some (load_outcome range_error tys (fs filepath) fresh).
Proof.
  unfold try_read_from_csv, load_outcome.
  destruct (fs filepath) as [content|]; [|done].
  unfold lines_of.
  destruct (getline (open_on content) newline) as [file [line|]] eqn:Hg.
  - apply getline_Some in Hg as [Hp Hlen].
    change (stream_pieces newline (open_on content))
      with (pieces newline content) in Hp.
    rewrite Hp. destruct (is_empty line); [done|].
    rewrite header_loop_spec by (simpl; lia).
    change (stream_pieces kCsvDelimiter (open_on line)) with (fields_of line).
    cbn [names_ default_construct columns_ row_count_ Nat.add].
    destruct (decide (length (fields_of line) <= length tys)) as [Hle|Hgt].
    + destruct (Nat.eqb_spec (length (fields_of line)) (length tys)) as [Heq|Hne];
        cbn [negb].
      * rewrite decide_True by done.
        rewrite assign_names_all by (by rewrite length_replicate).
        simpl in Hlen.
        rewrite read_rows_spec by lia. cbn [columns_].
        assert (type_of <$> imap (λ i T, empty_column T (fresh + i)) tys = tys) as ->.
        { clear. revert fresh. induction tys as [|T tys IH]; intros fresh; [done|].
          rewrite imap_cons. cbn [fmap list_fmap]. f_equal; [by destruct T|].
          specialize (IH (S fresh)). rewrite <- IH at 2.
          f_equal. apply imap_ext. intros i T' _. simpl. f_equal. lia. }
        by destruct (mapM _ (nonblank (stream_pieces newline file))).
      * by rewrite decide_False by done.
    + by rewrite decide_False by lia.
  - apply getline_None in Hg as [Hp _].
    change (stream_pieces newline (open_on content))
      with (pieces newline content) in Hp.
    by rewrite Hp.
Qed.

End LoaderProperties.

(** * Pieces and ordinary splitting *)

Lemma pieces_cons_nonempty (d c : ascii) (r : string) :
  pieces d (String c r) <> [].
Proof. simpl. destruct (Ascii.eqb c d); [done|]. by destruct (pieces d r). Qed.

(** Splitting on the delimiter gives the pieces that [std::getline]
    delivers, and one more field, an empty one, when the text ends with
    the delimiter. *)
Lemma split_on_pieces (d : ascii) (s : string) :
  is_empty s = false ->
  split_on d s
  = if ends_with d s then (pieces d s ++ [EmptyString])%list else pieces d s.
Proof.
  induction s as [|c r IH]; [done|]. intros _. destruct r as [|c' r'].
  - simpl. by destruct (Ascii.eqb c d).
  - specialize (IH eq_refl).
    change (ends_with d (String c (String c' r')))
      with (ends_with d (String c' r')).
    pose proof (pieces_cons_nonempty d c' r') as Hne.
    remember (String c' r') as R eqn:HR. clear HR.
    cbn [split_on pieces]. rewrite IH.
    destruct (Ascii.eqb c d); [by destruct (ends_with d R)|].
    destruct (pieces d R) as [|p ps]; [done|].
    by destruct (ends_with d R).
Qed.

Lemma split_on_fields (line : string) :
  is_empty line = false ->
  split_on kCsvDelimiter line
  = if ends_with kCsvDelimiter line
    then (fields_of line ++ [EmptyString])%list
    else fields_of line.
Proof. apply split_on_pieces. Qed.

(** * Properties of the loader *)

Section LoaderTheorems.

Variable range_error : FloatKind -> Q -> bool.

Lemma convert_rows_shape (tys : list ColTy) (lines : list string)
    (rows : list (list Cell)) :
  mapM (convert_row range_error tys) lines = Some rows ->
  Forall (fun r => type_of <$> r = tys) rows.
Proof.
  intros H. apply mapM_Some_1 in H.
  induction H as [|line r lines rows Hr _ IH]; constructor; [|done].
  by eapply convert_row_shape.
Qed.

(** The reasons for a data line not to convert: too few fields, a field
    that does not parse at the type of its column, or something other than
    white space after the fields. *)
Lemma convert_row_None (tys : list ColTy) (line : string) :
  convert_row range_error tys line = None <->
  length (fields_of line) < length tys
  \/ (exists i T field, tys !! i = Some T /\ fields_of line !! i = Some field
                        /\ convert range_error T field = None)
  \/ all_space (remainder (length tys) line) = false.
Proof.
  unfold convert_row.
  destruct (Nat.ltb_spec (length (fields_of line)) (length tys)) as [Hlt|Hge].
  { split; [by left|done]. }
  destruct (mapM _ (zip tys (fields_of line))) as [cells|] eqn:Hm; simpl.
  - destruct (all_space (remainder (length tys) line)) eqn:Hs.
    + split; [done|]. intros [?|[(i & T & field & HT & Hf & Hc)|?]]; [lia| |done].
      apply mapM_Some_1 in Hm.
      assert (zip tys (fields_of line) !! i = Some (T, field)) as Hz.
      { apply lookup_zip_with_Some. eauto. }
      destruct (Forall2_lookup_l _ _ _ _ _ Hm Hz) as (y & _ & Hy). simpl in Hy.
      congruence.
    + split; [by right; right|done].
  - split; [|done]. intros _. right. left.
    apply mapM_None_1, Exists_exists in Hm as ([T field] & Hin & Hc).
    apply list_elem_of_In, list_elem_of_lookup in Hin as [i Hi].
    apply lookup_zip_with_Some in Hi as (T' & f' & [= <- <-] & HT & Hf).
    eauto 10.
Qed.

Lemma holds_rows_copy (tys : list ColTy) (rows : list (list Cell)) (t : Columnar)
    (fresh : nat) :
  holds_rows tys rows t -> holds_rows tys rows (copy_construct t fresh).
Proof.
  intros [Hty Hcount Hsizes Hrows]. split.
  - by rewrite types_copy.
  - done.
  - by rewrite contents_copy.
  - intros i r Hi. rewrite contents_copy. by apply Hrows.
Qed.

Lemma table_of_rows_holds (tys : list ColTy) (names : list string)
    (rows : list (list Cell)) (fresh : nat) :
  Forall (fun r => type_of <$> r = tys) rows ->
  holds_rows tys rows (table_of_rows tys names rows fresh).
Proof.
  intros Hrows. unfold table_of_rows. apply holds_rows_copy.
  apply (holds_rows_foldl tys [] rows); [|done].
  split; simpl.
  - apply (types_default tys fresh).
  - done.
  - apply (contents_default tys fresh).
  - intros i r. by rewrite lookup_nil.
Qed.

Lemma table_of_rows_names (tys : list ColTy) (names : list string)
    (rows : list (list Cell)) (fresh : nat) :
  names_ (table_of_rows tys names rows fresh) = names.
Proof. unfold table_of_rows. simpl. by rewrite names_foldl_append. Qed.

Lemma holds_rows_get_row (tys : list ColTy) (rows : list (list Cell)) (t : Columnar)
    (index : nat) :
  holds_rows tys rows t ->
  get_row index t
  = Some match rows !! index with
         | Some row => Value row
         | None => Unexpected RowIndexOutOfBounds
         end.
Proof.
  intros [Hty Hcount Hsizes Hrows]. rewrite get_row_contents, Hcount.
  destruct (Nat.leb_spec (length rows) index) as [Hge|Hlt].
  - by rewrite lookup_ge_None_2.
  - destruct (lookup_lt_is_Some_2 rows index Hlt) as [r Hr].
    by rewrite Hr, (Hrows index r Hr).
Qed.

Lemma holds_rows_well_formed (tys : list ColTy) (rows : list (list Cell))
    (t : Columnar) :
  holds_rows tys rows t -> length (names_ t) = length tys -> well_formed tys t.
Proof.
  intros [Hty Hcount Hsizes Hrows] Hnames. split; [done..|].
  unfold contents in Hsizes. rewrite Forall_fmap in Hsizes.
  eapply List.Forall_impl; [|exact Hsizes]. simpl. intros c Hc.
  by rewrite col_size_cells, Hc.
Qed.

(** A default-constructed table satisfies the class invariant. *)
Lemma default_construct_well_formed (tys : list ColTy) (fresh : nat) :
  well_formed tys (default_construct tys fresh).
Proof.
  split.
  - apply types_default.
  - simpl. by rewrite length_replicate.
  - pose proof (contents_default tys fresh) as H. unfold contents in H.
    rewrite Forall_fmap in H.
    eapply List.Forall_impl; [|exact H]. simpl. intros c Hc.
    by rewrite col_size_cells.
Qed.

(** What a successful load has seen and what it hands over. *)
Lemma load_success (tys : list ColTy) (fs : filesystem) (filepath : string)
    (fresh : nat) (t : Columnar) :
  try_read_from_csv range_error tys fs filepath fresh = Some (Value t) ->
  exists content header data rows,
    fs filepath = Some content
    /\ lines_of content = header :: data
    /\ is_empty header = false
    /\ length (fields_of header) = length tys
    /\ mapM (convert_row range_error tys) (nonblank data) = Some rows
    /\ t = table_of_rows tys (fields_of header) rows fresh.
Proof.
  rewrite try_read_from_csv_spec. intros [= H]. revert H. unfold load_outcome.
  destruct (fs filepath) as [content|]; [|done].
  destruct (lines_of content) as [|header data] eqn:Hl; [done|].
  destruct (is_empty header) eqn:He; [done|].
  destruct (decide (length (fields_of header) = length tys)) as [Hn|]; [|done].
  destruct (mapM _ (nonblank data)) as [rows|] eqn:Hm; [|done].
  intros [= <-]. by exists content, header, data, rows.
Qed.

(** C2.  Loading is all or nothing.  The call always returns, and returns
    either an error or a table, never both.  A table is returned only when
    the file opens, its header is nonempty and has one field per column,
    and every data line that is not blank converts; the table then holds
    exactly the converted lines, in order, and satisfies the class
    invariant.  Otherwise the error tells the failure: [FileNotFound] for
    a file that does not open, [InvalidFormat] for a bad header,
    [ParseError] for a data line that is too short, has a field that does
    not parse, or has something other than white space after its fields. *)
Theorem load_all_or_nothing (tys : list ColTy) (fs : filesystem)
    (filepath : string) (fresh : nat) :
  exists r,
    try_read_from_csv range_error tys fs filepath fresh = Some r /\
    match r with
    | Value t =>
        exists content header data rows,
          fs filepath = Some content
          /\ lines_of content = header :: data
          /\ is_empty header = false
          /\ length (fields_of header) = length tys
          /\ Forall2 (fun line row => convert_row range_error tys line = Some row)
                     (nonblank data) rows
          /\ well_formed tys t
          /\ column_names t = fields_of header
          /\ forall index,
               get_row index t
               = Some match rows !! index with
                      | Some row => Value row
                      | None => Unexpected RowIndexOutOfBounds
                      end
    | Unexpected e =>
        (e = FileNotFound /\ fs filepath = None)
        \/ (e = InvalidFormat
            /\ exists content,
                 fs filepath = Some content
                 /\ match lines_of content with
                    | [] => True
                    | header :: _ =>
                        is_empty header = true
                        \/ length (fields_of header) <> length tys
                    end)
        \/ (e = ParseError
            /\ exists content header data line,
                 fs filepath = Some content
                 /\ lines_of content = header :: data
                 /\ In line (nonblank data)
                 /\ (length (fields_of line) < length tys
                     \/ (exists i T field,
                           tys !! i = Some T /\ fields_of line !! i = Some field
                           /\ convert range_error T field = None)
                     \/ all_space (remainder (length tys) line) = false))
    end.
Proof.
  eexists. split; [apply try_read_from_csv_spec|].
  unfold load_outcome.
  destruct (fs filepath) as [content|] eqn:Hfs; [|by left].
  destruct (lines_of content) as [|header data] eqn:Hl.
  { right; left. split; [done|]. exists content. split; [done|]. by rewrite Hl. }
  destruct (is_empty header) eqn:He.
  { right; left. split; [done|]. exists content. rewrite Hl. simpl.
    split; [done|]. by left. }
  destruct (decide (length (fields_of header) = length tys)) as [Hn|Hn].
  2:{ right; left. split; [done|]. exists content. rewrite Hl. simpl.
      split; [done|]. by right. }
  destruct (mapM _ (nonblank data)) as [rows|] eqn:Hm.
  - exists content, header, data, rows.
    pose proof (table_of_rows_holds tys (fields_of header) rows fresh
                  (convert_rows_shape _ _ _ Hm)) as Hh.
    split_and!; try done.
    + by apply mapM_Some_1.
    + apply (holds_rows_well_formed _ _ _ Hh).
      by rewrite table_of_rows_names.
    + apply table_of_rows_names.
    + intros index. by apply (holds_rows_get_row tys).
  - right; right. split; [done|].
    apply mapM_None_1, Exists_exists in Hm as (line & Hin & Hc).
    exists content, header, data, line.
    split_and!; try done. by apply convert_row_None.
Qed.

(** C3, as the code has it.  With a good header, a data line that is not
    blank makes the load fail with [ParseError] when it has fewer fields
    than there are columns, and when anything other than white space is
    left after the fields of the columns and their delimiters.  The
    fields are those [std::getline] delivers: the ones splitting on commas
    gives, except that a comma at the end of the line opens no further,
    empty field; so a line that ends with a comma and splits into no more
    fields than there are columns is a short row.  White space left
    after the fields is no failure: when every such line has at least as
    many fields as there are columns, the first ones converting at the
    types of their columns, and only white space after them, the load
    succeeds. *)
Theorem load_rejects_short_or_trailing (tys : list ColTy) (fs : filesystem)
    (filepath : string) (fresh : nat) (content header : string)
    (data : list string) :
  fs filepath = Some content ->
  lines_of content = header :: data ->
  is_empty header = false ->
  length (fields_of header) = length tys ->
  (forall line,
     In line (nonblank data) ->
     length (fields_of line) < length tys
     \/ all_space (remainder (length tys) line) = false ->
     try_read_from_csv range_error tys fs filepath fresh
     = Some (Unexpected ParseError))
  /\ (forall line,
        In line (nonblank data) ->
        ends_with kCsvDelimiter line = true ->
        length (split_on kCsvDelimiter line) <= length tys ->
        try_read_from_csv range_error tys fs filepath fresh
        = Some (Unexpected ParseError))
  /\ (forall line,
        is_empty line = false ->
        split_on kCsvDelimiter line
        = if ends_with kCsvDelimiter line
          then (fields_of line ++ [EmptyString])%list
          else fields_of line)
  /\ (Forall (fun line =>
                is_Some (convert_fields range_error tys (fields_of line))
                /\ all_space (remainder (length tys) line) = true)
             (nonblank data) ->
      exists t,
        try_read_from_csv range_error tys fs filepath fresh = Some (Value t)).
Proof.
  intros Hfs Hl He Hn.
  rewrite try_read_from_csv_spec. unfold load_outcome.
  rewrite Hfs, Hl, He, decide_True by done.
  assert (forall line,
            In line (nonblank data) ->
            length (fields_of line) < length tys
            \/ all_space (remainder (length tys) line) = false ->
            match mapM (convert_row range_error tys) (nonblank data) with
            | Some rows =>
                Some (Value (table_of_rows tys (fields_of header) rows fresh))
            | None => Some (Unexpected ParseError)
            end = Some (Unexpected ParseError)) as Hbad.
  { intros line Hin Hbad.
    assert (mapM (convert_row range_error tys) (nonblank data) = None) as ->; [|done].
    apply mapM_None_2, Exists_exists. exists line. split; [done|].
    apply convert_row_None. tauto. }
  split_and!.
  - intros line Hin Hline.
    specialize (Hbad line Hin Hline).
    by destruct (mapM (convert_row range_error tys) (nonblank data)).
  - intros line Hin Hend Hlen.
    assert (is_empty line = false) as Hne by (by destruct line).
    rewrite (split_on_fields line Hne), Hend, length_app in Hlen.
    simpl in Hlen.
    specialize (Hbad line Hin ltac:(left; lia)).
    by destruct (mapM (convert_row range_error tys) (nonblank data)).
  - apply split_on_fields.
  - intros Hall.
    assert (is_Some (mapM (convert_row range_error tys) (nonblank data)))
      as [rows ->]; [|by eexists].
    apply mapM_is_Some_2.
    eapply List.Forall_impl; [|exact Hall]. simpl. intros line [[cells Hc] Hs].
    rewrite convert_row_fields, Hc. simpl. rewrite Hs. by eexists.
Qed.

(** C4.  A table that was loaded has one row per data line that is not
    blank (blank meaning empty), as many columns as there are column
    types, and [row_count_] elements in every column; with no data line at
    all it has no row and the header fields as names.  Such tables exist:
    a file with a good header whose data lines that are not blank all
    convert does load, whatever blank lines stand between them, into a
    table with one row for each of those lines and none for the blank
    ones; and a file made of a good header alone loads into a table
    without rows. *)
Theorem load_counts (tys : list ColTy) (fs : filesystem) (filepath : string)
    (fresh : nat) :
  (forall t,
     try_read_from_csv range_error tys fs filepath fresh = Some (Value t) ->
     exists content header data,
       fs filepath = Some content
       /\ lines_of content = header :: data
       /\ num_rows t = length (nonblank data)
       /\ num_cols t = length tys
       /\ Forall (fun c => col_size c = num_rows t) (columns_ t)
       /\ (data = [] -> num_rows t = 0 /\ column_names t = fields_of header))
  /\ (forall content header data,
        fs filepath = Some content ->
        lines_of content = header :: data ->
        is_empty header = false ->
        length (fields_of header) = length tys ->
        Forall (fun line => is_Some (convert_row range_error tys line))
               (nonblank data) ->
        exists t,
          try_read_from_csv range_error tys fs filepath fresh = Some (Value t)
          /\ num_rows t = length (nonblank data)
          /\ num_cols t = length tys
          /\ Forall (fun c => col_size c = num_rows t) (columns_ t)
          /\ column_names t = fields_of header)
  /\ (forall content header,
        fs filepath = Some content ->
        lines_of content = [header] ->
        is_empty header = false ->
        length (fields_of header) = length tys ->
        exists t,
          try_read_from_csv range_error tys fs filepath fresh = Some (Value t)
          /\ num_rows t = 0
          /\ column_names t = fields_of header).
Proof.
  split; [|split].
  2:{ intros content header data Hfs Hl He Hn Hall.
      assert (is_Some (mapM (convert_row range_error tys) (nonblank data)))
        as [rows Hm] by (by apply mapM_is_Some_2).
      exists (table_of_rows tys (fields_of header) rows fresh).
      pose proof (table_of_rows_holds tys (fields_of header) rows fresh
                    (convert_rows_shape _ _ _ Hm)) as Hh.
      assert (well_formed tys (table_of_rows tys (fields_of header) rows fresh))
        as [Hty Hnames Hsizes].
      { apply (holds_rows_well_formed _ _ _ Hh).
        by rewrite table_of_rows_names. }
      assert (length rows = length (nonblank data)) as Hrows
        by (symmetry; by eapply length_mapM).
      split_and!.
      - rewrite try_read_from_csv_spec. unfold load_outcome.
        by rewrite Hfs, Hl, He, decide_True, Hm.
      - unfold num_rows. by rewrite (hr_count _ _ _ Hh).
      - unfold num_cols. by rewrite <- (length_fmap type_of), Hty.
      - done.
      - apply table_of_rows_names. }
  - intros t Ht.
    apply load_success in Ht as (content & header & data & rows & Hfs & Hl & He
                                 & Hn & Hm & ->).
    exists content, header, data.
    pose proof (table_of_rows_holds tys (fields_of header) rows fresh
                  (convert_rows_shape _ _ _ Hm)) as Hh.
    assert (well_formed tys (table_of_rows tys (fields_of header) rows fresh))
      as [Hty Hnames Hsizes].
    { apply (holds_rows_well_formed _ _ _ Hh). by rewrite table_of_rows_names. }
    assert (length rows = length (nonblank data)) as Hrows
      by (symmetry; by eapply length_mapM).
    split_and!; try done.
    + unfold num_rows. by rewrite (hr_count _ _ _ Hh).
    + unfold num_cols. by rewrite <- (length_fmap type_of), Hty.
    + intros ->. split; [|apply table_of_rows_names].
      unfold num_rows. by rewrite (hr_count _ _ _ Hh), Hrows.
  - intros content header Hfs Hl He Hn.
    exists (table_of_rows tys (fields_of header) [] fresh).
    rewrite try_read_from_csv_spec. unfold load_outcome.
    rewrite Hfs, Hl, He, decide_True by done. simpl. done.
Qed.

(** C5, as the code has it.  The load fails with [FileNotFound] exactly
    when the file does not open.  It fails with [InvalidFormat] exactly
    when the file opens and is empty, or its first line is empty, or the
    header does not have one field per column.  The fields of the header
    are those [std::getline] delivers: the ones splitting on commas gives,
    except that a comma at the end of the header opens no further, empty
    field.  A table that was loaded has these fields as names, each at
    its position. *)
Theorem load_header (tys : list ColTy) (fs : filesystem) (filepath : string)
    (fresh : nat) :
  (try_read_from_csv range_error tys fs filepath fresh
   = Some (Unexpected FileNotFound) <-> fs filepath = None)
  /\ (try_read_from_csv range_error tys fs filepath fresh
      = Some (Unexpected InvalidFormat) <->
      exists content,
        fs filepath = Some content
        /\ (lines_of content = []
            \/ exists header data,
                 lines_of content = header :: data
                 /\ (is_empty header = true
                     \/ length (fields_of header) <> length tys)))
  /\ (forall t,
        try_read_from_csv range_error tys fs filepath fresh = Some (Value t) ->
        exists content header data,
          fs filepath = Some content
          /\ lines_of content = header :: data
          /\ column_names t = fields_of header
          /\ forall i name,
               fields_of header !! i = Some name ->
               column_names t !! i = Some name)
  /\ (forall header,
        is_empty header = false ->
        split_on kCsvDelimiter header
        = if ends_with kCsvDelimiter header
          then (fields_of header ++ [EmptyString])%list
          else fields_of header).
Proof.
  split; [|split; [|split; [|apply split_on_fields]]].
  - rewrite try_read_from_csv_spec. unfold load_outcome.
    split; [|by intros ->].
    destruct (fs filepath) as [content|]; [|done].
    destruct (lines_of content) as [|header data]; [done|].
    destruct (is_empty header); [done|].
    destruct (decide _); [|done].
    by destruct (mapM _ (nonblank data)).
  - rewrite try_read_from_csv_spec. unfold load_outcome. split.
    + destruct (fs filepath) as [content|]; [|done]. intros H. exists content.
      split; [done|].
      destruct (lines_of content) as [|header data]; [by left|]. right.
      exists header, data. split; [done|].
      destruct (is_empty header); [by left|]. right.
      destruct (decide _); [|done].
      by destruct (mapM _ (nonblank data)).
    + intros (content & -> & [->|(header & data & -> & Hbad)]); [done|].
      destruct (is_empty header); [done|].
      destruct Hbad as [?|?]; [done|]. by rewrite decide_False.
  - intros t Ht.
    apply load_success in Ht as (content & header & data & rows & Hfs & Hl & He
                                 & Hn & Hm & ->).
    exists content, header, data. unfold column_names.
    rewrite table_of_rows_names. done.
Qed.

End LoaderTheorems.

(** * Properties of the accessors *)

Lemma as_type_None {F : Type -> Type} (T : ColTy) (x : Typed F) :
  as_type T x = None <-> type_of x <> T.
Proof.
  destruct T as [k|k|], x as [k' v|k' v|v]; simpl; try done;
    try (destruct (decide (k = k')) as [->|]; split; congruence).
Qed.

Lemma as_type_view (T : ColTy) (c : Column) (s : span (denote T)) :
  as_type T (typed_map (@span_over) c) = Some s ->
  type_of c = T /\ viewed s = col_id c /\ tag T <$> span_elems s = column_cells c.
Proof.
  destruct T as [k|k|], c as [k' v|k' v|v]; simpl; try done;
    try (destruct (decide (k = k')) as [->|]; [|done]); by intros [= <-].
Qed.

Lemma tag_inj (T : ColTy) (x y : denote T) : tag T x = tag T y -> x = y.
Proof. destruct T; simpl; by intros [= ->]. Qed.

Lemma tag_type (T : ColTy) (x : denote T) : type_of (tag T x) = T.
Proof. by destruct T. Qed.

Lemma first_named_find (name : string) (t : Columnar) (i : nat) :
  first_named name t i <->
  list_find (fun n => n = name) (names_ t) = Some (i, name).
Proof.
  rewrite list_find_Some. unfold first_named. split.
  - intros [Hi Hfirst]. split; [done|]. split; [done|].
    intros j y Hj Hlt ->. by apply (Hfirst j).
  - intros (Hi & _ & Hfirst). split; [done|].
    intros j Hlt Hj. by apply (Hfirst j name).
Qed.

Lemma first_named_exists (name : string) (t : Columnar) :
  In name (names_ t) -> exists i, first_named name t i.
Proof.
  intros Hin.
  destruct (list_find (fun n => n = name) (names_ t)) as [[i x]|] eqn:Hf.
  - exists i. apply first_named_find.
    pose proof Hf as Hf'. apply list_find_Some in Hf' as (_ & -> & _). done.
  - apply list_find_None in Hf. rewrite Forall_forall in Hf.
    by destruct (Hf name Hin).
Qed.

(** Lookup by name is decided by the first position holding the name. *)
Lemma get_column_view_first (T : ColTy) (name : string) (t : Columnar) (i : nat) :
  first_named name t i ->
  get_column_view T name t =
  match columns_ t !! i with
  | Some c =>
      match as_type T (typed_map (@span_over) c) with
      | Some s => Value s
      | None => Unexpected ParseError
      end
  | None => Unexpected ParseError
  end.
Proof.
  intros Hi. apply first_named_find in Hi.
  unfold get_column_view, get_column_view_at. rewrite Hi.
  destruct (columns_ t !! i) as [c|]; [|done]. simpl.
  by destruct (as_type T (typed_map (@span_over) c)).
Qed.

Lemma get_column_view_absent (T : ColTy) (name : string) (t : Columnar) :
  ~ In name (names_ t) -> get_column_view T name t = Unexpected ColumnNotFound.
Proof.
  intros Hnot. unfold get_column_view.
  destruct (list_find (fun n => n = name) (names_ t)) as [[i x]|] eqn:Hf; [|done].
  apply list_find_Some in Hf as (Hi & -> & _).
  destruct Hnot. apply list_elem_of_In, list_elem_of_lookup. eauto.
Qed.

Lemma well_formed_column (tys : list ColTy) (t : Columnar) (i : nat) (x : string) :
  well_formed tys t -> names_ t !! i = Some x ->
  exists c, columns_ t !! i = Some c /\ col_size c = row_count_ t.
Proof.
  intros [Hty Hnames Hsizes] Hi.
  assert (i < length (columns_ t)) as Hlt.
  { rewrite <- (length_fmap type_of), Hty, <- Hnames. by eapply lookup_lt_Some. }
  destruct (lookup_lt_is_Some_2 _ _ Hlt) as [c Hc]. exists c. split; [done|].
  by eapply (Forall_lookup_1 _ _ _ _ Hsizes).
Qed.

Lemma filter_propagates (T : ColTy) (name : string) (predicate : denote T -> bool)
    (t : Columnar) (fresh : nat) (e : CsvError) :
  get_column_view T name t = Unexpected e ->
  filter T name predicate t fresh = Some (Unexpected e).
Proof. intros H. unfold filter. by rewrite H. Qed.

Lemma get_column_view_named (tys : list ColTy) (t : Columnar) (T : ColTy)
    (name : string) (i : nat) :
  well_formed tys t ->
  first_named name t i ->
  exists c,
    columns_ t !! i = Some c
    /\ get_column_view T name t
       = match as_type T (typed_map (@span_over) c) with
         | Some s => Value s
         | None => Unexpected ParseError
         end.
Proof.
  intros Hwf Hi. pose proof Hi as [Hn _].
  destruct (well_formed_column _ _ _ _ Hwf Hn) as (c & Hc & _).
  exists c. split; [done|]. by rewrite (get_column_view_first T name t i Hi), Hc.
Qed.

(** A lookup that succeeds has found the first column of that name, of
    the type asked for, and views it whole. *)
Lemma get_column_view_resolved (tys : list ColTy) (t : Columnar) (T : ColTy)
    (name : string) (s : span (denote T)) :
  well_formed tys t ->
  get_column_view T name t = Value s ->
  exists i c, first_named name t i /\ columns_ t !! i = Some c
              /\ type_of c = T
              /\ viewed s = col_id c
              /\ tag T <$> span_elems s = column_cells c.
Proof.
  intros Hwf Hres.
  destruct (in_dec String.string_dec name (names_ t)) as [Hin|Hnot].
  2:{ by rewrite get_column_view_absent in Hres. }
  apply first_named_exists in Hin as [i Hi].
  destruct (get_column_view_named tys t T name i Hwf Hi) as (c & Hc & Hv).
  exists i, c. rewrite Hv in Hres.
  destruct (as_type T (typed_map (@span_over) c)) as [s'|] eqn:Has; [|done].
  injection Hres as ->. apply as_type_view in Has. tauto.
Qed.

(** C7, as the code has it.  On a table that satisfies the class
    invariant, lookup by name at the type [T] fails with [ColumnNotFound]
    exactly when the name is not among the names; it fails with
    [ParseError] exactly when the first column of that name has a type
    other than [T], whatever the columns of the same name after it hold;
    and it succeeds exactly when the first column of that name has the
    type [T]: the view returned then designates that very column, is
    typed [T] and shows all its elements.  [filter] hands an error of the
    lookup through unchanged. *)
Theorem get_column_view_outcome (tys : list ColTy) (t : Columnar) (T : ColTy)
    (name : string) :
  well_formed tys t ->
  (get_column_view T name t = Unexpected ColumnNotFound <-> ~ In name (names_ t))
  /\ (get_column_view T name t = Unexpected ParseError <->
      exists i c, first_named name t i /\ columns_ t !! i = Some c
                  /\ type_of c <> T)
  /\ (forall i c,
        first_named name t i -> columns_ t !! i = Some c -> type_of c = T ->
        exists s,
          get_column_view T name t = Value s
          /\ viewed s = col_id c
          /\ tag T <$> span_elems s = column_cells c)
  /\ (forall s, get_column_view T name t = Value s ->
      exists i c, first_named name t i /\ columns_ t !! i = Some c
                  /\ type_of c = T
                  /\ viewed s = col_id c
                  /\ tag T <$> span_elems s = column_cells c)
  /\ (forall e predicate fresh,
        get_column_view T name t = Unexpected e ->
        filter T name predicate t fresh = Some (Unexpected e)).
Proof.
  intros Hwf. split_and!.
  3:{ intros i c Hi Hc HT.
      rewrite (get_column_view_first T name t i Hi), Hc.
      destruct (as_type T (typed_map (@span_over) c)) as [s|] eqn:Has.
      - exists s. split; [done|]. apply as_type_view in Has. tauto.
      - apply as_type_None in Has. by destruct c. }
  - split; [|apply get_column_view_absent].
    intros Hres Hin. apply first_named_exists in Hin as [i Hi].
    destruct (get_column_view_named tys t T name i Hwf Hi) as (c & _ & Hv).
    rewrite Hv in Hres.
    by destruct (as_type T (typed_map (@span_over) c)).
  - split.
    + intros Hres.
      destruct (in_dec String.string_dec name (names_ t)) as [Hin|Hnot].
      2:{ by rewrite get_column_view_absent in Hres. }
      apply first_named_exists in Hin as [i Hi].
      destruct (get_column_view_named tys t T name i Hwf Hi) as (c & Hc & Hv).
      exists i, c. split; [done|]. split; [done|].
      rewrite Hv in Hres.
      destruct (as_type T (typed_map (@span_over) c)) as [s|] eqn:Has; [done|].
      apply as_type_None in Has. by destruct c.
    + intros (i & c & Hi & Hc & Hne).
      destruct (get_column_view_named tys t T name i Hwf Hi) as (c' & Hc' & ->).
      simplify_eq.
      assert (as_type T (typed_map (@span_over) c) = None) as ->; [|done].
      apply as_type_None. by destruct c.
  - intros s. by apply (get_column_view_resolved tys).
  - intros e predicate fresh. apply filter_propagates.
Qed.

Lemma view_cells_span_over (c : Column) :
  view_cells (typed_map (@span_over) c) = column_cells c.
Proof. by destruct c. Qed.

Lemma column_cells_type (c : Column) (i : nat) (x : Cell) :
  column_cells c !! i = Some x -> type_of x = type_of c.
Proof.
  destruct c; simpl; rewrite list_lookup_fmap;
    destruct (_ !! i); simpl; by intros [= <-].
Qed.

Lemma row_types (cols : list Column) (index : nat) (row : list Cell) :
  Forall2 (fun col x => col !! index = Some x) (column_cells <$> cols) row ->
  type_of <$> row = type_of <$> cols.
Proof.
  revert row. induction cols as [|c cols IH]; intros row H;
    inversion H as [|col x cells row' Hx Hrest]; simplify_eq/=; [done|].
  f_equal; [by eapply column_cells_type|by apply IH].
Qed.

(** Under the class invariant every row below [row_count_] can be read. *)
Lemma get_row_defined (tys : list ColTy) (t : Columnar) (index : nat) :
  well_formed tys t -> index < row_count_ t ->
  exists row,
    get_row index t = Some (Value row)
    /\ Forall2 (fun col x => col !! index = Some x) (contents t) row.
Proof.
  intros [Hty Hnames Hsizes] Hlt.
  assert (is_Some (mapM (fun col : list Cell => col !! index) (contents t)))
    as [row Hrow].
  { apply mapM_is_Some_2. unfold contents. apply Forall_fmap.
    eapply List.Forall_impl; [|exact Hsizes]. simpl. intros c Hc.
    apply lookup_lt_is_Some. rewrite <- col_size_cells. lia. }
  exists row. split; [|by apply mapM_Some_1].
  rewrite get_row_contents, Hrow.
  by destruct (Nat.leb_spec (row_count_ t) index); [lia|].
Qed.

(** C8.  On a table that satisfies the class invariant, as every loaded
    table does, [get_row] fails with [RowIndexOutOfBounds] exactly when
    the index is not below the row count; below it, the call returns a
    tuple with one element per column, in the order and of the types of
    the columns, and its element at position [i] is the element at the
    row index of the view [get_column_view<i>()]. *)
Theorem get_row_outcome (tys : list ColTy) (t : Columnar) (index : nat) :
  well_formed tys t ->
  (get_row index t = Some (Unexpected RowIndexOutOfBounds) <-> row_count_ t <= index)
  /\ (index < row_count_ t ->
      exists row,
        get_row index t = Some (Value row)
        /\ length row = num_cols t
        /\ type_of <$> row = tys
        /\ forall i, i < num_cols t ->
             exists view x,
               get_column_view_at i t = Some view
               /\ view_cells view !! index = Some x
               /\ row !! i = Some x).
Proof.
  intros Hwf. split.
  - split.
    + intros Hres.
      destruct (Nat.le_gt_cases (row_count_ t) index) as [|Hlt]; [done|].
      destruct (get_row_defined tys t index Hwf Hlt) as (row & Hrow & _).
      congruence.
    + intros Hge. unfold get_row.
      by destruct (Nat.leb_spec (row_count_ t) index); [|lia].
  - intros Hlt.
    destruct (get_row_defined tys t index Hwf Hlt) as (row & Hrow & Hcells).
    exists row. split; [done|].
    pose proof (row_types _ _ _ Hcells) as Htypes.
    split_and!.
    + unfold num_cols.
      by rewrite <- (length_fmap type_of row), Htypes, length_fmap.
    + rewrite Htypes. by destruct Hwf.
    + intros i Hi. unfold num_cols in Hi.
      destruct (lookup_lt_is_Some_2 _ _ Hi) as [c Hc].
      assert (contents t !! i = Some (column_cells c)) as Hcol
        by (unfold contents; by rewrite list_lookup_fmap, Hc).
      destruct (Forall2_lookup_l _ _ _ _ _ Hcells Hcol) as (x & Hx & Hlook).
      exists (typed_map (@span_over) c), x.
      unfold get_column_view_at. rewrite Hc, view_cells_span_over. done.
Qed.

Lemma get_column_view_at_first (T : ColTy) (name : string) (t : Columnar)
    (i : nat) (c : Column) :
  first_named name t i ->
  columns_ t !! i = Some c ->
  (type_of c = T ->
   exists s,
     get_column_view T name t = Value s
     /\ viewed s = col_id c
     /\ tag T <$> span_elems s = column_cells c)
  /\ (type_of c <> T -> get_column_view T name t = Unexpected ParseError).
Proof.
  intros Hi Hc.
  pose proof (get_column_view_first T name t i Hi) as Hv. rewrite Hc in Hv.
  split.
  - intros HT.
    destruct (as_type T (typed_map (@span_over) c)) as [s|] eqn:Has.
    + exists s. split; [done|]. apply as_type_view in Has. tauto.
    + apply as_type_None in Has. by destruct c.
  - intros HT.
    assert (as_type T (typed_map (@span_over) c) = None) as Has
      by (apply as_type_None; by destruct c).
    by rewrite Has in Hv.
Qed.

(** * Properties of the filter *)

Lemma select_rows_spec {A} (predicate : A -> bool) (view : span A)
    (rows acc : list nat) :
  Forall (fun i => i < length (span_elems view)) rows ->
  select_rows predicate view rows acc
  = Some (acc ++ List.filter (holds_at predicate view) rows)%list.
Proof.
  intros Hrows. revert acc. induction Hrows as [|i rows Hi _ IH]; intros acc.
  - simpl. by rewrite app_nil_r.
  - destruct (lookup_lt_is_Some_2 _ _ Hi) as [x Hx].
    cbn [select_rows List.filter]. unfold holds_at at 1. rewrite Hx. simpl.
    rewrite IH. destruct (predicate x); [|done].
    by rewrite <- app_assoc.
Qed.

Lemma filter_seq_bounds (f : nat -> bool) (a n : nat) :
  Forall (fun i => a <= i < a + n) (List.filter f (seq a n)).
Proof.
  apply Forall_forall. intros i Hi.
  apply filter_In in Hi as [Hi _]. apply in_seq in Hi. lia.
Qed.

(** The positions kept by a filter over [seq] come in increasing order. *)
Lemma filter_seq_increasing (f : nat -> bool) (a n j1 j2 i1 i2 : nat) :
  j1 < j2 ->
  List.filter f (seq a n) !! j1 = Some i1 ->
  List.filter f (seq a n) !! j2 = Some i2 ->
  i1 < i2.
Proof.
  revert a j1 j2. induction n as [|n IH]; intros a j1 j2 Hlt H1 H2; [done|].
  cbn [seq List.filter] in H1, H2.
  pose proof (filter_seq_bounds f (S a) n) as Hb.
  destruct (f a).
  - destruct j2 as [|j2]; [lia|]. simpl in H2.
    destruct j1 as [|j1]; simplify_eq/=.
    + pose proof (Forall_lookup_1 _ _ _ _ Hb H2). simpl in *. lia.
    + apply (IH (S a) j1 j2); [lia|done..].
  - by apply (IH (S a) j1 j2).
Qed.

Lemma pick_defined {A} (idxs : list nat) (col : list A) :
  Forall (fun i => i < length col) idxs -> is_Some (pick idxs col).
Proof.
  intros H. apply mapM_is_Some_2.
  eapply List.Forall_impl; [|exact H]. simpl. intros i Hi.
  by apply lookup_lt_is_Some.
Qed.

Lemma pick_lookup {A} (idxs : list nat) (col col' : list A) (j i : nat) :
  pick idxs col = Some col' -> idxs !! j = Some i -> col' !! j = col !! i.
Proof.
  intros Hp Hj. apply mapM_Some_1 in Hp.
  destruct (Forall2_lookup_l _ _ _ _ _ Hp Hj) as (x & -> & Hx). done.
Qed.

Lemma pick_length {A} (idxs : list nat) (col col' : list A) :
  pick idxs col = Some col' -> length col' = length idxs.
Proof. intros Hp. symmetry. by eapply length_mapM. Qed.

Lemma pick_fmap {A B} (f : A -> B) (idxs : list nat) (col : list A) :
  pick idxs (f <$> col) = fmap (M := list) f <$> pick idxs col.
Proof.
  unfold pick. induction idxs as [|i idxs IH]; [done|].
  rewrite !mapM_cons_eq, IH, list_lookup_fmap.
  destruct (col !! i); [|done]. simpl.
  by destruct (mapM (fun i0 => col !! i0) idxs).
Qed.

(** A gathered column has the type of its source, the identity it was
    given, and the picked elements. *)
Lemma gather_cells (idxs : list nat) (id : nat) (c c' : Column) :
  typed_mapM (F := vector) (G := vector) (fun A => gather idxs id) c = Some c' ->
  type_of c' = type_of c /\ col_id c' = id
  /\ pick idxs (column_cells c) = Some (column_cells c').
Proof.
  destruct c as [k v|k v|v]; simpl; unfold gather; rewrite pick_fmap;
    fold (pick idxs (elems v)); destruct (pick idxs (elems v)); simpl;
    try done; by intros [= <-].
Qed.

Lemma gather_defined (idxs : list nat) (id : nat) (c : Column) :
  Forall (fun i => i < col_size c) idxs ->
  is_Some (typed_mapM (F := vector) (G := vector) (fun A => gather idxs id) c).
Proof.
  intros H.
  destruct c as [k v|k v|v]; simpl in *; unfold gather;
    destruct (pick_defined idxs (elems v) H) as [l Hl];
    unfold pick in Hl; rewrite Hl; by eexists.
Qed.

(** Two matrices with the same rows at the positions [i] and [j]. *)
Lemma mapM_lookup_pick {A} (idxs : list nat) (cols cols' : list (list A)) (j i : nat) :
  Forall2 (fun col col' => pick idxs col = Some col') cols cols' ->
  idxs !! j = Some i ->
  mapM (fun col => col !! j) cols' = mapM (fun col => col !! i) cols.
Proof.
  intros H Hj. induction H as [|col col' cols cols' Hp _ IH]; [done|].
  by rewrite !mapM_cons_eq, IH, (pick_lookup _ _ _ _ _ Hp Hj).
Qed.

Lemma gather_all_spec (idxs : list nat) (fresh : nat) (cols cols' : list Column) :
  mapM (fun '(i, src) =>
          typed_mapM (F := vector) (G := vector)
                     (fun A => gather idxs (fresh + i)) src)
       (imap (fun i src => (i, src)) cols) = Some cols' ->
  Forall2 (fun c c' => type_of c' = type_of c
                       /\ pick idxs (column_cells c) = Some (column_cells c'))
          cols cols'.
Proof.
  intros H. apply mapM_Some_1 in H.
  apply Forall2_same_length_lookup. split.
  - apply Forall2_length in H. by rewrite length_imap in H.
  - intros i c c' Hc Hc'.
    assert (imap (fun i src => (i, src)) cols !! i = Some (i, c)) as Hi
      by (by rewrite list_lookup_imap, Hc).
    pose proof (Forall2_lookup_lr _ _ _ _ _ _ H Hi Hc') as Hg. simpl in Hg.
    apply gather_cells in Hg. tauto.
Qed.

Lemma gather_all_defined (idxs : list nat) (fresh : nat) (cols : list Column) :
  Forall (fun c => Forall (fun i => i < col_size c) idxs) cols ->
  is_Some (mapM (fun '(i, src) =>
                   typed_mapM (F := vector) (G := vector)
                              (fun A => gather idxs (fresh + i)) src)
                (imap (fun i src => (i, src)) cols)).
Proof.
  intros H. apply mapM_is_Some_2, Forall_lookup. intros i [j c].
  rewrite list_lookup_imap. destruct (cols !! i) as [c0|] eqn:Hc; [|done].
  simpl. intros [= <- <-]. simpl. apply gather_defined.
  by apply (Forall_lookup_1 _ _ _ _ H Hc).
Qed.

(** The view resolved on a table under the class invariant spans
    [row_count_] elements. *)
Lemma view_length (tys : list ColTy) (t : Columnar) (T : ColTy) (name : string)
    (view : span (denote T)) :
  well_formed tys t ->
  get_column_view T name t = Value view ->
  length (span_elems view) = row_count_ t.
Proof.
  intros Hwf Hv.
  destruct (get_column_view_resolved tys t T name view Hwf Hv)
    as (i & c & _ & Hc & _ & _ & Hcells).
  destruct Hwf as [_ _ Hsizes].
  rewrite <- (Forall_lookup_1 _ _ _ _ Hsizes Hc), col_size_cells, <- Hcells.
  by rewrite length_fmap.
Qed.

(** Under the class invariant a filter whose column resolves returns a
    table: the positions where the predicate holds are kept, in order, and
    every column of the result is the source column picked at them, in a
    vector of its own. *)
Lemma filter_spec (tys : list ColTy) (t : Columnar) (T : ColTy) (name : string)
    (predicate : denote T -> bool) (fresh : nat) (view : span (denote T)) :
  well_formed tys t ->
  get_column_view T name t = Value view ->
  exists t',
    filter T name predicate t fresh = Some (Value t')
    /\ row_count_ t'
       = length (List.filter (holds_at predicate view) (seq 0 (row_count_ t)))
    /\ names_ t' = names_ t
    /\ Forall2 (fun c c' =>
                  type_of c' = type_of c
                  /\ pick (List.filter (holds_at predicate view) (seq 0 (row_count_ t)))
                          (column_cells c) = Some (column_cells c'))
               (columns_ t) (columns_ t')
    /\ forall i c', columns_ t' !! i = Some c' -> col_id c' = fresh + num_cols t + i.
Proof.
  intros Hwf Hv. pose proof (view_length _ _ _ _ _ Hwf Hv) as Hlen.
  set (kept := List.filter (holds_at predicate view) (seq 0 (row_count_ t))).
  assert (Forall (fun i => i < row_count_ t) kept) as Hkept.
  { eapply List.Forall_impl; [|apply filter_seq_bounds]. simpl. lia. }
  unfold filter. rewrite Hv.
  rewrite select_rows_spec
    by (rewrite Hlen; apply Forall_forall; intros i Hi; apply in_seq in Hi; lia).
  cbn [app]. fold kept. cbn [mbind option_bind].
  destruct (gather_all_defined kept fresh (columns_ t)) as [cols' Hcols'].
  { destruct Hwf as [_ _ Hsizes].
    eapply List.Forall_impl; [|exact Hsizes]. simpl. by intros c ->. }
  rewrite Hcols'. cbn [mbind option_bind].
  eexists. split; [done|]. cbn [row_count_ names_ copy_construct columns_].
  apply gather_all_spec in Hcols'.
  split_and!; try done.
  - apply Forall2_same_length_lookup. split.
    + rewrite length_imap. by eapply Forall2_length.
    + intros i c c'' Hc. rewrite list_lookup_imap.
      destruct (cols' !! i) as [c'|] eqn:Hc'; [|done]. simpl. intros [= <-].
      rewrite type_of_copy, column_cells_copy.
      apply (Forall2_lookup_lr _ _ _ _ _ _ Hcols' Hc Hc').
  - intros i c''. rewrite list_lookup_imap.
    destruct (cols' !! i) as [c'|]; [|done]. simpl. intros [= <-].
    apply col_id_copy.
Qed.

Lemma filter_well_formed (tys : list ColTy) (t t' : Columnar) (kept : list nat) :
  well_formed tys t ->
  row_count_ t' = length kept ->
  names_ t' = names_ t ->
  Forall2 (fun c c' => type_of c' = type_of c
                       /\ pick kept (column_cells c) = Some (column_cells c'))
          (columns_ t) (columns_ t') ->
  well_formed tys t'.
Proof.
  intros [Hty Hnames Hsizes] Hcount Hn Hcols. split.
  - rewrite <- Hty. clear -Hcols.
    induction Hcols as [|c c' cols cols' [Hc _] _ IH]; [done|].
    cbn [fmap list_fmap]. by rewrite Hc, IH.
  - by rewrite Hn.
  - clear -Hcols Hcount. induction Hcols as [|c c' cols cols' [_ Hp] _ IH];
      constructor; [|done].
    rewrite col_size_cells, Hcount. by eapply pick_length.
Qed.

Lemma filter_rows (tys : list ColTy) (t t' : Columnar) (kept : list nat) (j : nat) :
  Forall (fun i => i < row_count_ t) kept ->
  row_count_ t' = length kept ->
  Forall2 (fun c c' => type_of c' = type_of c
                       /\ pick kept (column_cells c) = Some (column_cells c'))
          (columns_ t) (columns_ t') ->
  get_row j t'
  = match kept !! j with
    | Some i => get_row i t
    | None => Some (Unexpected RowIndexOutOfBounds)
    end.
Proof.
  intros Hkept Hcount Hcols. rewrite get_row_contents, Hcount.
  destruct (Nat.leb_spec (length kept) j) as [Hge|Hlt].
  - by rewrite lookup_ge_None_2.
  - destruct (lookup_lt_is_Some_2 _ _ Hlt) as [i Hi]. rewrite Hi.
    pose proof (Forall_lookup_1 _ _ _ _ Hkept Hi) as Hin. simpl in Hin.
    rewrite get_row_contents.
    destruct (Nat.leb_spec (row_count_ t) i) as [|_]; [lia|].
    f_equal. apply (mapM_lookup_pick kept); [|done].
    unfold contents. apply Forall2_fmap.
    eapply List.Forall2_impl; [|exact Hcols]. simpl. tauto.
Qed.

(** C1.  When [filter] returns a table for a table under the class
    invariant, the named column has resolved to a view; the result has as
    many rows as there are positions below the row count where the
    predicate holds on the view; its rows are the rows of the source at
    those positions, value for value and in the same order; names and
    column types are those of the source; and every column of the result
    is a vector of its own, created during the call, hence none of the
    vectors that existed before, those of the source among them. *)
Theorem filter_keeps_matching_rows (tys : list ColTy) (t t' : Columnar)
    (T : ColTy) (name : string) (predicate : denote T -> bool) (fresh : nat) :
  well_formed tys t ->
  filter T name predicate t fresh = Some (Value t') ->
  exists view,
    get_column_view T name t = Value view
    /\ num_rows t'
       = length (List.filter (holds_at predicate view) (seq 0 (row_count_ t)))
    /\ (forall j,
          get_row j t'
          = match List.filter (holds_at predicate view) (seq 0 (row_count_ t)) !! j with
            | Some i => get_row i t
            | None => Some (Unexpected RowIndexOutOfBounds)
            end)
    /\ (forall j1 j2 i1 i2,
          j1 < j2 ->
          List.filter (holds_at predicate view) (seq 0 (row_count_ t)) !! j1 = Some i1 ->
          List.filter (holds_at predicate view) (seq 0 (row_count_ t)) !! j2 = Some i2 ->
          i1 < i2)
    /\ column_names t' = column_names t
    /\ type_of <$> columns_ t' = type_of <$> columns_ t
    /\ well_formed tys t'
    /\ (forall i c', columns_ t' !! i = Some c' -> col_id c' = fresh + num_cols t + i)
    /\ (forall c c',
          In c (columns_ t) -> col_id c < fresh -> In c' (columns_ t') ->
          col_id c' <> col_id c).
Proof.
  intros Hwf Hf.
  destruct (get_column_view T name t) as [view|e] eqn:Hv.
  2:{ by rewrite (filter_propagates _ _ _ _ _ _ Hv) in Hf. }
  exists view. split; [done|].
  destruct (filter_spec tys t T name predicate fresh view Hwf Hv)
    as (t'' & Ht'' & Hcount & Hnames & Hcols & Hids).
  rewrite Ht'' in Hf. injection Hf as <-.
  set (kept := List.filter (holds_at predicate view) (seq 0 (row_count_ t))) in *.
  assert (Forall (fun i => i < row_count_ t) kept) as Hkept.
  { eapply List.Forall_impl; [|apply filter_seq_bounds]. simpl. lia. }
  pose proof (filter_well_formed tys t t'' kept Hwf Hcount Hnames Hcols) as Hwf'.
  split_and!; try done.
  - intros j. by apply (filter_rows tys).
  - intros j1 j2 i1 i2. apply filter_seq_increasing.
  - destruct Hwf as [Hty _ _], Hwf' as [Hty' _ _]. congruence.
  - intros c c' _ Hold Hin.
    apply list_elem_of_In, list_elem_of_lookup in Hin as [i Hi].
    rewrite (Hids i c' Hi). lia.
Qed.

Lemma filter_filter_and {A} (f g : A -> bool) (l : list A) :
  List.filter g (List.filter f l) = List.filter (fun x => f x && g x) l.
Proof.
  induction l as [|x l IH]; [done|]. simpl.
  destruct (f x); simpl; [|done]. destruct (g x); by rewrite IH.
Qed.

(** Filtering the positions of a list by what stands there selects the
    positions of the elements a filter on the list keeps. *)
Lemma filter_positions (k : list nat) (f g : nat -> bool) :
  (forall j i, k !! j = Some i -> g j = f i) ->
  Forall2 (fun j i => k !! j = Some i)
          (List.filter g (seq 0 (length k))) (List.filter f k).
Proof.
  induction k as [|a k IH] using rev_ind; intros Hgf; [constructor|].
  rewrite length_app, Nat.add_comm. cbn [length Nat.add].
  rewrite seq_S, !List.filter_app. cbn [Nat.add]. apply Forall2_app.
  - eapply List.Forall2_impl; [|apply IH].
    + intros j i Hj. by apply lookup_app_l_Some.
    + intros j i Hj. apply Hgf. by apply lookup_app_l_Some.
  - assert ((k ++ [a])%list !! length k = Some a) as Ha
      by (by rewrite lookup_app_r, Nat.sub_diag).
    cbn [List.filter]. rewrite (Hgf _ _ Ha).
    destruct (f a); by repeat constructor.
Qed.

(** C9.  On a table under the class invariant whose columns [a] and [b]
    resolve at the types asked for, filtering on [a] and then filtering
    the result on [b] both succeed, and the final table has exactly the
    rows of the table at the positions where the first predicate holds on
    [a] and the second holds on [b], in the order of the table: the rows a
    single pass keeping the conjunction would retain. *)
Theorem filter_twice (tys : list ColTy) (t : Columnar) (Ta Tb : ColTy)
    (a b : string) (pa : denote Ta -> bool) (pb : denote Tb -> bool)
    (fresh1 fresh2 : nat) (va : span (denote Ta)) (vb : span (denote Tb)) :
  well_formed tys t ->
  get_column_view Ta a t = Value va ->
  get_column_view Tb b t = Value vb ->
  exists t1 t2,
    filter Ta a pa t fresh1 = Some (Value t1)
    /\ filter Tb b pb t1 fresh2 = Some (Value t2)
    /\ num_rows t2
       = length (List.filter (fun i => holds_at pa va i && holds_at pb vb i)
                             (seq 0 (row_count_ t)))
    /\ forall j,
         get_row j t2
         = match List.filter (fun i => holds_at pa va i && holds_at pb vb i)
                             (seq 0 (row_count_ t)) !! j with
           | Some i => get_row i t
           | None => Some (Unexpected RowIndexOutOfBounds)
           end.
Proof.
  intros Hwf Hva Hvb.
  destruct (filter_spec tys t Ta a pa fresh1 va Hwf Hva)
    as (t1 & Ht1 & Hcount1 & Hnames1 & Hcols1 & _).
  set (kept_a := List.filter (holds_at pa va) (seq 0 (row_count_ t))) in *.
  assert (Forall (fun i => i < row_count_ t) kept_a) as Hkept_a.
  { eapply List.Forall_impl; [|apply filter_seq_bounds]. simpl. lia. }
  pose proof (filter_well_formed tys t t1 kept_a Hwf Hcount1 Hnames1 Hcols1) as Hwf1.
  (* the column [b] of the intermediate table *)
  destruct (get_column_view_resolved tys t Tb b vb Hwf Hvb)
    as (ib & cb & Hfirst & Hcb & Htb & _ & Hcells).
  destruct (Forall2_lookup_l _ _ _ _ _ Hcols1 Hcb) as (cb1 & Hcb1 & Htb1 & Hpick).
  assert (first_named b t1 ib) as Hfirst1
    by (unfold first_named; by rewrite Hnames1).
  destruct (get_column_view_at_first Tb b t1 ib cb1 Hfirst1 Hcb1) as [Hok _].
  destruct (Hok ltac:(congruence)) as (vb1 & Hvb1 & _ & Hcells1).
  destruct (filter_spec tys t1 Tb b pb fresh2 vb1 Hwf1 Hvb1)
    as (t2 & Ht2 & Hcount2 & Hnames2 & Hcols2 & _).
  rewrite Hcount1 in Hcount2, Hcols2.
  set (kept_b := List.filter (holds_at pb vb1) (seq 0 (length kept_a))) in *.
  assert (Forall (fun j => j < row_count_ t1) kept_b) as Hkept_b.
  { rewrite Hcount1. eapply List.Forall_impl; [|apply filter_seq_bounds]. simpl. lia. }
  (* the second predicate sees the values of [b] at the kept positions *)
  assert (forall j i, kept_a !! j = Some i -> holds_at pb vb1 j = holds_at pb vb i)
    as Hsame.
  { intros j i Hj. unfold holds_at.
    pose proof (pick_lookup _ _ _ _ _ Hpick Hj) as Hl.
    rewrite <- Hcells, <- Hcells1, !list_lookup_fmap in Hl.
    destruct (span_elems vb1 !! j) as [x|], (span_elems vb !! i) as [y|];
      try done.
    injection Hl as Hl. apply tag_inj in Hl. by subst. }
  pose proof (filter_positions kept_a (holds_at pb vb) (holds_at pb vb1) Hsame)
    as Hpos.
  fold kept_b in Hpos. unfold kept_a in Hpos at 2.
  rewrite filter_filter_and in Hpos.
  set (both := List.filter (fun i => holds_at pa va i && holds_at pb vb i)
                           (seq 0 (row_count_ t))) in *.
  exists t1, t2. split_and!; try done.
  - unfold num_rows. rewrite Hcount2. by eapply Forall2_length.
  - intros j. rewrite (filter_rows tys t1 t2 kept_b j Hkept_b Hcount2 Hcols2).
    destruct (both !! j) as [i|] eqn:Hj.
    + destruct (Forall2_lookup_r _ _ _ _ _ Hpos Hj) as (j1 & -> & Hj1).
      by rewrite (filter_rows tys t t1 kept_a j1 Hkept_a Hcount1 Hcols1), Hj1.
    + apply lookup_ge_None in Hj.
      rewrite lookup_ge_None_2; [done|].
      apply Forall2_length in Hpos. lia.
Qed.

(** C10.  Whatever other columns bear the same name, lookup by name goes by
    the first position holding the name.  When the column there has the
    type [T], the view over that column is returned and [filter] selects
    the rows by it; otherwise the lookup fails with [ParseError], and so
    does [filter], even if a later column of that name has the type [T]. *)
Theorem get_column_view_first_match (tys : list ColTy) (t : Columnar) (T : ColTy)
    (name : string) (i : nat) (c : Column) :
  well_formed tys t ->
  first_named name t i ->
  columns_ t !! i = Some c ->
  (type_of c = T ->
   exists s,
     get_column_view T name t = Value s
     /\ viewed s = col_id c
     /\ tag T <$> span_elems s = column_cells c
     /\ forall predicate fresh,
          exists t',
            filter T name predicate t fresh = Some (Value t')
            /\ num_rows t'
               = length (List.filter (holds_at predicate s) (seq 0 (row_count_ t))))
  /\ (type_of c <> T ->
      get_column_view T name t = Unexpected ParseError
      /\ forall predicate fresh,
           filter T name predicate t fresh = Some (Unexpected ParseError)).
Proof.
  intros Hwf Hi Hc.
  destruct (get_column_view_at_first T name t i c Hi Hc) as [Hok Hbad].
  split.
  - intros HT. destruct (Hok HT) as (s & Hs & Hid & Hcells).
    exists s. split_and!; try done.
    intros predicate fresh.
    destruct (filter_spec tys t T name predicate fresh s Hwf Hs)
      as (t' & Ht' & Hcount & _).
    by exists t'.
  - intros HT. split; [by apply Hbad|].
    intros predicate fresh. apply filter_propagates. by apply Hbad.
Qed.

(** * The properties at work on the example files *)

Lemma simple_table_well_formed : well_formed [TInt Int; TInt Int] simple_table.
Proof. split; [reflexivity..|]. repeat constructor. Qed.

Lemma twins_table_well_formed : well_formed [TInt Int; TFloat Double] twins_table.
Proof. split; [reflexivity..|]. repeat constructor. Qed.

(** [filter<int>("value", v > 30)] on the simple table keeps the rows
    (4, 40) and (5, 50), in that order, in vectors of its own. *)
Lemma filter_keeps_matching_rows_witness :
  well_formed [TInt Int; TInt Int] simple_table
  /\ filter (TInt Int) "value" (fun v => (30 <? v)%Z) simple_table 4
     = Some (Value {| columns_ := [OfInt Int (mk_vector 6 [4; 5]%Z);
                                   OfInt Int (mk_vector 7 [40; 50]%Z)];
                      names_ := ["id"; "value"];
                      row_count_ := 2 |})
  /\ exists view,
       get_column_view (TInt Int) "value" simple_table = Value view
       /\ num_rows {| columns_ := [OfInt Int (mk_vector 6 [4; 5]%Z);
                                   OfInt Int (mk_vector 7 [40; 50]%Z)];
                      names_ := ["id"; "value"];
                      row_count_ := 2 |}
          = length (List.filter (holds_at (fun v => (30 <? v)%Z) view)
                                (seq 0 (row_count_ simple_table))).
Proof.
  split; [exact simple_table_well_formed|]. split; [reflexivity|].
  destruct (filter_keeps_matching_rows [TInt Int; TInt Int] simple_table
              {| columns_ := [OfInt Int (mk_vector 6 [4; 5]%Z);
                              OfInt Int (mk_vector 7 [40; 50]%Z)];
                 names_ := ["id"; "value"];
                 row_count_ := 2 |}
              (TInt Int) "value" (fun v => (30 <? v)%Z) 4
              simple_table_well_formed eq_refl)
    as (view & Hview & Hcount & _).
  exists view. split; [exact Hview|exact Hcount].
Defined.

(** C3 as stated fails: the line [1,10, ] of [data/trailing_space.csv] is
    not blank, has three fields for two columns and a blank left after the
    fields of the columns, and yet the load succeeds with the row
    (1, 10).  So does the load of [data/trailing_comma.csv], whose line
    [1,10,] ends with a delimiter. *)
Lemma trailing_space_is_accepted :
  example_fs "data/trailing_space.csv" = Some (unlines ["id,value"; "1,10, "])
  /\ lines_of (unlines ["id,value"; "1,10, "]) = ["id,value"; "1,10, "]
  /\ fields_of "1,10, " = ["1"; "10"; " "]
  /\ remainder 2 "1,10, " = " "
  /\ try_read_from_csv ieee_range_error [TInt Int; TInt Int] example_fs
       "data/trailing_space.csv" 0
     = Some (Value {| columns_ := [OfInt Int (mk_vector 2 [1]%Z);
                                   OfInt Int (mk_vector 3 [10]%Z)];
                      names_ := ["id"; "value"];
                      row_count_ := 1 |})
  /\ try_read_from_csv ieee_range_error [TInt Int; TInt Int] example_fs
       "data/trailing_space.csv" 0
     <> Some (Unexpected ParseError)
  /\ try_read_from_csv ieee_range_error [TInt Int; TInt Int] example_fs
       "data/trailing_comma.csv" 0
     = Some (Value {| columns_ := [OfInt Int (mk_vector 2 [1]%Z);
                                   OfInt Int (mk_vector 3 [10]%Z)];
                      names_ := ["id"; "value"];
                      row_count_ := 1 |}).
Proof. split_and!; try reflexivity. discriminate. Qed.

(** The line [1,10,7] has a third field that is not blank: the load of
    [data/extra_field.csv] fails with [ParseError].  The line [1,] of
    [data/final_comma.csv] splits on commas into the fields [1] and the
    empty string, one for each column of a table of an [int] and a
    [std::string], and both would convert; but the comma ends the line,
    the second field is never read, and the load fails with
    [ParseError]. *)
Lemma load_rejects_short_or_trailing_witness :
  example_fs "data/extra_field.csv" = Some (unlines ["id,value"; "1,10,7"])
  /\ lines_of (unlines ["id,value"; "1,10,7"]) = ["id,value"; "1,10,7"]
  /\ is_empty "id,value" = false
  /\ length (fields_of "id,value") = length [TInt Int; TInt Int]
  /\ In "1,10,7" (nonblank ["1,10,7"])
  /\ (length (fields_of "1,10,7") < length [TInt Int; TInt Int]
      \/ all_space (remainder (length [TInt Int; TInt Int]) "1,10,7") = false)
  /\ try_read_from_csv ieee_range_error [TInt Int; TInt Int] example_fs
       "data/extra_field.csv" 0
     = Some (Unexpected ParseError)
  /\ final_comma_fs "data/final_comma.csv" = Some (unlines ["id,name"; "1,"])
  /\ lines_of (unlines ["id,name"; "1,"]) = ["id,name"; "1,"]
  /\ In "1," (nonblank ["1,"])
  /\ ends_with kCsvDelimiter "1," = true
  /\ split_on kCsvDelimiter "1," = ["1"; ""]
  /\ convert ieee_range_error (TInt Int) "1" = Some (OfInt Int 1%Z)
  /\ convert ieee_range_error TString "" = Some (OfString "")
  /\ try_read_from_csv ieee_range_error [TInt Int; TString] final_comma_fs
       "data/final_comma.csv" 0
     = Some (Unexpected ParseError).
Proof.
  split_and!; [reflexivity| reflexivity | reflexivity | reflexivity
              | left; reflexivity | right; reflexivity | | reflexivity
              | reflexivity | left; reflexivity | reflexivity | reflexivity
              | reflexivity | reflexivity | ].
  - apply (proj1 (load_rejects_short_or_trailing ieee_range_error
                    [TInt Int; TInt Int] example_fs "data/extra_field.csv" 0
                    (unlines ["id,value"; "1,10,7"]) "id,value" ["1,10,7"]
                    eq_refl eq_refl eq_refl eq_refl)
             "1,10,7").
    + left; reflexivity.
    + right; reflexivity.
  - apply (proj1 (proj2 (load_rejects_short_or_trailing ieee_range_error
                           [TInt Int; TString] final_comma_fs
                           "data/final_comma.csv" 0
                           (unlines ["id,name"; "1,"]) "id,name" ["1,"]
                           eq_refl eq_refl eq_refl eq_refl))
             "1,").
    + left; reflexivity.
    + reflexivity.
    + simpl. lia.
Defined.

(** [data/empty_lines.csv] has six data lines, four of them empty: it
    loads into a table of two rows, with two elements in each of its two
    columns. *)
Lemma load_counts_witness :
  more_fs "data/empty_lines.csv"
  = Some (unlines ["id,value"; ""; "1,10"; ""; ""; "2,20"; ""])
  /\ lines_of (unlines ["id,value"; ""; "1,10"; ""; ""; "2,20"; ""])
     = ["id,value"; ""; "1,10"; ""; ""; "2,20"; ""]
  /\ is_empty "id,value" = false
  /\ length (fields_of "id,value") = length [TInt Int; TInt Int]
  /\ nonblank [""; "1,10"; ""; ""; "2,20"; ""] = ["1,10"; "2,20"]
  /\ Forall (fun line =>
               is_Some (convert_row ieee_range_error [TInt Int; TInt Int] line))
            (nonblank [""; "1,10"; ""; ""; "2,20"; ""])
  /\ exists t,
       try_read_from_csv ieee_range_error [TInt Int; TInt Int] more_fs
         "data/empty_lines.csv" 0 = Some (Value t)
       /\ num_rows t = 2
       /\ num_cols t = 2
       /\ Forall (fun c => col_size c = num_rows t) (columns_ t)
       /\ column_names t = ["id"; "value"].
Proof.
  assert (Forall (fun line =>
                    is_Some (convert_row ieee_range_error [TInt Int; TInt Int]
                               line))
                 (nonblank [""; "1,10"; ""; ""; "2,20"; ""])) as Hall.
  { constructor; [by eexists|]. constructor; [by eexists|]. constructor. }
  split_and!; [reflexivity..|exact Hall|].
  apply (proj1 (proj2 (load_counts ieee_range_error [TInt Int; TInt Int]
                         more_fs "data/empty_lines.csv" 0))
           (unlines ["id,value"; ""; "1,10"; ""; ""; "2,20"; ""]) "id,value"
           [""; "1,10"; ""; ""; "2,20"; ""]);
    try reflexivity.
  exact Hall.
Defined.

(** [data/simple.csv] loads into a table that bears the header fields as
    names. *)
Lemma load_header_witness :
  try_read_from_csv ieee_range_error [TInt Int; TInt Int] example_fs
    "data/simple.csv" 0 = Some (Value simple_table)
  /\ exists content header data,
       example_fs "data/simple.csv" = Some content
       /\ lines_of content = header :: data
       /\ column_names simple_table = fields_of header
       /\ forall i name,
            fields_of header !! i = Some name ->
            column_names simple_table !! i = Some name.
Proof.
  split; [reflexivity|].
  apply (proj1 (proj2 (proj2 (load_header ieee_range_error [TInt Int; TInt Int]
                                example_fs "data/simple.csv" 0)))
           simple_table).
  reflexivity.
Defined.

(** C5 as stated fails: the header [id,value,] of
    [data/header_comma.csv] splits on commas into three fields, the last
    one empty, and yet the file loads for two columns, with the names
    [id] and [value]; for three columns, as many as the header splits
    into, the load fails with [InvalidFormat]. *)
Lemma header_final_comma_is_accepted :
  more_fs "data/header_comma.csv"
  = Some (unlines ["id,value,"; "1,10"; "2,20"])
  /\ lines_of (unlines ["id,value,"; "1,10"; "2,20"])
     = ["id,value,"; "1,10"; "2,20"]
  /\ split_on kCsvDelimiter "id,value," = ["id"; "value"; ""]
  /\ length (split_on kCsvDelimiter "id,value,") <> length [TInt Int; TInt Int]
  /\ try_read_from_csv ieee_range_error [TInt Int; TInt Int] more_fs
       "data/header_comma.csv" 0
     = Some (Value {| columns_ := [OfInt Int (mk_vector 2 [1; 2]%Z);
                                   OfInt Int (mk_vector 3 [10; 20]%Z)];
                      names_ := ["id"; "value"];
                      row_count_ := 2 |})
  /\ try_read_from_csv ieee_range_error [TInt Int; TInt Int] more_fs
       "data/header_comma.csv" 0
     <> Some (Unexpected InvalidFormat)
  /\ length (split_on kCsvDelimiter "id,value,")
     = length [TInt Int; TInt Int; TString]
  /\ try_read_from_csv ieee_range_error [TInt Int; TInt Int; TString] more_fs
       "data/header_comma.csv" 0
     = Some (Unexpected InvalidFormat).
Proof. split_and!; try reflexivity; discriminate. Qed.

(** On the simple table, the column [id] asked for as [double] is a
    [ParseError] because the column so named holds [int]; the column
    [value] asked for as [int] is found at position 1, and the view
    returned designates its vector and shows its five elements. *)
Lemma get_column_view_outcome_witness :
  well_formed [TInt Int; TInt Int] simple_table
  /\ (get_column_view (TFloat Double) "id" simple_table = Unexpected ParseError <->
      exists i c, first_named "id" simple_table i
                  /\ columns_ simple_table !! i = Some c
                  /\ type_of c <> TFloat Double)
  /\ first_named "value" simple_table 1
  /\ columns_ simple_table !! 1
     = Some (OfInt Int (mk_vector 3 [10; 20; 30; 40; 50]%Z))
  /\ exists s,
       get_column_view (TInt Int) "value" simple_table = Value s
       /\ viewed s = 3
       /\ tag (TInt Int) <$> span_elems s
          = column_cells (OfInt Int (mk_vector 3 [10; 20; 30; 40; 50]%Z)).
Proof.
  assert (first_named "value" simple_table 1) as Hfirst.
  { split; [reflexivity|]. intros j Hj.
    destruct j as [|j]; [discriminate|lia]. }
  split; [exact simple_table_well_formed|]. split.
  { exact (proj1 (proj2 (get_column_view_outcome [TInt Int; TInt Int]
                           simple_table (TFloat Double) "id"
                           simple_table_well_formed))). }
  split; [exact Hfirst|]. split; [reflexivity|].
  exact (proj1 (proj2 (proj2 (get_column_view_outcome [TInt Int; TInt Int]
                                simple_table (TInt Int) "value"
                                simple_table_well_formed)))
           1 (OfInt Int (mk_vector 3 [10; 20; 30; 40; 50]%Z))
           Hfirst eq_refl eq_refl).
Defined.

(** C7 as stated fails on a table with two columns of one name.  In the
    table loaded from [data/twins.csv] a column named [x] exists whose
    type, [double], differs from [int]; and yet asking for [x] as [int]
    is no [ParseError]: it succeeds, with the view over the first column
    named [x]. *)
Lemma later_column_of_other_type_is_accepted :
  try_read_from_csv ieee_range_error [TInt Int; TFloat Double] example_fs
    "data/twins.csv" 0 = Some (Value twins_table)
  /\ names_ twins_table !! 1 = Some "x"
  /\ columns_ twins_table !! 1
     = Some (OfFloat Double
               (mk_vector 3 [Finite false (5 # 2); Finite false (7 # 2)]))
  /\ type_of (OfFloat Double
                (mk_vector 3 [Finite false (5 # 2); Finite false (7 # 2)]))
     <> TInt Int
  /\ get_column_view (TInt Int) "x" twins_table = Value (mk_span 2 [1; 2]%Z)
  /\ get_column_view (TInt Int) "x" twins_table <> Unexpected ParseError.
Proof. split_and!; try reflexivity; discriminate. Qed.

(** Row 2 of the simple table is (3, 30), element by element what the
    views over the columns show at index 2. *)
Lemma get_row_outcome_witness :
  well_formed [TInt Int; TInt Int] simple_table
  /\ 2 < row_count_ simple_table
  /\ exists row,
       get_row 2 simple_table = Some (Value row)
       /\ length row = num_cols simple_table
       /\ type_of <$> row = [TInt Int; TInt Int]
       /\ forall i, i < num_cols simple_table ->
            exists view x,
              get_column_view_at i simple_table = Some view
              /\ view_cells view !! 2 = Some x
              /\ row !! i = Some x.
Proof.
  split; [exact simple_table_well_formed|].
  split; [unfold simple_table; simpl; lia|].
  apply (proj2 (get_row_outcome [TInt Int; TInt Int] simple_table 2
                  simple_table_well_formed)).
  unfold simple_table; simpl; lia.
Defined.

(** Filtering the simple table on [value >= 20] and then on [id < 5] gives
    the rows at the positions 1, 2 and 3. *)
Lemma filter_twice_witness :
  well_formed [TInt Int; TInt Int] simple_table
  /\ get_column_view (TInt Int) "value" simple_table
     = Value (mk_span 3 [10; 20; 30; 40; 50]%Z)
  /\ get_column_view (TInt Int) "id" simple_table
     = Value (mk_span 2 [1; 2; 3; 4; 5]%Z)
  /\ exists t1 t2,
       filter (TInt Int) "value" (fun v => (20 <=? v)%Z) simple_table 4
       = Some (Value t1)
       /\ filter (TInt Int) "id" (fun v => (v <? 5)%Z) t1 8 = Some (Value t2)
       /\ num_rows t2 = 3
       /\ get_row 0 t2 = get_row 1 simple_table.
Proof.
  split; [exact simple_table_well_formed|].
  split; [reflexivity|]. split; [reflexivity|].
  destruct (filter_twice [TInt Int; TInt Int] simple_table (TInt Int) (TInt Int)
              "value" "id" (fun v => (20 <=? v)%Z) (fun v => (v <? 5)%Z) 4 8
              (mk_span 3 [10; 20; 30; 40; 50]%Z) (mk_span 2 [1; 2; 3; 4; 5]%Z)
              simple_table_well_formed eq_refl eq_refl)
    as (t1 & t2 & H1 & H2 & Hcount & Hrows).
  exists t1, t2. split; [exact H1|]. split; [exact H2|].
  split; [exact Hcount|exact (Hrows 0)].
Defined.

(** In the table of [data/twins.csv] both columns are named [x]; the
    first holds [int], so asking for [x] as [double] is a [ParseError]
    although the second column holds [double]. *)
Lemma get_column_view_first_match_witness :
  well_formed [TInt Int; TFloat Double] twins_table
  /\ first_named "x" twins_table 0
  /\ names_ twins_table !! 1 = Some "x"
  /\ type_of <$> columns_ twins_table !! 1 = Some (TFloat Double)
  /\ columns_ twins_table !! 0 = Some (OfInt Int (mk_vector 2 [1; 2]%Z))
  /\ type_of (OfInt Int (mk_vector 2 [1; 2]%Z)) <> TFloat Double
  /\ get_column_view (TFloat Double) "x" twins_table = Unexpected ParseError
  /\ forall predicate fresh,
       filter (TFloat Double) "x" predicate twins_table fresh
       = Some (Unexpected ParseError).
Proof.
  assert (first_named "x" twins_table 0) as Hfirst
    by (split; [reflexivity|intros j Hj; lia]).
  split; [exact twins_table_well_formed|].
  split; [exact Hfirst|].
  split; [reflexivity|]. split; [reflexivity|]. split; [reflexivity|].
  split; [discriminate|].
  apply (proj2 (get_column_view_first_match [TInt Int; TFloat Double] twins_table
                  (TFloat Double) "x" 0 (OfInt Int (mk_vector 2 [1; 2]%Z))
                  twins_table_well_formed Hfirst eq_refl)).
  discriminate.
Defined.

(** C6 on the code.  The floating-point overload takes the field [ 1.5],
    which starts with a blank, as 3/2 ([strtod] skips leading white space),
    and likewise [inf] and the hexadecimal [0x10], so the file
    [data/leading_space.csv] loads; the integral overload rejects the
    field [ 1] for its leading blank. *)
Theorem floating_field_with_leading_space :
  parse_value_floating ieee_range_error Double " 1.5" = Value (Finite false (3 # 2))
  /\ parse_value_floating ieee_range_error Double "inf" = Value (Infinity false)
  /\ parse_value_floating ieee_range_error Double "0x10" = Value (Finite false 16)
  /\ parse_value_integral Int " 1" = Unexpected ParseError
  /\ try_read_from_csv ieee_range_error [TFloat Double] example_fs
       "data/leading_space.csv" 0
     = Some (Value {| columns_ := [OfFloat Double (mk_vector 1 [Finite false (3 # 2)])];
                      names_ := ["energy"];
                      row_count_ := 1 |}).
Proof. split_and!; reflexivity. Qed.

(** * Fields: what the overloads of [parse_value] take *)

Lemma span_while_split (p : ascii -> bool) (s a b : string) :
  span_while p s = (a, b) ->
  s = a ++ b /\ string_forall p a = true
  /\ match b with String c _ => p c = false | EmptyString => True end.
Proof.
  revert a b. induction s as [|c r IH]; intros a b; simpl.
  - by intros [= <- <-].
  - destruct (p c) eqn:Hp.
    + destruct (span_while p r) as [a' b'] eqn:Hs. intros [= <- <-].
      destruct (IH a' b' eq_refl) as (-> & Ha & Hb). simpl. by rewrite Hp.
    + by intros [= <- <-].
Qed.

Lemma span_while_all (p : ascii -> bool) (s : string) :
  string_forall p s = true -> span_while p s = (s, EmptyString).
Proof.
  induction s as [|c r IH]; [done|]. simpl.
  destruct (p c); [|done]. simpl. intros H. by rewrite (IH H).
Qed.

Lemma string_app_cons (c : ascii) (a b : string) :
  String c a ++ b = String c (a ++ b).
Proof. reflexivity. Qed.

Lemma string_app_nil (b : string) : EmptyString ++ b = b.
Proof. reflexivity. Qed.

Lemma string_length_app (a b : string) :
  String.length (a ++ b) = String.length a + String.length b.
Proof.
  induction a as [|c a IH]; [done|].
  rewrite string_app_cons. simpl. by rewrite IH.
Qed.

Lemma string_app_empty_r (a : string) : a ++ EmptyString = a.
Proof.
  induction a as [|c a IH]; [done|]. by rewrite string_app_cons, IH.
Qed.

Lemma string_length_zero (s : string) : String.length s = 0 -> s = EmptyString.
Proof. by destruct s. Qed.

(** The minus sign is no digit, and white space is neither. *)
Lemma minus_not_digit : is_digit "-" = false.
Proof. reflexivity. Qed.

Lemma isspace_not_digit (c : ascii) : isspace c = true -> is_digit c = false.
Proof.
  unfold isspace, is_digit. intros H.
  destruct (Nat.leb_spec 48 (char_code c)), (Nat.leb_spec (char_code c) 57);
    try done.
  destruct (Nat.eqb_spec (char_code c) 32); [lia|].
  destruct (Nat.leb_spec 9 (char_code c)), (Nat.leb_spec (char_code c) 13);
    try done; lia.
Qed.

(** The first step of [from_chars]: a minus sign is set apart for the
    signed types. *)
Lemma from_chars_sign (k : IntKind) (s : string) :
  match s with
  | String "-"%char r => if is_signed k then (true, r) else (false, s)
  | _ => (false, s)
  end
  = match s with
    | String c r =>
        if Ascii.eqb c "-" && is_signed k then (true, r) else (false, s)
    | EmptyString => (false, s)
    end.
Proof.
  destruct s as [|c r]; [done|].
  destruct (Ascii.eqb_spec c "-") as [->|Hne]; [by destruct (is_signed k)|].
  destruct c as [[] [] [] [] [] [] [] []]; try done.
Qed.

Lemma parse_value_integral_numeral (k : IntKind) (str : string) (z : Z) :
  parse_value_integral k str = Value z <-> integer_numeral k str z.
Proof.
  unfold integer_numeral.
  unfold parse_value_integral, from_chars. rewrite from_chars_sign. split.
  - destruct str as [|c r].
    { simpl. done. }
    destruct (Ascii.eqb c "-" && is_signed k) eqn:Hsign.
    + apply andb_true_iff in Hsign as [Hc Hk]. apply Ascii.eqb_eq in Hc as ->.
      destruct (span_while is_digit r) as [ds rest] eqn:Hs.
      destruct (span_while_split _ _ _ _ Hs) as (-> & Hds & _).
      destruct (is_empty ds) eqn:He; [done|].
      destruct ((int_min k <=? - decimal ds)%Z && (- decimal ds <=? int_max k)%Z)
        eqn:Hrange; [|done].
      cbn [String.length]. rewrite string_length_app.
      destruct (Nat.eqb_spec (S (String.length ds + String.length rest)
                              - String.length rest)
                             (S (String.length ds + String.length rest)))
        as [Hptr|]; [|done].
      simpl. intros [= <-].
      assert (rest = EmptyString) as -> by (apply string_length_zero; lia).
      exists true, ds. rewrite string_app_empty_r.
      split_and!; try done; [by destruct ds|lia|lia].
    + destruct (span_while is_digit (String c r)) as [ds rest] eqn:Hs.
      destruct (span_while_split _ _ _ _ Hs) as (Heq & Hds & _).
      destruct (is_empty ds) eqn:He; [done|].
      destruct ((int_min k <=? decimal ds)%Z && (decimal ds <=? int_max k)%Z)
        eqn:Hrange; [|done].
      rewrite Heq, string_length_app.
      destruct (Nat.eqb_spec (String.length ds + String.length rest
                              - String.length rest)
                             (String.length ds + String.length rest))
        as [Hptr|]; [|done].
      simpl. intros [= <-].
      assert (rest = EmptyString) as ->.
      { apply string_length_zero. destruct ds; [done|]. simpl in Hptr. lia. }
      exists false, ds. rewrite string_app_empty_r.
      split_and!; try done; [by destruct ds|lia|lia].
  - intros (neg & ds & -> & Hne & Hds & Hk & -> & Hrange).
    destruct neg.
    + rewrite string_app_cons, string_app_nil.
      rewrite Ascii.eqb_refl, (Hk eq_refl). cbn [andb].
      rewrite (span_while_all _ _ Hds).
      destruct ds as [|d ds]; [done|]. cbn [is_empty].
      assert ((int_min k <=? - decimal (String d ds))%Z
              && (- decimal (String d ds) <=? int_max k)%Z = true) as ->
        by (apply andb_true_iff; split; lia).
      cbn [String.length]. rewrite Nat.sub_0_r, Nat.eqb_refl. done.
    + rewrite string_app_nil. destruct ds as [|d ds]; [done|].
      assert (Ascii.eqb d "-" = false) as ->.
      { apply Ascii.eqb_neq. intros ->. simpl in Hds. done. }
      cbn [andb]. rewrite (span_while_all _ _ Hds). cbn [is_empty].
      assert ((int_min k <=? decimal (String d ds))%Z
              && (decimal (String d ds) <=? int_max k)%Z = true) as ->
        by (apply andb_true_iff; split; lia).
      rewrite Nat.sub_0_r, Nat.eqb_refl. done.
Qed.

(** The integral overload fails with [ParseError] only. *)
Lemma parse_value_integral_error (k : IntKind) (str : string) (e : CsvError) :
  parse_value_integral k str = Unexpected e -> e = ParseError.
Proof.
  unfold parse_value_integral.
  destruct (from_chars k str 0) as [[ptr ec] value].
  destruct (negb (bool_decide (ec = errc_ok))
            || negb (ptr =? String.length str)); [|done].
  by intros [= <-].
Qed.

(** X1.  The integral overload takes a field exactly when it is made of a
    minus sign, for the signed types only, and one or more decimal digits,
    with nothing before or after, and denotes a value in the range of the
    type; the value returned is the one denoted.  Every other field gives
    [ParseError]. *)
Theorem parse_value_integral_accepts (k : IntKind) (str : string) :
  (forall z, parse_value_integral k str = Value z <-> integer_numeral k str z)
  /\ (parse_value_integral k str = Unexpected ParseError <->
      forall z, ~ integer_numeral k str z).
Proof.
  split; [intros z; apply parse_value_integral_numeral|]. split.
  - intros Herr z Hz. apply parse_value_integral_numeral in Hz.
    by rewrite Herr in Hz.
  - intros Hnone.
    destruct (parse_value_integral k str) as [z|e] eqn:Hres.
    + destruct (Hnone z). by apply parse_value_integral_numeral.
    + by rewrite (parse_value_integral_error k str e Hres).
Qed.

Lemma span_while_length (p : ascii -> bool) (s : string) :
  String.length (snd (span_while p s)) <= String.length s.
Proof.
  induction s as [|c r IH]; [done|]. simpl.
  destruct (p c); [|done]. destruct (span_while p r). simpl in *. lia.
Qed.

Lemma span_while_length_fst (p : ascii -> bool) (s : string) :
  String.length (fst (span_while p s)) + String.length (snd (span_while p s))
  = String.length s.
Proof.
  induction s as [|c r IH]; [done|]. simpl.
  destruct (p c); [|done]. destruct (span_while p r). simpl in *. lia.
Qed.

Lemma strip_sign_length (s : string) :
  String.length (snd (strip_sign s)) <= String.length s.
Proof.
  destruct s as [|c r]; [done|].
  destruct (Ascii.eqb_spec c "-") as [->|Hm]; [simpl; lia|].
  destruct (Ascii.eqb_spec c "+") as [->|Hp]; [simpl; lia|].
  destruct c as [[] [] [] [] [] [] [] []]; try done.
Qed.

Lemma match_nocase_length (pat s r : string) :
  match_nocase pat s = Some r ->
  String.length r + String.length pat = String.length s.
Proof.
  revert s. induction pat as [|p pat IH]; intros s; simpl.
  - intros [= <-]. lia.
  - destruct s as [|c s']; [done|].
    destruct (Ascii.eqb (to_lower c) p); [|done].
    intros H. apply IH in H. simpl. lia.
Qed.

Lemma scan_exponent_length (marker : ascii) (s : string) :
  String.length (snd (scan_exponent marker s)) <= String.length s.
Proof.
  unfold scan_exponent. destruct s as [|c r]; [done|].
  destruct (Ascii.eqb (to_lower c) marker); [|done].
  pose proof (strip_sign_length r) as Hsign.
  destruct (strip_sign r) as [neg r'].
  pose proof (span_while_length is_digit r') as Hds.
  destruct (span_while is_digit r') as [ds rest].
  destruct (is_empty ds); simpl in *; lia.
Qed.

Lemma scan_mantissa_length (isd : ascii -> bool) (s ip fp r2 : string) :
  scan_mantissa isd s = Some (ip, fp, r2) ->
  String.length r2 < String.length s.
Proof.
  unfold scan_mantissa.
  pose proof (span_while_length_fst isd s) as H1.
  destruct (span_while isd s) as [ip' r1]. simpl in H1.
  destruct (Ascii.eqb_spec (match r1 with String c _ => c | _ => "x"%char end) ".")
    as [Hdot|Hnot].
  - destruct r1 as [|c r]; [done|]. simpl in Hdot. subst c.
    pose proof (span_while_length_fst isd r) as H2.
    destruct (span_while isd r) as [fp' r2']. simpl in H1, H2.
    destruct (is_empty ip' && is_empty fp') eqn:He; [done|].
    intros [= <- <- <-]. lia.
  - assert ((match r1 with
             | String "."%char r => span_while isd r
             | _ => (EmptyString, r1)
             end) = (EmptyString, r1)) as ->.
    { destruct r1 as [|c r]; [done|]. simpl in Hnot.
      destruct c as [[] [] [] [] [] [] [] []]; try done. }
    destruct (is_empty ip') eqn:He; simpl; [done|].
    intros [= <- <- <-]. destruct ip'; [done|]. simpl in H1. lia.
Qed.

Lemma scan_nan_payload_length (s : string) :
  String.length (scan_nan_payload s) <= String.length s.
Proof.
  unfold scan_nan_payload. destruct s as [|c r]; [done|].
  destruct (Ascii.eqb_spec c "(") as [->|Hne].
  - pose proof (span_while_length is_nchar r) as H.
    destruct (snd (span_while is_nchar r)) as [|c' r']; [done|].
    destruct (Ascii.eqb_spec c' ")") as [->|Hne']; [simpl in *; lia|].
    destruct c' as [[] [] [] [] [] [] [] []]; try done.
  - destruct c as [[] [] [] [] [] [] [] []]; try done.
Qed.

(** A subject sequence is never empty. *)
Lemma scan_subject_length (s : string) (subj : subject) (rest : string) :
  scan_subject s = Some (subj, rest) ->
  String.length rest < String.length s.
Proof.
  unfold scan_subject.
  destruct (match_nocase "infinity" s) as [r|] eqn:H1.
  { intros [= <- <-]. apply match_nocase_length in H1. simpl in H1. lia. }
  destruct (match_nocase "inf" s) as [r|] eqn:H2.
  { intros [= <- <-]. apply match_nocase_length in H2. simpl in H2. lia. }
  destruct (match_nocase "nan" s) as [r|] eqn:H3.
  { intros [= <- <-]. apply match_nocase_length in H3.
    pose proof (scan_nan_payload_length r). simpl in H3. lia. }
  destruct (scan_hex s) as [[q r]|] eqn:H4.
  { intros [= <- <-]. unfold scan_hex in H4.
    destruct (match_nocase "0x" s) as [r0|] eqn:H0; [|done].
    apply match_nocase_length in H0.
    destruct (scan_mantissa is_hex_digit r0) as [[[ip fp] r2]|] eqn:Hm; [|done].
    apply scan_mantissa_length in Hm.
    pose proof (scan_exponent_length "p" r2) as He.
    destruct (scan_exponent "p" r2) as [e r3]. injection H4 as _ <-.
    simpl in *. lia. }
  destruct (scan_decimal s) as [[q r]|] eqn:H5; [|done].
  intros [= <- <-]. unfold scan_decimal in H5.
  destruct (scan_mantissa is_digit s) as [[[ip fp] r2]|] eqn:Hm; [|done].
  apply scan_mantissa_length in Hm.
  pose proof (scan_exponent_length "e" r2) as He.
  destruct (scan_exponent "e" r2) as [e r3]. injection H5 as _ <-.
  simpl in *. lia.
Qed.

Section FloatingFields.

Variable range_error : FloatKind -> Q -> bool.

Lemma parse_value_floating_space (k : FloatKind) (c : ascii) (s : string) :
  isspace c = true ->
  parse_value_floating range_error k (String c s)
  = parse_value_floating range_error k s.
Proof.
  intros Hc. unfold parse_value_floating, strtod. simpl span_while. rewrite Hc.
  pose proof (span_while_length isspace s) as Hws.
  destruct (span_while isspace s) as [a b]. simpl snd in *.
  pose proof (strip_sign_length b) as Hsign.
  destruct (strip_sign b) as [neg s']. simpl snd in *.
  destruct (scan_subject s') as [[subj rest]|] eqn:Hscan; [|done].
  apply scan_subject_length in Hscan.
  assert (String.length (String c s) - String.length rest
          = S (String.length s - String.length rest)) as -> by (simpl; lia).
  assert (exists e, String.length s - String.length rest = S e) as [e ->]
    by (exists (String.length s - String.length rest - 1); lia).
  by destruct subj.
Qed.

(** X2.  The floating-point overload ignores white space before the
    numeral: a field and the same field with white space put before it
    have the same outcome, value or [ParseError]. *)
Theorem parse_value_floating_skips_space (k : FloatKind) (ws s : string) :
  all_space ws = true ->
  parse_value_floating range_error k (ws ++ s)
  = parse_value_floating range_error k s.
Proof.
  induction ws as [|c ws IH]; [done|]. simpl. intros H.
  apply andb_true_iff in H as [Hc Hws].
  rewrite string_app_cons, parse_value_floating_space by done. by apply IH.
Qed.

Lemma parse_value_floating_blank (k : FloatKind) (ws : string) :
  all_space ws = true ->
  parse_value_floating range_error k ws = Unexpected ParseError.
Proof.
  induction ws as [|c ws IH]; [done|]. simpl. intros H.
  apply andb_true_iff in H as [Hc Hws].
  rewrite parse_value_floating_space by done. by apply IH.
Qed.

End FloatingFields.

(** * Lines and fields: what the loader does not look at *)

Lemma pieces_nil (d : ascii) (s : string) : pieces d s = [] <-> s = EmptyString.
Proof.
  split; [|by intros ->]. destruct s as [|c r]; [done|]. simpl.
  destruct (Ascii.eqb c d); [done|]. by destruct (pieces d r).
Qed.

(** A delimiter put at the end of a text adds a piece, an empty one, only
    when the text is empty or ends with the delimiter already. *)
Lemma pieces_snoc (d : ascii) (s : string) :
  pieces d (s ++ String d EmptyString)
  = if is_empty s then [EmptyString]
    else if ends_with d s then (pieces d s ++ [EmptyString])%list
    else pieces d s.
Proof.
  induction s as [|c r IH].
  - simpl. by rewrite Ascii.eqb_refl.
  - rewrite string_app_cons. cbn [pieces is_empty]. rewrite IH.
    destruct r as [|c' r'].
    + cbn [is_empty ends_with pieces]. by destruct (Ascii.eqb c d).
    + cbn [is_empty]. change (ends_with d (String c (String c' r')))
        with (ends_with d (String c' r')).
      destruct (Ascii.eqb c d); [by destruct (ends_with d (String c' r'))|].
      destruct (pieces d (String c' r')) as [|p ps] eqn:Hp.
      { by apply pieces_nil in Hp. }
      by destruct (ends_with d (String c' r')).
Qed.

(** A text without the delimiter is one piece. *)
Lemma pieces_single (d : ascii) (s : string) :
  string_forall (fun c => negb (Ascii.eqb c d)) s = true ->
  s <> EmptyString ->
  pieces d s = [s].
Proof.
  induction s as [|c r IH]; [done|]. simpl. intros H _.
  apply andb_true_iff in H as [Hc Hr]. apply negb_true_iff in Hc. rewrite Hc.
  destruct r as [|c' r']; [done|]. by rewrite IH.
Qed.

(** Nothing is left of a line once all its fields are taken away. *)
Lemma remainder_all (n : nat) (line : string) :
  length (fields_of line) = n -> remainder n line = EmptyString.
Proof.
  revert line. induction n as [|n IH]; intros line Hn.
  - apply length_zero_iff_nil, pieces_nil in Hn. by subst.
  - cbn [remainder]. destruct line as [|c r]; [done|].
    pose proof (read_until_pieces kCsvDelimiter (String c r) ltac:(done)) as Hp.
    destruct (read_until kCsvDelimiter (String c r)) as [str [rest|]]; [|done].
    apply IH. unfold fields_of in *. rewrite Hp in Hn. simpl in Hn. lia.
Qed.

Lemma all_space_no_comma (s : string) :
  all_space s = true ->
  string_forall (fun c => negb (Ascii.eqb c kCsvDelimiter)) s = true.
Proof.
  induction s as [|c r IH]; [done|]. simpl. intros H.
  apply andb_true_iff in H as [Hc Hr]. rewrite (IH Hr), andb_true_r.
  apply negb_true_iff, Ascii.eqb_neq. by intros ->.
Qed.

Lemma parse_value_integral_blank (k : IntKind) (ws : string) :
  all_space ws = true -> parse_value_integral k ws = Unexpected ParseError.
Proof.
  intros H. unfold parse_value_integral, from_chars. rewrite from_chars_sign.
  destruct ws as [|c r]; [done|]. simpl in H.
  apply andb_true_iff in H as [Hc _].
  assert (Ascii.eqb c "-" = false) as -> by (apply Ascii.eqb_neq; by intros ->).
  cbn [andb span_while]. by rewrite (isspace_not_digit c Hc).
Qed.

Section LoaderExtras.

Variable range_error : FloatKind -> Q -> bool.

Lemma convert_blank (T : ColTy) (ws : string) :
  T <> TString -> all_space ws = true -> convert range_error T ws = None.
Proof.
  intros HT Hws. destruct T as [k|k|]; [| |done]; simpl.
  - by rewrite parse_value_integral_blank.
  - by rewrite parse_value_floating_blank.
Qed.

(** The outcome of a load is decided by the fields of the header and the
    data lines that are not empty. *)
Lemma load_outcome_lines (tys : list ColTy) (fresh : nat) (c1 c2 h1 h2 : string)
    (d1 d2 : list string) :
  lines_of c1 = h1 :: d1 ->
  lines_of c2 = h2 :: d2 ->
  fields_of h1 = fields_of h2 ->
  nonblank d1 = nonblank d2 ->
  load_outcome range_error tys (Some c1) fresh
  = load_outcome range_error tys (Some c2) fresh.
Proof.
  intros Hl1 Hl2 Hf Hd. unfold load_outcome. rewrite Hl1, Hl2, Hf, Hd.
  assert (is_empty h1 = is_empty h2) as ->; [|done].
  destruct h1, h2; try done.
  - symmetry in Hf. by apply pieces_nil in Hf.
  - by apply pieces_nil in Hf.
Qed.

(** X3.  A data line that is not empty and splits on commas into exactly
    one field per column is refused when it ends with a comma: its last
    field, the empty one after that comma, is never read.  When it does
    not end with a comma it is taken exactly when every field parses at
    the type of its column, and then each column receives the value
    parsed from the field at its position. *)
Theorem parse_row_exact_fields (cols : list Column) (line : string) :
  is_empty line = false ->
  length (split_on kCsvDelimiter line) = length cols ->
  if ends_with kCsvDelimiter line
  then fst (parse_row range_error cols line) = false
  else
    match mapM (fun '(T, field) => convert range_error T field)
               (zip (type_of <$> cols) (split_on kCsvDelimiter line)) with
    | Some cells =>
        parse_row range_error cols line = (true, zip_with push_cell cols cells)
    | None => fst (parse_row range_error cols line) = false
    end.
Proof.
  intros Hne Hlen. pose proof (parse_row_spec range_error cols line) as Hrow.
  unfold convert_row in Hrow. rewrite length_fmap in Hrow.
  rewrite (split_on_fields line Hne) in *.
  destruct (ends_with kCsvDelimiter line).
  { rewrite length_app in Hlen. simpl in Hlen.
    destruct (Nat.ltb_spec (length (fields_of line)) (length cols)) as [_|];
      [|lia].
    by destruct (parse_row range_error cols line) as [s cols']. }
  destruct (Nat.ltb_spec (length (fields_of line)) (length cols)) as [|_]; [lia|].
  rewrite (remainder_all (length cols) line Hlen) in Hrow.
  destruct (parse_row range_error cols line) as [s cols'].
  destruct (mapM _ (zip (type_of <$> cols) (fields_of line))) as [cells|];
    simpl in *; [|done].
  by destruct Hrow as [-> ->].
Qed.

(** X4.  Two files load alike when their headers have the same fields and
    their data lines, the empty ones left out, are the same: empty lines,
    wherever they stand after the header, make no difference. *)
Theorem load_ignores_empty_lines (tys : list ColTy) (fs1 fs2 : filesystem)
    (path1 path2 : string) (fresh : nat) (c1 c2 h1 h2 : string)
    (d1 d2 : list string) :
  fs1 path1 = Some c1 ->
  fs2 path2 = Some c2 ->
  lines_of c1 = h1 :: d1 ->
  lines_of c2 = h2 :: d2 ->
  fields_of h1 = fields_of h2 ->
  nonblank d1 = nonblank d2 ->
  try_read_from_csv range_error tys fs1 path1 fresh
  = try_read_from_csv range_error tys fs2 path2 fresh.
Proof.
  intros H1 H2 Hl1 Hl2 Hf Hd. rewrite !try_read_from_csv_spec, H1, H2.
  f_equal. by eapply load_outcome_lines.
Qed.

(** X5.  A line feed added at the end of a file does not change the
    outcome of loading it, whatever the file. *)
Theorem load_final_line_feed (tys : list ColTy) (fs1 fs2 : filesystem)
    (path1 path2 : string) (fresh : nat) (content : string) :
  fs1 path1 = Some content ->
  fs2 path2 = Some (content ++ String newline EmptyString) ->
  try_read_from_csv range_error tys fs1 path1 fresh
  = try_read_from_csv range_error tys fs2 path2 fresh.
Proof.
  intros H1 H2. rewrite !try_read_from_csv_spec, H1, H2. f_equal.
  pose proof (pieces_snoc newline content) as Hp.
  destruct content as [|c r].
  { unfold load_outcome, lines_of. by rewrite Hp. }
  cbn [is_empty] in Hp.
  destruct (lines_of (String c r)) as [|h d] eqn:Hl.
  { by apply pieces_nil in Hl. }
  unfold lines_of in Hl.
  destruct (ends_with newline (String c r)).
  - apply (load_outcome_lines tys fresh _ _ h h d (d ++ [EmptyString])%list);
      [done| |done|].
    + unfold lines_of. by rewrite Hp, Hl.
    + unfold nonblank. rewrite List.filter_app. simpl. by rewrite app_nil_r.
  - unfold load_outcome, lines_of. by rewrite Hp.
Qed.

(** X6.  A comma added at the end of a header that is not empty and does
    not end with a comma does not change the outcome of the load: the
    header has the same fields. *)
Theorem load_header_final_comma (tys : list ColTy) (fs1 fs2 : filesystem)
    (path1 path2 : string) (fresh : nat) (c1 c2 header : string)
    (data : list string) :
  fs1 path1 = Some c1 ->
  fs2 path2 = Some c2 ->
  lines_of c1 = header :: data ->
  lines_of c2 = (header ++ String kCsvDelimiter EmptyString) :: data ->
  is_empty header = false ->
  ends_with kCsvDelimiter header = false ->
  try_read_from_csv range_error tys fs1 path1 fresh
  = try_read_from_csv range_error tys fs2 path2 fresh.
Proof.
  intros H1 H2 Hl1 Hl2 He Hend. rewrite !try_read_from_csv_spec, H1, H2.
  f_equal. eapply load_outcome_lines; [done..| |done].
  unfold fields_of. by rewrite pieces_snoc, He, Hend.
Qed.

(** X7.  A table without columns cannot be loaded: whatever the file, the
    outcome is [FileNotFound] when it does not open and [InvalidFormat]
    when it does. *)
Theorem load_no_columns (fs : filesystem) (filepath : string) (fresh : nat) :
  try_read_from_csv range_error [] fs filepath fresh
  = Some (Unexpected (match fs filepath with
                      | None => FileNotFound
                      | Some _ => InvalidFormat
                      end)).
Proof.
  rewrite try_read_from_csv_spec. f_equal. unfold load_outcome.
  destruct (fs filepath) as [content|]; [|done].
  destruct (lines_of content) as [|header data]; [done|].
  destruct header as [|c r]; [done|]. cbn [is_empty].
  destruct (fields_of (String c r)) eqn:Hf; [by apply pieces_nil in Hf|].
  by rewrite decide_False.
Qed.

(** X8.  A line made of white space only is not an empty line: it is
    read as data, and when the first column is integral or floating-point
    the load fails with [ParseError]. *)
Theorem load_white_space_line (T : ColTy) (tys : list ColTy) (fs : filesystem)
    (filepath : string) (fresh : nat) (content header line : string)
    (data : list string) :
  fs filepath = Some content ->
  lines_of content = header :: data ->
  is_empty header = false ->
  length (fields_of header) = length (T :: tys) ->
  T <> TString ->
  In line (nonblank data) ->
  all_space line = true ->
  try_read_from_csv range_error (T :: tys) fs filepath fresh
  = Some (Unexpected ParseError).
Proof.
  intros Hfs Hl He Hn HT Hin Hws.
  rewrite try_read_from_csv_spec. unfold load_outcome.
  rewrite Hfs, Hl, He, decide_True by done.
  assert (mapM (convert_row range_error (T :: tys)) (nonblank data) = None)
    as ->; [|done].
  apply mapM_None_2, Exists_exists. exists line. split; [done|].
  apply convert_row_None. right; left. exists 0, T, line.
  split; [done|]. split; [|by apply convert_blank].
  unfold fields_of. rewrite pieces_single; [done|by apply all_space_no_comma|].
  apply filter_In in Hin as [_ Hne]. by destruct line.
Qed.

(** X9.  In a table that was loaded, the element at row [r] of the view
    over column [i] is the value parsed, at the type of the column, from
    field [i] of the [r]-th data line that is not empty. *)
Theorem loaded_cell (tys : list ColTy) (fs : filesystem) (filepath : string)
    (fresh : nat) (t : Columnar) :
  try_read_from_csv range_error tys fs filepath fresh = Some (Value t) ->
  exists content header data,
    fs filepath = Some content
    /\ lines_of content = header :: data
    /\ forall r line i T field,
         nonblank data !! r = Some line ->
         tys !! i = Some T ->
         fields_of line !! i = Some field ->
         exists view x,
           get_column_view_at i t = Some view
           /\ view_cells view !! r = Some x
           /\ convert range_error T field = Some x.
Proof.
  intros Ht.
  apply load_success in Ht as (content & header & data & rows & Hfs & Hl & He
                               & Hn & Hm & ->).
  exists content, header, data. split; [done|]. split; [done|].
  intros r line i T field Hr HT Hf.
  pose proof (table_of_rows_holds tys (fields_of header) rows fresh
                (convert_rows_shape _ _ _ _ Hm)) as [Hty _ _ Hrows].
  apply mapM_Some_1 in Hm.
  destruct (Forall2_lookup_l _ _ _ _ _ Hm Hr) as (row & Hrow & Hconv).
  rewrite convert_row_fields in Hconv. unfold convert_fields in Hconv.
  destruct (length (fields_of line) <? length tys); [done|].
  destruct (mapM _ (zip tys (fields_of line))) as [cells|] eqn:Hcells; [|done].
  simpl in Hconv.
  destruct (all_space (remainder (length tys) line)); [|done].
  injection Hconv as ->.
  apply mapM_Some_1 in Hcells.
  assert (zip tys (fields_of line) !! i = Some (T, field)) as Hz
    by (apply lookup_zip_with_Some; eauto).
  destruct (Forall2_lookup_l _ _ _ _ _ Hcells Hz) as (x & Hx & Hc).
  simpl in Hc.
  pose proof (Hrows r row Hrow) as Hcols. apply mapM_Some_1 in Hcols.
  destruct (Forall2_lookup_r _ _ _ _ _ Hcols Hx) as (col & Hcol & Hcell).
  unfold contents in Hcol. rewrite list_lookup_fmap in Hcol.
  destruct (columns_ (table_of_rows tys (fields_of header) rows fresh) !! i)
    as [c|] eqn:Hci; [|done].
  injection Hcol as <-.
  exists (typed_map (@span_over) c), x.
  unfold get_column_view_at. rewrite Hci, view_cells_span_over. done.
Qed.

End LoaderExtras.

(** * Views by position, and what never goes out of bounds *)

(** X10.  Under the class invariant the view over position [I] exists
    exactly for the positions below the column count; it has the type the
    column types give for [I], designates the vector of that column, and
    shows all its elements, [num_rows] of them. *)
Theorem get_column_view_at_outcome (tys : list ColTy) (t : Columnar) (I : nat) :
  well_formed tys t ->
  (is_Some (get_column_view_at I t) <-> I < num_cols t)
  /\ forall view,
       get_column_view_at I t = Some view ->
       tys !! I = Some (type_of view)
       /\ length (view_cells view) = num_rows t
       /\ exists c,
            columns_ t !! I = Some c
            /\ typed_get (@viewed) view = col_id c
            /\ view_cells view = column_cells c.
Proof.
  intros [Hty Hnames Hsizes]. unfold get_column_view_at, num_cols. split.
  - rewrite <- lookup_lt_is_Some. by rewrite fmap_is_Some.
  - intros view Hview.
    destruct (columns_ t !! I) as [c|] eqn:Hc; [|done].
    injection Hview as <-. split_and!.
    + rewrite <- Hty, list_lookup_fmap, Hc. by destruct c.
    + rewrite view_cells_span_over, <- col_size_cells.
      apply (Forall_lookup_1 _ _ _ _ Hsizes Hc).
    + exists c. split; [done|]. split; [by destruct c|].
      apply view_cells_span_over.
Qed.

(** X11.  Under the class invariant neither [get_row] nor [filter]
    subscripts a vector or a span past its end, whatever the index, the
    column asked for and the predicate: both calls are defined. *)
Theorem access_within_bounds (tys : list ColTy) (t : Columnar) (index : nat)
    (T : ColTy) (name : string) (predicate : denote T -> bool) (fresh : nat) :
  well_formed tys t ->
  is_Some (get_row index t) /\ is_Some (filter T name predicate t fresh).
Proof.
  intros Hwf. split.
  - destruct (Nat.le_gt_cases (row_count_ t) index) as [Hge|Hlt].
    + unfold get_row. destruct (Nat.leb_spec (row_count_ t) index); [|lia].
      by eexists.
    + destruct (get_row_defined tys t index Hwf Hlt) as (row & -> & _).
      by eexists.
  - destruct (get_column_view T name t) as [view|e] eqn:Hv.
    + destruct (filter_spec tys t T name predicate fresh view Hwf Hv)
        as (t' & -> & _).
      by eexists.
    + rewrite (filter_propagates _ _ _ _ _ _ Hv). by eexists.
Qed.

(** * More on the filter *)

Lemma filter_all {A} (f : A -> bool) (l : list A) :
  (forall x, In x l -> f x = true) -> List.filter f l = l.
Proof.
  induction l as [|a l IH]; [done|]. intros H. simpl.
  rewrite (H a) by (by left). f_equal. apply IH. intros x Hx. apply H. by right.
Qed.

Lemma filter_none {A} (f : A -> bool) (l : list A) :
  (forall x, In x l -> f x = false) -> List.filter f l = [].
Proof.
  induction l as [|a l IH]; [done|]. intros H. simpl.
  rewrite (H a) by (by left). apply IH. intros x Hx. apply H. by right.
Qed.

Lemma filter_length_eq {A} (f : A -> bool) (l : list A) :
  length (List.filter f l) = length l -> forall x, In x l -> f x = true.
Proof.
  induction l as [|a l IH]; [done|]. simpl.
  pose proof (List.filter_length_le f l) as Hle.
  destruct (f a) eqn:Ha; simpl; [|lia].
  intros Hlen x [<-|Hx]; [done|]. apply IH; [lia|done].
Qed.

Lemma fmap_tag_inj (T : ColTy) (l1 l2 : list (denote T)) :
  tag T <$> l1 = tag T <$> l2 -> l1 = l2.
Proof.
  revert l2. induction l1 as [|x l1 IH]; intros [|y l2] H; try done.
  rewrite !fmap_cons in H. injection H as Hx Hl.
  apply tag_inj in Hx. subst. f_equal. by apply IH.
Qed.

(** A filter whose column resolves returns the table picked at the
    positions where the predicate holds. *)
Lemma filter_picked (tys : list ColTy) (t : Columnar) (T : ColTy) (name : string)
    (predicate : denote T -> bool) (fresh : nat) (view : span (denote T)) :
  well_formed tys t ->
  get_column_view T name t = Value view ->
  exists t',
    filter T name predicate t fresh = Some (Value t')
    /\ picked_from (List.filter (holds_at predicate view) (seq 0 (row_count_ t)))
                   t t'.
Proof.
  intros Hwf Hv.
  destruct (filter_spec tys t T name predicate fresh view Hwf Hv)
    as (t' & Ht' & Hcount & Hnames & Hcols & _).
  exists t'. split; [done|]. by split_and!.
Qed.

Lemma kept_in_range {A} (predicate : A -> bool) (view : span A) (n : nat) :
  Forall (fun i => i < n) (List.filter (holds_at predicate view) (seq 0 n)).
Proof. eapply List.Forall_impl; [|apply filter_seq_bounds]. simpl. lia. Qed.

Lemma picked_well_formed (tys : list ColTy) (kept : list nat) (t t' : Columnar) :
  well_formed tys t -> picked_from kept t t' -> well_formed tys t'.
Proof. intros Hwf (Hcount & Hnames & Hcols). by eapply filter_well_formed. Qed.

Lemma picked_rows (kept : list nat) (t t' : Columnar) (j : nat) :
  Forall (fun i => i < row_count_ t) kept ->
  picked_from kept t t' ->
  get_row j t'
  = match kept !! j with
    | Some i => get_row i t
    | None => Some (Unexpected RowIndexOutOfBounds)
    end.
Proof. intros Hkept (Hcount & Hnames & Hcols). by apply (filter_rows []). Qed.

(** A column that resolves on the source resolves on the picked table, to
    the elements at the kept positions. *)
Lemma picked_view (tys : list ColTy) (kept : list nat) (t t' : Columnar)
    (T : ColTy) (name : string) (v : span (denote T)) :
  well_formed tys t ->
  picked_from kept t t' ->
  get_column_view T name t = Value v ->
  exists v',
    get_column_view T name t' = Value v'
    /\ pick kept (span_elems v) = Some (span_elems v').
Proof.
  intros Hwf (Hcount & Hnames & Hcols) Hv.
  destruct (get_column_view_resolved tys t T name v Hwf Hv)
    as (i & c & Hfirst & Hc & Hty & _ & Hcells).
  destruct (Forall2_lookup_l _ _ _ _ _ Hcols Hc) as (c' & Hc' & Hty' & Hpick).
  assert (first_named name t' i) as Hfirst'
    by (unfold first_named; by rewrite Hnames).
  destruct (get_column_view_at_first T name t' i c' Hfirst' Hc') as [Hok _].
  destruct (Hok ltac:(congruence)) as (v' & Hv' & _ & Hcells').
  exists v'. split; [done|].
  rewrite <- Hcells, <- Hcells', pick_fmap in Hpick.
  destruct (pick kept (span_elems v)) as [l|]; [|done].
  simpl in Hpick. injection Hpick as Hl. by rewrite (fmap_tag_inj T _ _ Hl).
Qed.

(** A lookup fails on the picked table as it fails on the source. *)
Lemma picked_view_error (kept : list nat) (t t' : Columnar) (T : ColTy)
    (name : string) (e : CsvError) :
  picked_from kept t t' ->
  get_column_view T name t' = Unexpected e <->
  get_column_view T name t = Unexpected e.
Proof.
  intros (Hcount & Hnames & Hcols).
  unfold get_column_view, get_column_view_at. rewrite Hnames.
  destruct (list_find (fun n => n = name) (names_ t)) as [[i x]|]; [|done].
  destruct (columns_ t !! i) as [c|] eqn:Hc.
  - destruct (Forall2_lookup_l _ _ _ _ _ Hcols Hc) as (c' & -> & Hty & _).
    simpl.
    destruct (as_type T (typed_map (@span_over) c)) as [s|] eqn:Hs,
             (as_type T (typed_map (@span_over) c')) as [s'|] eqn:Hs'; try done.
    + apply as_type_None in Hs'. apply as_type_view in Hs as [Hs _].
      destruct Hs'. destruct c'; simpl in *; congruence.
    + apply as_type_None in Hs. apply as_type_view in Hs' as [Hs' _].
      destruct Hs. destruct c; simpl in *; congruence.
  - assert (columns_ t' !! i = None) as ->; [|done].
    apply lookup_ge_None. apply lookup_ge_None in Hc.
    apply Forall2_length in Hcols. lia.
Qed.

(** X12.  A filter never adds rows: the result has at most the rows of
    the source, and has as many exactly when the predicate holds on every
    row, in which case its rows are those of the source. *)
Theorem filter_row_count (tys : list ColTy) (t t' : Columnar) (T : ColTy)
    (name : string) (predicate : denote T -> bool) (fresh : nat)
    (view : span (denote T)) :
  well_formed tys t ->
  get_column_view T name t = Value view ->
  filter T name predicate t fresh = Some (Value t') ->
  num_rows t' <= num_rows t
  /\ (num_rows t' = num_rows t <->
      forall i, i < num_rows t -> holds_at predicate view i = true)
  /\ (num_rows t' = num_rows t -> forall j, get_row j t' = get_row j t).
Proof.
  intros Hwf Hv Hf.
  destruct (filter_picked tys t T name predicate fresh view Hwf Hv)
    as (t'' & Ht'' & Hpicked).
  rewrite Ht'' in Hf. injection Hf as <-.
  set (kept := List.filter (holds_at predicate view) (seq 0 (row_count_ t))) in *.
  pose proof Hpicked as (Hcount & _).
  unfold num_rows. rewrite Hcount.
  pose proof (List.filter_length_le (holds_at predicate view)
                (seq 0 (row_count_ t))) as Hle.
  rewrite length_seq in Hle. fold kept in Hle.
  assert (length kept = row_count_ t ->
          forall i, i < row_count_ t -> holds_at predicate view i = true) as Hall.
  { intros Hlen i Hi.
    apply (filter_length_eq (holds_at predicate view) (seq 0 (row_count_ t))).
    - fold kept. by rewrite length_seq.
    - apply in_seq. lia. }
  split_and!; [done| |].
  - split; [done|]. intros Hforall. unfold kept.
    rewrite filter_all, length_seq; [done|].
    intros i Hi. apply in_seq in Hi. apply Hforall. lia.
  - intros Hlen j.
    rewrite (picked_rows kept t t'' j (kept_in_range _ _ _) Hpicked).
    unfold kept. rewrite filter_all.
    2:{ intros i Hi. apply in_seq in Hi. apply (Hall Hlen). lia. }
    destruct (Nat.lt_ge_cases j (row_count_ t)) as [Hlt|Hge].
    + by rewrite lookup_seq_lt.
    + rewrite lookup_seq_ge by done. unfold get_row.
      by destruct (Nat.leb_spec (row_count_ t) j); [|lia].
Qed.

(** X13.  When the predicate holds on no row, the filter still succeeds:
    the result has no rows, the names and the number of columns of the
    source, and empty columns. *)
Theorem filter_no_match (tys : list ColTy) (t : Columnar) (T : ColTy)
    (name : string) (predicate : denote T -> bool) (fresh : nat)
    (view : span (denote T)) :
  well_formed tys t ->
  get_column_view T name t = Value view ->
  (forall i, i < num_rows t -> holds_at predicate view i = false) ->
  exists t',
    filter T name predicate t fresh = Some (Value t')
    /\ num_rows t' = 0
    /\ column_names t' = column_names t
    /\ num_cols t' = num_cols t
    /\ Forall (fun c => col_size c = 0) (columns_ t').
Proof.
  intros Hwf Hv Hnone.
  destruct (filter_picked tys t T name predicate fresh view Hwf Hv)
    as (t' & Ht' & Hpicked).
  rewrite filter_none in Hpicked.
  2:{ intros i Hi. apply in_seq in Hi. apply Hnone. unfold num_rows. lia. }
  pose proof (picked_well_formed tys [] t t' Hwf Hpicked) as [Hty' _ Hsizes'].
  destruct Hpicked as (Hcount & Hnames & Hcols).
  exists t'. split_and!; try done.
  - unfold num_cols. symmetry. by eapply Forall2_length.
  - by rewrite Hcount in Hsizes'.
Qed.

(** X14.  After a filter, every element of the filtered column in the
    result satisfies the predicate. *)
Theorem filter_result_satisfies (tys : list ColTy) (t t' : Columnar) (T : ColTy)
    (name : string) (predicate : denote T -> bool) (fresh : nat) :
  well_formed tys t ->
  filter T name predicate t fresh = Some (Value t') ->
  exists view',
    get_column_view T name t' = Value view'
    /\ length (span_elems view') = num_rows t'
    /\ forall x, In x (span_elems view') -> predicate x = true.
Proof.
  intros Hwf Hf.
  destruct (get_column_view T name t) as [view|e] eqn:Hv.
  2:{ by rewrite (filter_propagates _ _ _ _ _ _ Hv) in Hf. }
  destruct (filter_picked tys t T name predicate fresh view Hwf Hv)
    as (t'' & Ht'' & Hpicked).
  rewrite Ht'' in Hf. injection Hf as <-.
  set (kept := List.filter (holds_at predicate view) (seq 0 (row_count_ t))) in *.
  destruct (picked_view tys kept t t'' T name view Hwf Hpicked Hv)
    as (view' & Hv' & Hpick).
  exists view'. split; [done|]. split.
  - rewrite (pick_length _ _ _ Hpick). unfold num_rows.
    by destruct Hpicked as (-> & _).
  - intros x Hx.
    apply list_elem_of_In, list_elem_of_lookup in Hx as [j Hj].
    assert (j < length kept) as Hlt
      by (rewrite <- (pick_length _ _ _ Hpick); by eapply lookup_lt_Some).
    destruct (lookup_lt_is_Some_2 _ _ Hlt) as [i Hi].
    rewrite (pick_lookup _ _ _ _ _ Hpick Hi) in Hj.
    assert (In i kept) as Hin
      by (apply list_elem_of_In, list_elem_of_lookup; eauto).
    apply filter_In in Hin as [_ Hholds]. unfold holds_at in Hholds.
    by rewrite Hj in Hholds.
Qed.

(** X15.  A filter does not change which lookups by name succeed: on the
    result a lookup fails exactly when it fails on the source, with the
    same error. *)
Theorem filter_preserves_lookup_errors (tys : list ColTy) (t t' : Columnar)
    (T : ColTy) (name : string) (predicate : denote T -> bool) (fresh : nat)
    (T2 : ColTy) (name2 : string) (e : CsvError) :
  well_formed tys t ->
  filter T name predicate t fresh = Some (Value t') ->
  get_column_view T2 name2 t' = Unexpected e <->
  get_column_view T2 name2 t = Unexpected e.
Proof.
  intros Hwf Hf.
  destruct (get_column_view T name t) as [view|e'] eqn:Hv.
  2:{ by rewrite (filter_propagates _ _ _ _ _ _ Hv) in Hf. }
  destruct (filter_picked tys t T name predicate fresh view Hwf Hv)
    as (t'' & Ht'' & Hpicked).
  rewrite Ht'' in Hf. injection Hf as <-.
  by eapply picked_view_error.
Qed.

(** Two filters in a row, by the positions of the source where both
    predicates hold. *)
Lemma filter_then_filter (tys : list ColTy) (t : Columnar) (Ta Tb : ColTy)
    (a b : string) (pa : denote Ta -> bool) (pb : denote Tb -> bool)
    (fresh1 fresh2 : nat) (va : span (denote Ta)) (vb : span (denote Tb)) :
  well_formed tys t ->
  get_column_view Ta a t = Value va ->
  get_column_view Tb b t = Value vb ->
  exists t1 t2,
    filter Ta a pa t fresh1 = Some (Value t1)
    /\ filter Tb b pb t1 fresh2 = Some (Value t2)
    /\ well_formed tys t2
    /\ row_count_ t2
       = length (List.filter (fun i => holds_at pa va i && holds_at pb vb i)
                             (seq 0 (row_count_ t)))
    /\ forall j,
         get_row j t2
         = match List.filter (fun i => holds_at pa va i && holds_at pb vb i)
                             (seq 0 (row_count_ t)) !! j with
           | Some i => get_row i t
           | None => Some (Unexpected RowIndexOutOfBounds)
           end.
Proof.
  intros Hwf Hva Hvb.
  destruct (filter_picked tys t Ta a pa fresh1 va Hwf Hva) as (t1 & Ht1 & Hp1).
  set (kept_a := List.filter (holds_at pa va) (seq 0 (row_count_ t))) in *.
  pose proof (picked_well_formed tys kept_a t t1 Hwf Hp1) as Hwf1.
  destruct (picked_view tys kept_a t t1 Tb b vb Hwf Hp1 Hvb)
    as (vb1 & Hvb1 & Hpick).
  destruct (filter_picked tys t1 Tb b pb fresh2 vb1 Hwf1 Hvb1)
    as (t2 & Ht2 & Hp2).
  pose proof Hp1 as (Hcount1 & _). rewrite Hcount1 in Hp2.
  set (kept_b := List.filter (holds_at pb vb1) (seq 0 (length kept_a))) in *.
  assert (Forall (fun j => j < row_count_ t1) kept_b) as Hkept_b
    by (rewrite Hcount1; apply kept_in_range).
  assert (forall j i, kept_a !! j = Some i -> holds_at pb vb1 j = holds_at pb vb i)
    as Hsame.
  { intros j i Hj. unfold holds_at.
    by rewrite (pick_lookup _ _ _ _ _ Hpick Hj). }
  pose proof (filter_positions kept_a (holds_at pb vb) (holds_at pb vb1) Hsame)
    as Hpos.
  fold kept_b in Hpos. unfold kept_a in Hpos at 2.
  rewrite filter_filter_and in Hpos.
  set (both := List.filter (fun i => holds_at pa va i && holds_at pb vb i)
                           (seq 0 (row_count_ t))) in *.
  exists t1, t2. split_and!; try done.
  - by eapply picked_well_formed.
  - destruct Hp2 as (-> & _). by eapply Forall2_length.
  - intros j. rewrite (picked_rows kept_b t1 t2 j Hkept_b Hp2).
    destruct (both !! j) as [i|] eqn:Hj.
    + destruct (Forall2_lookup_r _ _ _ _ _ Hpos Hj) as (j1 & -> & Hj1).
      by rewrite (picked_rows kept_a t t1 j1 (kept_in_range _ _ _) Hp1), Hj1.
    + apply lookup_ge_None in Hj.
      rewrite lookup_ge_None_2; [done|].
      apply Forall2_length in Hpos. lia.
Qed.

(** X16.  Filtering is idempotent: filtering the result of a filter
    again, on the same column with the same predicate, succeeds and gives
    a table with the same rows. *)
Theorem filter_idempotent (tys : list ColTy) (t t1 : Columnar) (T : ColTy)
    (name : string) (predicate : denote T -> bool) (fresh1 fresh2 : nat) :
  well_formed tys t ->
  filter T name predicate t fresh1 = Some (Value t1) ->
  exists t2,
    filter T name predicate t1 fresh2 = Some (Value t2)
    /\ num_rows t2 = num_rows t1
    /\ column_names t2 = column_names t1
    /\ forall j, get_row j t2 = get_row j t1.
Proof.
  intros Hwf Hf.
  destruct (get_column_view T name t) as [view|e] eqn:Hv.
  2:{ by rewrite (filter_propagates _ _ _ _ _ _ Hv) in Hf. }
  destruct (filter_then_filter tys t T T name name predicate predicate
              fresh1 fresh2 view view Hwf Hv Hv)
    as (t1' & t2 & Ht1 & Ht2 & _ & Hcount & Hrows).
  rewrite Ht1 in Hf. injection Hf as ->.
  destruct (filter_picked tys t T name predicate fresh1 view Hwf Hv)
    as (t1' & Ht1' & Hp1).
  rewrite Ht1 in Ht1'. injection Ht1' as <-.
  assert (List.filter (fun i => holds_at predicate view i && holds_at predicate view i)
                      (seq 0 (row_count_ t))
          = List.filter (holds_at predicate view) (seq 0 (row_count_ t))) as Heq.
  { apply List.filter_ext. intros i. apply andb_diag. }
  rewrite Heq in Hcount, Hrows.
  pose proof Hp1 as (Hcount1 & Hnames1 & _).
  destruct (get_column_view T name t1) as [view1|e] eqn:Hv1.
  2:{ by rewrite (filter_propagates _ _ _ _ _ _ Hv1) in Ht2. }
  destruct (filter_picked tys t1 T name predicate fresh2 view1
              (picked_well_formed _ _ _ _ Hwf Hp1) Hv1)
    as (t2' & Ht2' & (_ & Hnames2 & _)).
  rewrite Ht2 in Ht2'. injection Ht2' as <-.
  exists t2. split_and!; try done.
  - unfold num_rows. by rewrite Hcount, Hcount1.
  - intros j. rewrite Hrows.
    by rewrite (picked_rows _ t t1 j (kept_in_range _ _ _) Hp1).
Qed.

(** X17.  Filters commute: filtering on column [a] and then on column
    [b] gives the same rows as filtering on [b] and then on [a]. *)
Theorem filter_commutes (tys : list ColTy) (t : Columnar) (Ta Tb : ColTy)
    (a b : string) (pa : denote Ta -> bool) (pb : denote Tb -> bool)
    (fresh1 fresh2 fresh3 fresh4 : nat)
    (va : span (denote Ta)) (vb : span (denote Tb)) :
  well_formed tys t ->
  get_column_view Ta a t = Value va ->
  get_column_view Tb b t = Value vb ->
  exists t1 t2 u1 u2,
    filter Ta a pa t fresh1 = Some (Value t1)
    /\ filter Tb b pb t1 fresh2 = Some (Value t2)
    /\ filter Tb b pb t fresh3 = Some (Value u1)
    /\ filter Ta a pa u1 fresh4 = Some (Value u2)
    /\ num_rows t2 = num_rows u2
    /\ forall j, get_row j t2 = get_row j u2.
Proof.
  intros Hwf Hva Hvb.
  destruct (filter_then_filter tys t Ta Tb a b pa pb fresh1 fresh2 va vb
              Hwf Hva Hvb)
    as (t1 & t2 & Ht1 & Ht2 & _ & Hcount_t & Hrows_t).
  destruct (filter_then_filter tys t Tb Ta b a pb pa fresh3 fresh4 vb va
              Hwf Hvb Hva)
    as (u1 & u2 & Hu1 & Hu2 & _ & Hcount_u & Hrows_u).
  assert (List.filter (fun i => holds_at pb vb i && holds_at pa va i)
                      (seq 0 (row_count_ t))
          = List.filter (fun i => holds_at pa va i && holds_at pb vb i)
                        (seq 0 (row_count_ t))) as Heq.
  { apply List.filter_ext. intros i. apply andb_comm. }
  rewrite Heq in Hcount_u, Hrows_u.
  exists t1, t2, u1, u2. split_and!; try done.
  - unfold num_rows. by rewrite Hcount_t, Hcount_u.
  - intros j. by rewrite Hrows_t, Hrows_u.
Qed.

(** * White space after a numeral *)

Lemma string_app_assoc (a b c : string) : (a ++ b) ++ c = a ++ (b ++ c).
Proof.
  induction a as [|x a IH]; [done|]. by rewrite !string_app_cons, IH.
Qed.

Lemma string_forall_app (p : ascii -> bool) (a b : string) :
  string_forall p (a ++ b) = string_forall p a && string_forall p b.
Proof.
  induction a as [|x a IH]; [done|].
  rewrite string_app_cons. simpl. by rewrite IH, andb_assoc.
Qed.

Lemma string_forall_impl (p q : ascii -> bool) (s : string) :
  (forall c, p c = true -> q c = true) ->
  string_forall p s = true -> string_forall q s = true.
Proof.
  intros Hpq. induction s as [|c r IH]; [done|]. simpl. intros H.
  apply andb_true_iff in H as [Hc Hr]. by rewrite (Hpq c Hc), (IH Hr).
Qed.

Lemma ends_with_app (c : ascii) (a b : string) :
  b <> EmptyString -> ends_with c (a ++ b) = ends_with c b.
Proof.
  intros Hb. induction a as [|x a IH]; [done|].
  rewrite string_app_cons. cbn [ends_with].
  destruct (a ++ b) as [|y r] eqn:Hab; [|done].
  destruct a; [|done]. by rewrite string_app_nil in Hab.
Qed.

Lemma ends_with_forall (p : ascii -> bool) (c : ascii) (s : string) :
  ends_with c s = true -> string_forall p s = true -> p c = true.
Proof.
  induction s as [|x r IH]; [done|]. cbn [ends_with string_forall].
  intros He H. apply andb_true_iff in H as [Hx Hr].
  destruct r as [|y r']; [|by apply IH].
  apply Ascii.eqb_eq in He. by subst.
Qed.

Lemma get_app_length (a : string) (x : ascii) (b : string) :
  String.get (String.length a) (a ++ String x b) = Some x.
Proof. induction a as [|y a IH]; [done|]. by rewrite string_app_cons. Qed.

Lemma to_lower_space (c : ascii) : isspace c = true -> to_lower c = c.
Proof.
  unfold isspace, to_lower. intros H.
  destruct (Nat.leb_spec 65 (char_code c)), (Nat.leb_spec (char_code c) 90);
    try done.
  destruct (Nat.eqb_spec (char_code c) 32); [lia|].
  destruct (Nat.leb_spec 9 (char_code c)), (Nat.leb_spec (char_code c) 13);
    try done; lia.
Qed.

Lemma isspace_code (c : ascii) : isspace c = true -> char_code c <= 32.
Proof.
  unfold isspace. intros H.
  destruct (Nat.eqb_spec (char_code c) 32); [lia|].
  destruct (Nat.leb_spec 9 (char_code c)), (Nat.leb_spec (char_code c) 13);
    try done; lia.
Qed.

Lemma isspace_not_hex_digit (c : ascii) :
  isspace c = true -> is_hex_digit c = false.
Proof.
  intros H. unfold is_hex_digit.
  rewrite (isspace_not_digit c H), (to_lower_space c H).
  apply isspace_code in H.
  destruct (Nat.leb_spec 97 (char_code c)); [lia|done].
Qed.

Lemma isspace_not_nchar (c : ascii) : isspace c = true -> is_nchar c = false.
Proof.
  intros H. unfold is_nchar.
  rewrite (isspace_not_digit c H), (to_lower_space c H).
  assert (Ascii.eqb c "_" = false) as ->
    by (apply Ascii.eqb_neq; by intros ->).
  apply isspace_code in H.
  destruct (Nat.leb_spec 97 (char_code c)); [lia|done].
Qed.

(** What the scanners of [strtod] take from the input holds no white
    space. *)
Lemma span_while_no_space (isd : ascii -> bool) (s : string) :
  (forall c, isspace c = true -> isd c = false) ->
  exists pre, s = pre ++ snd (span_while isd s) /\ no_space pre = true.
Proof.
  intros Hisd. destruct (span_while isd s) as [a b] eqn:Hs.
  destruct (span_while_split _ _ _ _ Hs) as (-> & Ha & _).
  exists a. split; [done|]. eapply string_forall_impl; [|exact Ha].
  intros c Hc. destruct (isspace c) eqn:Hsp; [|done].
  by rewrite (Hisd c Hsp) in Hc.
Qed.

Lemma strip_sign_no_space (s : string) :
  exists pre, s = pre ++ snd (strip_sign s) /\ no_space pre = true.
Proof.
  destruct s as [|c r]; [by exists EmptyString|].
  destruct (Ascii.eqb_spec c "-") as [->|Hm]; [by exists "-"|].
  destruct (Ascii.eqb_spec c "+") as [->|Hp]; [by exists "+"|].
  exists EmptyString. split; [|done].
  destruct c as [[] [] [] [] [] [] [] []]; try done.
Qed.

Lemma match_nocase_no_space (pat s r : string) :
  no_space pat = true ->
  match_nocase pat s = Some r ->
  exists pre, s = pre ++ r /\ no_space pre = true.
Proof.
  revert s. induction pat as [|p pat IH]; intros s Hpat; simpl.
  - intros [= <-]. by exists EmptyString.
  - destruct s as [|c s']; [done|].
    destruct (Ascii.eqb_spec (to_lower c) p) as [Hc|]; [|done].
    unfold no_space in Hpat. simpl in Hpat.
    apply andb_true_iff in Hpat as [Hp Hpat].
    intros H. destruct (IH s' Hpat H) as (pre & -> & Hpre).
    exists (String c pre). split; [done|].
    unfold no_space in *. simpl. rewrite Hpre, andb_true_r.
    destruct (isspace c) eqn:Hsp; [|done].
    rewrite (to_lower_space c Hsp) in Hc. subst p. by rewrite Hsp in Hp.
Qed.

Lemma no_space_chain (s r q pre1 pre2 : string) :
  s = pre1 ++ r -> no_space pre1 = true ->
  r = pre2 ++ q -> no_space pre2 = true ->
  exists pre, s = pre ++ q /\ no_space pre = true.
Proof.
  intros -> H1 -> H2. exists (pre1 ++ pre2). split.
  - by rewrite string_app_assoc.
  - unfold no_space in *. by rewrite string_forall_app, H1, H2.
Qed.

Lemma scan_exponent_no_space (marker : ascii) (s : string) :
  isspace marker = false ->
  exists pre, s = pre ++ snd (scan_exponent marker s) /\ no_space pre = true.
Proof.
  intros Hm. unfold scan_exponent. destruct s as [|c r]; [by exists EmptyString|].
  destruct (Ascii.eqb_spec (to_lower c) marker) as [Hc|];
    [|by exists EmptyString].
  destruct (strip_sign_no_space r) as (sg & Hr & Hsg).
  destruct (strip_sign r) as [neg r']. simpl in Hr.
  destruct (span_while_no_space is_digit r' isspace_not_digit) as (ds' & Hr' & Hds').
  destruct (span_while is_digit r') as [ds rest]. simpl in Hr'.
  destruct (is_empty ds); [by exists EmptyString|]. simpl.
  destruct (no_space_chain r r' rest sg ds' Hr Hsg Hr' Hds') as (pre & -> & Hpre).
  exists (String c pre). split; [done|].
  unfold no_space in *. simpl. rewrite Hpre, andb_true_r.
  destruct (isspace c) eqn:Hsp; [|done].
  rewrite (to_lower_space c Hsp) in Hc. subst marker. by rewrite Hsp in Hm.
Qed.

Lemma scan_mantissa_no_space (isd : ascii -> bool) (s ip fp r2 : string) :
  (forall c, isspace c = true -> isd c = false) ->
  scan_mantissa isd s = Some (ip, fp, r2) ->
  exists pre, s = pre ++ r2 /\ no_space pre = true.
Proof.
  intros Hisd. unfold scan_mantissa.
  destruct (span_while_no_space isd s Hisd) as (p1 & Hs & Hp1).
  destruct (span_while isd s) as [ip' r1]. simpl in Hs.
  destruct (Ascii.eqb_spec (match r1 with String c _ => c | _ => "x"%char end) ".")
    as [Hdot|Hnot].
  - destruct r1 as [|c r]; [done|]. simpl in Hdot. subst c.
    destruct (span_while_no_space isd r Hisd) as (p2 & Hr & Hp2).
    destruct (span_while isd r) as [fp' r2']. simpl in Hr.
    destruct (is_empty ip' && is_empty fp'); [done|].
    intros [= <- <- <-].
    apply (no_space_chain s (String "." r) r2' p1 (String "." p2)); try done.
    by rewrite string_app_cons, <- Hr.
  - assert ((match r1 with
             | String "."%char r => span_while isd r
             | _ => (EmptyString, r1)
             end) = (EmptyString, r1)) as ->.
    { destruct r1 as [|c r]; [done|]. simpl in Hnot.
      destruct c as [[] [] [] [] [] [] [] []]; try done. }
    destruct (is_empty ip' && is_empty EmptyString); [done|].
    intros [= <- <- <-]. by exists p1.
Qed.

Lemma scan_nan_payload_no_space (s : string) :
  exists pre, s = pre ++ scan_nan_payload s /\ no_space pre = true.
Proof.
  unfold scan_nan_payload. destruct s as [|c r]; [by exists EmptyString|].
  destruct (Ascii.eqb_spec c "(") as [->|Hne].
  - destruct (span_while_no_space is_nchar r isspace_not_nchar) as (p & Hr & Hp).
    destruct (snd (span_while is_nchar r)) as [|c' r']; [by exists EmptyString|].
    destruct (Ascii.eqb_spec c' ")") as [->|Hne'].
    + exists (String "(" (p ++ ")")). split.
      * rewrite string_app_cons, string_app_assoc.
        by rewrite string_app_cons, string_app_nil, <- Hr.
      * unfold no_space in *. simpl. by rewrite string_forall_app, Hp.
    + exists EmptyString. split; [|done].
      destruct c' as [[] [] [] [] [] [] [] []]; try done.
  - exists EmptyString. split; [|done].
    destruct c as [[] [] [] [] [] [] [] []]; try done.
Qed.

Lemma scan_subject_no_space (s : string) (subj : subject) (rest : string) :
  scan_subject s = Some (subj, rest) ->
  exists pre, s = pre ++ rest /\ no_space pre = true.
Proof.
  unfold scan_subject.
  destruct (match_nocase "infinity" s) as [r|] eqn:H1.
  { intros [= <- <-]. by apply (match_nocase_no_space "infinity"). }
  destruct (match_nocase "inf" s) as [r|] eqn:H2.
  { intros [= <- <-]. by apply (match_nocase_no_space "inf"). }
  destruct (match_nocase "nan" s) as [r|] eqn:H3.
  { intros [= <- <-].
    destruct (match_nocase_no_space "nan" s r eq_refl H3) as (p1 & Hs & Hp1).
    destruct (scan_nan_payload_no_space r) as (p2 & Hr & Hp2).
    by eapply no_space_chain. }
  destruct (scan_hex s) as [[q r]|] eqn:H4.
  { intros [= <- <-]. unfold scan_hex in H4.
    destruct (match_nocase "0x" s) as [r0|] eqn:H0; [|done].
    destruct (match_nocase_no_space "0x" s r0 eq_refl H0) as (p0 & Hs & Hp0).
    destruct (scan_mantissa is_hex_digit r0) as [[[ip fp] r2]|] eqn:Hm; [|done].
    destruct (scan_mantissa_no_space _ _ _ _ _ isspace_not_hex_digit Hm)
      as (p1 & Hr0 & Hp1).
    destruct (scan_exponent_no_space "p" r2 eq_refl) as (p2 & Hr2 & Hp2).
    destruct (scan_exponent "p" r2) as [e r3]. injection H4 as _ <-.
    simpl in Hr2.
    destruct (no_space_chain s r0 r2 p0 p1 Hs Hp0 Hr0 Hp1) as (p & Hs' & Hp).
    by eapply no_space_chain. }
  destruct (scan_decimal s) as [[q r]|] eqn:H5; [|done].
  intros [= <- <-]. unfold scan_decimal in H5.
  destruct (scan_mantissa is_digit s) as [[[ip fp] r2]|] eqn:Hm; [|done].
  destruct (scan_mantissa_no_space _ _ _ _ _ isspace_not_digit Hm)
    as (p1 & Hs & Hp1).
  destruct (scan_exponent_no_space "e" r2 eq_refl) as (p2 & Hr2 & Hp2).
  destruct (scan_exponent "e" r2) as [e r3]. injection H5 as _ <-.
  simpl in Hr2. by eapply no_space_chain.
Qed.

Lemma parse_value_integral_trailing (k : IntKind) (str : string) (c : ascii) :
  isspace c = true ->
  ends_with c str = true ->
  parse_value_integral k str = Unexpected ParseError.
Proof.
  intros Hc Hend.
  assert (forall body ds rest,
            body <> EmptyString -> ends_with c body = true ->
            span_while is_digit body = (ds, rest) ->
            0 < String.length rest) as Hrest.
  { intros body ds rest Hne He Hs.
    destruct (span_while_split _ _ _ _ Hs) as (-> & Hds & _).
    destruct rest as [|x rest']; [|simpl; lia].
    rewrite string_app_empty_r in He.
    pose proof (ends_with_forall _ _ _ He Hds) as Hd.
    by rewrite (isspace_not_digit c Hc) in Hd. }
  unfold parse_value_integral, from_chars. rewrite from_chars_sign.
  destruct str as [|x r]; [done|].
  destruct (Ascii.eqb x "-" && is_signed k) eqn:Hsign.
  - destruct (span_while is_digit r) as [ds rest] eqn:Hs.
    destruct (is_empty ds) eqn:He; [done|].
    assert (r <> EmptyString) as Hr.
    { intros ->. simpl in Hs. injection Hs as <- <-. done. }
    assert (ends_with c r = true) as Hend' by (by destruct r).
    pose proof (Hrest r ds rest Hr Hend' Hs) as Hlen.
    destruct (span_while_split _ _ _ _ Hs) as (Heq & _).
    assert ((String.length (String x r) - String.length rest
             =? String.length (String x r)) = false) as Hptr.
    { apply Nat.eqb_neq. simpl. rewrite Heq, string_length_app. lia. }
    destruct ((int_min k <=? - decimal ds)%Z && (- decimal ds <=? int_max k)%Z);
      [|done].
    by rewrite Hptr.
  - destruct (span_while is_digit (String x r)) as [ds rest] eqn:Hs.
    destruct (is_empty ds) eqn:He; [done|].
    pose proof (Hrest (String x r) ds rest ltac:(done) Hend Hs) as Hlen.
    destruct (span_while_split _ _ _ _ Hs) as (Heq & _).
    assert ((String.length (String x r) - String.length rest
             =? String.length (String x r)) = false) as Hptr.
    { apply Nat.eqb_neq. rewrite Heq, string_length_app. lia. }
    destruct ((int_min k <=? decimal ds)%Z && (decimal ds <=? int_max k)%Z);
      [|done].
    by rewrite Hptr.
Qed.

Section TrailingSpace.

Variable range_error : FloatKind -> Q -> bool.

Lemma parse_value_floating_trailing (k : FloatKind) (str : string) (c : ascii) :
  isspace c = true ->
  ends_with c str = true ->
  no_null str = true ->
  parse_value_floating range_error k str = Unexpected ParseError.
Proof.
  intros Hc Hend Hnull. unfold parse_value_floating, strtod.
  destruct (span_while isspace str) as [ws b] eqn:Hws.
  destruct (span_while_split _ _ _ _ Hws) as (Hstr & _). simpl snd.
  destruct (strip_sign_no_space b) as (sg & Hb & Hsg).
  destruct (strip_sign b) as [neg s]. simpl in Hb.
  destruct (scan_subject s) as [[subj rest]|] eqn:Hscan; [|done].
  destruct (scan_subject_no_space s subj rest Hscan) as (p & Hs & Hp).
  apply scan_subject_length in Hscan.
  destruct (no_space_chain b s rest sg p Hb Hsg Hs Hp) as (pre & Hb' & Hpre).
  assert (pre <> EmptyString) as Hne.
  { intros ->. rewrite string_app_nil in Hb'.
    apply (f_equal String.length) in Hb, Hb'.
    rewrite string_length_app in Hb. lia. }
  assert (str = (ws ++ pre) ++ rest) as Hall
    by (by rewrite string_app_assoc, <- Hb').
  assert (String.length str - String.length rest = String.length (ws ++ pre))
    as Hoff by (rewrite Hall at 1; rewrite string_length_app; lia).
  assert (Ascii.eqb (deref str (String.length str - String.length rest)) zero
          = false) as Hderef.
  { rewrite Hoff. destruct rest as [|x rest'].
    - exfalso. rewrite string_app_empty_r in Hall.
      rewrite Hall, ends_with_app in Hend by done.
      pose proof (ends_with_forall _ _ _ Hend Hpre) as Hx. simpl in Hx.
      by rewrite Hc in Hx.
    - rewrite Hall at 1. unfold deref. rewrite get_app_length.
      unfold no_null in Hnull. rewrite Hall, string_forall_app in Hnull.
      apply andb_true_iff in Hnull as [_ Hnull]. simpl in Hnull.
      apply andb_true_iff in Hnull as [Hx _]. by apply negb_true_iff in Hx. }
  destruct subj; simpl; by rewrite Hderef, orb_true_r.
Qed.

Lemma convert_trailing_space (T : ColTy) (field : string) (c : ascii) :
  T <> TString ->
  isspace c = true ->
  ends_with c field = true ->
  no_null field = true ->
  convert range_error T field = None.
Proof.
  intros HT Hc Hend Hnull. destruct T as [k|k|]; [| |done]; simpl.
  - by rewrite (parse_value_integral_trailing k field c).
  - by rewrite (parse_value_floating_trailing k field c).
Qed.

End TrailingSpace.

(** The last piece of a text ends as the text does, when the text does not
    end with the delimiter. *)
Lemma pieces_last (d c : ascii) (s : string) :
  c <> d ->
  ends_with c s = true ->
  exists ps p,
    pieces d s = (ps ++ [p])%list
    /\ ends_with c p = true
    /\ forall P, string_forall P s = true -> string_forall P p = true.
Proof.
  intros Hcd. induction s as [|a r IH]; [done|].
  destruct r as [|b r'].
  - cbn [ends_with]. intros Ha. apply Ascii.eqb_eq in Ha. subst a.
    exists [], (String c EmptyString). simpl.
    apply Ascii.eqb_neq in Hcd. by rewrite Hcd, Ascii.eqb_refl.
  - change (ends_with c (String a (String b r')))
      with (ends_with c (String b r')).
    intros Hend. destruct (IH Hend) as (ps & p & Hp & Hpe & Hall).
    cbn [pieces] in *. rewrite Hp. destruct (Ascii.eqb a d).
    + exists (EmptyString :: ps), p. split_and!; [done|done|].
      intros P H. apply Hall. cbn [string_forall] in H.
      by apply andb_true_iff in H as [_ H].
    + destruct ps as [|q ps']; cbn [app].
      * exists [], (String a p). split_and!; [done| |].
        -- by destruct p.
        -- intros P H. cbn [string_forall] in *.
           apply andb_true_iff in H as [Ha H]. by rewrite Ha, (Hall P H).
      * exists (String a q :: ps'), p. split_and!; [done|done|].
        intros P H. apply Hall. cbn [string_forall] in H.
        by apply andb_true_iff in H as [_ H].
Qed.

Lemma isspace_not_comma (c : ascii) : isspace c = true -> c <> kCsvDelimiter.
Proof. by intros H ->. Qed.

Section TrailingSpaceTheorems.

Variable range_error : FloatKind -> Q -> bool.

(** X18.  Neither numeric overload takes white space after the numeral:
    a field that ends with a white-space character (and holds no null
    character) gives [ParseError] at every integral and floating-point
    type, while white space before the numeral is taken by the
    floating-point overload. *)
Theorem numeric_field_trailing_space (ki : IntKind) (kf : FloatKind)
    (str : string) (c : ascii) :
  isspace c = true ->
  ends_with c str = true ->
  no_null str = true ->
  parse_value_integral ki str = Unexpected ParseError
  /\ parse_value_floating range_error kf str = Unexpected ParseError.
Proof.
  intros Hc Hend Hnull. split.
  - by apply (parse_value_integral_trailing ki str c).
  - by apply (parse_value_floating_trailing range_error kf str c).
Qed.

(** X19.  A data line that ends with a white-space character, such as the
    carriage return of a line ending CR LF, and has no more fields than
    there are columns fails the load with [ParseError] when the last
    column is integral or floating-point. *)
Theorem load_trailing_white_space (tys : list ColTy) (T : ColTy)
    (fs : filesystem) (filepath : string) (fresh : nat)
    (content header line : string) (data : list string) (c : ascii) :
  fs filepath = Some content ->
  lines_of content = header :: data ->
  is_empty header = false ->
  length (fields_of header) = length (tys ++ [T])%list ->
  T <> TString ->
  In line (nonblank data) ->
  isspace c = true ->
  ends_with c line = true ->
  no_null line = true ->
  length (fields_of line) <= length (tys ++ [T])%list ->
  try_read_from_csv range_error (tys ++ [T])%list fs filepath fresh
  = Some (Unexpected ParseError).
Proof.
  intros Hfs Hl He Hn HT Hin Hc Hend Hnull Hle.
  rewrite try_read_from_csv_spec. unfold load_outcome.
  rewrite Hfs, Hl, He, decide_True by done.
  assert (mapM (convert_row range_error (tys ++ [T])%list) (nonblank data) = None)
    as ->; [|done].
  apply mapM_None_2, Exists_exists. exists line. split; [done|].
  apply convert_row_None.
  destruct (pieces_last kCsvDelimiter c line (isspace_not_comma c Hc) Hend)
    as (ps & p & Hp & Hpe & Hall).
  fold (fields_of line) in Hp. rewrite Hp, !length_app in *. simpl in Hle.
  destruct (decide (length ps = length tys)) as [Heq|Hne].
  - right; left. exists (length tys), T, p. split_and!.
    + by rewrite lookup_app_r, Nat.sub_diag.
    + by rewrite <- Heq, lookup_app_r, Nat.sub_diag.
    + apply (convert_trailing_space range_error T p c); try done.
      by apply Hall.
  - left. simpl. lia.
Qed.

End TrailingSpaceTheorems.

(** * The columns of a filtered table *)

(** X20.  After a filter, a column that resolved on the source resolves
    on the result under the same name and type, and its view shows the
    elements of the source column at the positions where the predicate
    holds, in their order. *)
Theorem filter_views (tys : list ColTy) (t t' : Columnar) (T : ColTy)
    (name : string) (predicate : denote T -> bool) (fresh : nat)
    (view : span (denote T)) (T2 : ColTy) (name2 : string)
    (view2 : span (denote T2)) :
  well_formed tys t ->
  get_column_view T name t = Value view ->
  filter T name predicate t fresh = Some (Value t') ->
  get_column_view T2 name2 t = Value view2 ->
  exists view2',
    get_column_view T2 name2 t' = Value view2'
    /\ pick (List.filter (holds_at predicate view) (seq 0 (num_rows t)))
            (span_elems view2)
       = Some (span_elems view2').
Proof.
  intros Hwf Hv Hf Hv2.
  destruct (filter_picked tys t T name predicate fresh view Hwf Hv)
    as (t'' & Ht'' & Hpicked).
  rewrite Ht'' in Hf. injection Hf as <-.
  by eapply picked_view.
Qed.

(** * The further properties at work *)

(** The field [-42] is a minus sign and two digits, in the range of
    [int]. *)
Lemma parse_value_integral_accepts_witness :
  integer_numeral Int "-42" (-42)%Z
  /\ parse_value_integral Int "-42" = Value (-42)%Z.
Proof.
  assert (integer_numeral Int "-42" (-42)%Z) as Hnum.
  { exists true, "42". split_and!; try reflexivity; try done. }
  split; [exact Hnum|].
  exact (proj2 (proj1 (parse_value_integral_accepts Int "-42") (-42)%Z) Hnum).
Defined.

(** Two blanks before [2.5] change nothing. *)
Lemma parse_value_floating_skips_space_witness :
  all_space "  " = true
  /\ parse_value_floating ieee_range_error Double ("  " ++ "2.5")
     = parse_value_floating ieee_range_error Double "2.5".
Proof.
  split; [reflexivity|].
  apply (parse_value_floating_skips_space ieee_range_error Double "  " "2.5").
  reflexivity.
Defined.

(** The line [6,60] splits into a field for each column of the simple
    table and both parse as [int]: each column receives its value.  The
    line [6,] splits into two fields as well, but ends with a comma: it
    is refused, also by columns that hold strings. *)
Lemma parse_row_exact_fields_witness :
  length (split_on kCsvDelimiter "6,60") = length (columns_ simple_table)
  /\ ends_with kCsvDelimiter "6,60" = false
  /\ parse_row ieee_range_error (columns_ simple_table) "6,60"
     = (true, [OfInt Int (mk_vector 2 [1; 2; 3; 4; 5; 6]%Z);
               OfInt Int (mk_vector 3 [10; 20; 30; 40; 50; 60]%Z)])
  /\ split_on kCsvDelimiter "6," = ["6"; ""]
  /\ ends_with kCsvDelimiter "6," = true
  /\ fst (parse_row ieee_range_error
            [OfInt Int (mk_vector 0 []); OfString (mk_vector 1 [])] "6,")
     = false.
Proof.
  split_and!; [reflexivity|reflexivity| |reflexivity|reflexivity|].
  - exact (parse_row_exact_fields ieee_range_error (columns_ simple_table)
             "6,60" eq_refl eq_refl).
  - exact (parse_row_exact_fields ieee_range_error
             [OfInt Int (mk_vector 0 []); OfString (mk_vector 1 [])] "6,"
             eq_refl eq_refl).
Defined.

(** [data/empty_lines.csv] is [data/two_rows.csv] with empty lines put
    in. *)
Lemma load_ignores_empty_lines_witness :
  more_fs "data/two_rows.csv" = Some (unlines ["id,value"; "1,10"; "2,20"])
  /\ more_fs "data/empty_lines.csv"
     = Some (unlines ["id,value"; ""; "1,10"; ""; ""; "2,20"; ""])
  /\ nonblank ["1,10"; "2,20"] = nonblank [""; "1,10"; ""; ""; "2,20"; ""]
  /\ try_read_from_csv ieee_range_error [TInt Int; TInt Int] more_fs
       "data/two_rows.csv" 0
     = try_read_from_csv ieee_range_error [TInt Int; TInt Int] more_fs
         "data/empty_lines.csv" 0.
Proof.
  split_and!; [reflexivity..|].
  apply (load_ignores_empty_lines ieee_range_error [TInt Int; TInt Int]
           more_fs more_fs "data/two_rows.csv" "data/empty_lines.csv" 0
           (unlines ["id,value"; "1,10"; "2,20"])
           (unlines ["id,value"; ""; "1,10"; ""; ""; "2,20"; ""])
           "id,value" "id,value"
           ["1,10"; "2,20"] [""; "1,10"; ""; ""; "2,20"; ""]);
    reflexivity.
Defined.

(** [data/two_rows.csv] is [data/no_final_line_feed.csv] with a line feed
    at its end. *)
Lemma load_final_line_feed_witness :
  more_fs "data/no_final_line_feed.csv"
  = Some ("id,value" ++ lf ++ "1,10" ++ lf ++ "2,20")
  /\ more_fs "data/two_rows.csv"
     = Some (("id,value" ++ lf ++ "1,10" ++ lf ++ "2,20")
             ++ String newline EmptyString)
  /\ try_read_from_csv ieee_range_error [TInt Int; TInt Int] more_fs
       "data/no_final_line_feed.csv" 0
     = try_read_from_csv ieee_range_error [TInt Int; TInt Int] more_fs
         "data/two_rows.csv" 0.
Proof.
  split_and!; [reflexivity..|].
  apply (load_final_line_feed ieee_range_error [TInt Int; TInt Int]
           more_fs more_fs "data/no_final_line_feed.csv" "data/two_rows.csv" 0
           ("id,value" ++ lf ++ "1,10" ++ lf ++ "2,20"));
    reflexivity.
Defined.

(** [data/header_comma.csv] is [data/two_rows.csv] with a comma at the end
    of the header. *)
Lemma load_header_final_comma_witness :
  lines_of (unlines ["id,value"; "1,10"; "2,20"])
  = ["id,value"; "1,10"; "2,20"]
  /\ lines_of (unlines ["id,value,"; "1,10"; "2,20"])
     = [("id,value" ++ String kCsvDelimiter EmptyString); "1,10"; "2,20"]
  /\ is_empty "id,value" = false
  /\ ends_with kCsvDelimiter "id,value" = false
  /\ try_read_from_csv ieee_range_error [TInt Int; TInt Int] more_fs
       "data/two_rows.csv" 0
     = try_read_from_csv ieee_range_error [TInt Int; TInt Int] more_fs
         "data/header_comma.csv" 0.
Proof.
  split_and!; [reflexivity..|].
  apply (load_header_final_comma ieee_range_error [TInt Int; TInt Int]
           more_fs more_fs "data/two_rows.csv" "data/header_comma.csv" 0
           (unlines ["id,value"; "1,10"; "2,20"])
           (unlines ["id,value,"; "1,10"; "2,20"])
           "id,value" ["1,10"; "2,20"]);
    reflexivity.
Defined.

(** The last line of [data/white_line.csv] is made of two blanks. *)
Lemma load_white_space_line_witness :
  more_fs "data/white_line.csv" = Some (unlines ["id,value"; "1,10"; "  "])
  /\ lines_of (unlines ["id,value"; "1,10"; "  "]) = ["id,value"; "1,10"; "  "]
  /\ In "  " (nonblank ["1,10"; "  "])
  /\ all_space "  " = true
  /\ try_read_from_csv ieee_range_error [TInt Int; TInt Int] more_fs
       "data/white_line.csv" 0
     = Some (Unexpected ParseError).
Proof.
  split_and!; [reflexivity|reflexivity|right; left; reflexivity|reflexivity|].
  apply (load_white_space_line ieee_range_error (TInt Int) [TInt Int] more_fs
           "data/white_line.csv" 0 (unlines ["id,value"; "1,10"; "  "])
           "id,value" "  " ["1,10"; "  "]);
    try reflexivity.
  - discriminate.
  - right; left; reflexivity.
Defined.

(** The cells of the table loaded from [data/simple.csv]. *)
Lemma loaded_cell_witness :
  try_read_from_csv ieee_range_error [TInt Int; TInt Int] example_fs
    "data/simple.csv" 0 = Some (Value simple_table)
  /\ exists content header data,
       example_fs "data/simple.csv" = Some content
       /\ lines_of content = header :: data
       /\ forall r line i T field,
            nonblank data !! r = Some line ->
            [TInt Int; TInt Int] !! i = Some T ->
            fields_of line !! i = Some field ->
            exists view x,
              get_column_view_at i simple_table = Some view
              /\ view_cells view !! r = Some x
              /\ convert ieee_range_error T field = Some x.
Proof.
  split; [reflexivity|].
  apply (loaded_cell ieee_range_error [TInt Int; TInt Int] example_fs
           "data/simple.csv" 0 simple_table).
  reflexivity.
Defined.

(** Position 1 of the simple table has a view, position 2 has none. *)
Lemma get_column_view_at_outcome_witness :
  well_formed [TInt Int; TInt Int] simple_table
  /\ (is_Some (get_column_view_at 1 simple_table) <-> 1 < num_cols simple_table)
  /\ (is_Some (get_column_view_at 2 simple_table) <-> 2 < num_cols simple_table).
Proof.
  split; [exact simple_table_well_formed|]. split.
  - exact (proj1 (get_column_view_at_outcome [TInt Int; TInt Int] simple_table 1
                    simple_table_well_formed)).
  - exact (proj1 (get_column_view_at_outcome [TInt Int; TInt Int] simple_table 2
                    simple_table_well_formed)).
Defined.

(** Row 7 of the simple table and a filter on a column it has not. *)
Lemma access_within_bounds_witness :
  well_formed [TInt Int; TInt Int] simple_table
  /\ is_Some (get_row 7 simple_table)
  /\ is_Some (filter (TInt Int) "energy" (fun v => (30 <? v)%Z) simple_table 4).
Proof.
  split; [exact simple_table_well_formed|].
  exact (access_within_bounds [TInt Int; TInt Int] simple_table 7 (TInt Int)
           "energy" (fun v => (30 <? v)%Z) 4 simple_table_well_formed).
Defined.

(** [value > 30] keeps two of the five rows of the simple table. *)
Lemma filter_row_count_witness :
  well_formed [TInt Int; TInt Int] simple_table
  /\ get_column_view (TInt Int) "value" simple_table
     = Value (mk_span 3 [10; 20; 30; 40; 50]%Z)
  /\ exists t',
       filter (TInt Int) "value" (fun v => (30 <? v)%Z) simple_table 4
       = Some (Value t')
       /\ num_rows t' <= num_rows simple_table
       /\ (num_rows t' = num_rows simple_table <->
           forall i, i < num_rows simple_table ->
             holds_at (fun v => (30 <? v)%Z)
                      (mk_span 3 [10; 20; 30; 40; 50]%Z) i = true).
Proof.
  split; [exact simple_table_well_formed|]. split; [reflexivity|].
  eexists. split; [reflexivity|].
  destruct (filter_row_count [TInt Int; TInt Int] simple_table _ (TInt Int)
              "value" (fun v => (30 <? v)%Z) 4
              (mk_span 3 [10; 20; 30; 40; 50]%Z)
              simple_table_well_formed eq_refl eq_refl)
    as (Hle & Hiff & _).
  split; [exact Hle|exact Hiff].
Defined.

(** No value of the simple table exceeds 100. *)
Lemma filter_no_match_witness :
  well_formed [TInt Int; TInt Int] simple_table
  /\ get_column_view (TInt Int) "value" simple_table
     = Value (mk_span 3 [10; 20; 30; 40; 50]%Z)
  /\ (forall i, i < num_rows simple_table ->
        holds_at (fun v => (100 <? v)%Z)
                 (mk_span 3 [10; 20; 30; 40; 50]%Z) i = false)
  /\ exists t',
       filter (TInt Int) "value" (fun v => (100 <? v)%Z) simple_table 4
       = Some (Value t')
       /\ num_rows t' = 0
       /\ column_names t' = column_names simple_table
       /\ num_cols t' = num_cols simple_table
       /\ Forall (fun c => col_size c = 0) (columns_ t').
Proof.
  assert (forall i, i < num_rows simple_table ->
            holds_at (fun v => (100 <? v)%Z)
                     (mk_span 3 [10; 20; 30; 40; 50]%Z) i = false) as Hnone.
  { intros i Hi. do 5 (destruct i as [|i]; [reflexivity|]).
    unfold simple_table, num_rows in Hi. simpl in Hi. lia. }
  split; [exact simple_table_well_formed|]. split; [reflexivity|].
  split; [exact Hnone|].
  exact (filter_no_match [TInt Int; TInt Int] simple_table (TInt Int) "value"
           (fun v => (100 <? v)%Z) 4 (mk_span 3 [10; 20; 30; 40; 50]%Z)
           simple_table_well_formed eq_refl Hnone).
Defined.

(** After [value > 30] every value of the result exceeds 30. *)
Lemma filter_result_satisfies_witness :
  well_formed [TInt Int; TInt Int] simple_table
  /\ exists t',
       filter (TInt Int) "value" (fun v => (30 <? v)%Z) simple_table 4
       = Some (Value t')
       /\ exists view',
            get_column_view (TInt Int) "value" t' = Value view'
            /\ length (span_elems view') = num_rows t'
            /\ forall x, In x (span_elems view') -> (30 <? x)%Z = true.
Proof.
  split; [exact simple_table_well_formed|].
  eexists. split; [reflexivity|].
  exact (filter_result_satisfies [TInt Int; TInt Int] simple_table _ (TInt Int)
           "value" (fun v => (30 <? v)%Z) 4 simple_table_well_formed eq_refl).
Defined.

(** The column [id] asked for as [double] fails on the filtered table as
    on the simple table. *)
Lemma filter_preserves_lookup_errors_witness :
  well_formed [TInt Int; TInt Int] simple_table
  /\ exists t',
       filter (TInt Int) "value" (fun v => (30 <? v)%Z) simple_table 4
       = Some (Value t')
       /\ (get_column_view (TFloat Double) "id" t' = Unexpected ParseError <->
           get_column_view (TFloat Double) "id" simple_table
           = Unexpected ParseError).
Proof.
  split; [exact simple_table_well_formed|].
  eexists. split; [reflexivity|].
  exact (filter_preserves_lookup_errors [TInt Int; TInt Int] simple_table _
           (TInt Int) "value" (fun v => (30 <? v)%Z) 4 (TFloat Double) "id"
           ParseError simple_table_well_formed eq_refl).
Defined.

(** [value > 30] applied twice to the simple table. *)
Lemma filter_idempotent_witness :
  well_formed [TInt Int; TInt Int] simple_table
  /\ exists t1,
       filter (TInt Int) "value" (fun v => (30 <? v)%Z) simple_table 4
       = Some (Value t1)
       /\ exists t2,
            filter (TInt Int) "value" (fun v => (30 <? v)%Z) t1 8
            = Some (Value t2)
            /\ num_rows t2 = num_rows t1
            /\ column_names t2 = column_names t1
            /\ forall j, get_row j t2 = get_row j t1.
Proof.
  split; [exact simple_table_well_formed|].
  eexists. split; [reflexivity|].
  exact (filter_idempotent [TInt Int; TInt Int] simple_table _ (TInt Int)
           "value" (fun v => (30 <? v)%Z) 4 8 simple_table_well_formed eq_refl).
Defined.

(** [value >= 20] and [id < 5] on the simple table, in both orders. *)
Lemma filter_commutes_witness :
  well_formed [TInt Int; TInt Int] simple_table
  /\ get_column_view (TInt Int) "value" simple_table
     = Value (mk_span 3 [10; 20; 30; 40; 50]%Z)
  /\ get_column_view (TInt Int) "id" simple_table
     = Value (mk_span 2 [1; 2; 3; 4; 5]%Z)
  /\ exists t1 t2 u1 u2,
       filter (TInt Int) "value" (fun v => (20 <=? v)%Z) simple_table 4
       = Some (Value t1)
       /\ filter (TInt Int) "id" (fun v => (v <? 5)%Z) t1 8 = Some (Value t2)
       /\ filter (TInt Int) "id" (fun v => (v <? 5)%Z) simple_table 4
          = Some (Value u1)
       /\ filter (TInt Int) "value" (fun v => (20 <=? v)%Z) u1 8
          = Some (Value u2)
       /\ num_rows t2 = num_rows u2
       /\ forall j, get_row j t2 = get_row j u2.
Proof.
  split; [exact simple_table_well_formed|].
  split; [reflexivity|]. split; [reflexivity|].
  exact (filter_commutes [TInt Int; TInt Int] simple_table (TInt Int) (TInt Int)
           "value" "id" (fun v => (20 <=? v)%Z) (fun v => (v <? 5)%Z) 4 8 4 8
           (mk_span 3 [10; 20; 30; 40; 50]%Z) (mk_span 2 [1; 2; 3; 4; 5]%Z)
           simple_table_well_formed eq_refl eq_refl).
Defined.

(** The field [10] followed by a carriage return. *)
Lemma numeric_field_trailing_space_witness :
  isspace (ascii_of_nat 13) = true
  /\ ends_with (ascii_of_nat 13) ("10" ++ cr) = true
  /\ no_null ("10" ++ cr) = true
  /\ parse_value_integral Int ("10" ++ cr) = Unexpected ParseError
  /\ parse_value_floating ieee_range_error Double ("10" ++ cr)
     = Unexpected ParseError.
Proof.
  split_and!; [reflexivity..| |];
    apply (numeric_field_trailing_space ieee_range_error Int Double
             ("10" ++ cr) (ascii_of_nat 13));
    reflexivity.
Defined.

(** [data/crlf.csv] has the line ending CR LF: its data line ends with a
    carriage return, which stays in the last field. *)
Lemma load_trailing_white_space_witness :
  more_fs "data/crlf.csv" = Some (unlines ["id,value" ++ cr; "1,10" ++ cr])
  /\ lines_of (unlines ["id,value" ++ cr; "1,10" ++ cr])
     = ["id,value" ++ cr; "1,10" ++ cr]
  /\ In ("1,10" ++ cr) (nonblank ["1,10" ++ cr])
  /\ ends_with (ascii_of_nat 13) ("1,10" ++ cr) = true
  /\ fields_of ("1,10" ++ cr) = ["1"; "10" ++ cr]
  /\ try_read_from_csv ieee_range_error ([TInt Int] ++ [TInt Int])%list more_fs
       "data/crlf.csv" 0
     = Some (Unexpected ParseError).
Proof.
  split_and!; [reflexivity|reflexivity|left; reflexivity|reflexivity
              |reflexivity|].
  apply (load_trailing_white_space ieee_range_error [TInt Int] (TInt Int)
           more_fs "data/crlf.csv" 0
           (unlines ["id,value" ++ cr; "1,10" ++ cr])
           ("id,value" ++ cr) ("1,10" ++ cr) ["1,10" ++ cr] (ascii_of_nat 13));
    try reflexivity.
  - discriminate.
  - left; reflexivity.
Defined.

(** After [value > 30] on the simple table the column [id] shows the
    elements at the positions 3 and 4 of the source. *)
Lemma filter_views_witness :
  well_formed [TInt Int; TInt Int] simple_table
  /\ get_column_view (TInt Int) "value" simple_table
     = Value (mk_span 3 [10; 20; 30; 40; 50]%Z)
  /\ get_column_view (TInt Int) "id" simple_table
     = Value (mk_span 2 [1; 2; 3; 4; 5]%Z)
  /\ exists t',
       filter (TInt Int) "value" (fun v => (30 <? v)%Z) simple_table 4
       = Some (Value t')
       /\ exists view2',
            get_column_view (TInt Int) "id" t' = Value view2'
            /\ pick [3; 4] [1; 2; 3; 4; 5]%Z = Some (span_elems view2').
Proof.
  split; [exact simple_table_well_formed|].
  split; [reflexivity|]. split; [reflexivity|].
  eexists. split; [reflexivity|].
  exact (filter_views [TInt Int; TInt Int] simple_table _ (TInt Int) "value"
           (fun v => (30 <? v)%Z) 4 (mk_span 3 [10; 20; 30; 40; 50]%Z)
           (TInt Int) "id" (mk_span 2 [1; 2; 3; 4; 5]%Z)
           simple_table_well_formed eq_refl eq_refl eq_refl).
Defined.
